(** * offiaccount: the credential lifecycle and the request layer

    A shallow embedding of the Go package [offiaccount] (client and access
    token management) and the properties of its request layer.

    The Go functions talk to collaborators that live outside the package:
    the credential cache (an interface value), the HTTP transport, the
    logger, the two handler function values stored in the context and the
    package-level mutex.  Every call to one of them is an [Event]; a Go
    function is a program ([Prog]) over these events.  A program is given
    meaning twice from the same text: sequentially ([run]) against an
    arbitrary deterministic environment, and as one thread of a pool under
    interleaving ([Concurrent.step]). *)

From Stdlib Require Import ZArith String List Lia Bool.
From Stdlib.Strings Require Import Byte.
From Stdlib.Floats Require Import SpecFloat PrimFloat FloatOps.
From stdpp Require Import base option list gmap strings.

Open Scope Z_scope.

(** ** Values *)

(** Go's [error] values as this package sees them.  The sentinel
    [NeedRefreshAccessTokenError] is one package-level value compared by
    identity ([err == NeedRefreshAccessTokenError]); a value built by
    [errors.New] or [fmt.Errorf] is never identical to it, whatever its
    text; neither is an error made by another package (net/http, io,
    encoding/json). *)
Inductive error : Type :=
| NeedRefreshAccessTokenError
| errorString (text : string)
| foreignError (text : string).

#[global] Instance error_eq_dec : EqDecision error.
Proof. solve_decision. Defined.

(** [err == NeedRefreshAccessTokenError] on a possibly nil error. *)
Definition isNeedRefresh (err : option error) : bool :=
  match err with
  | Some NeedRefreshAccessTokenError => true
  | _ => false
  end.

(** The text of [NeedRefreshAccessTokenError.Error()]. *)
Definition NeedRefreshAccessTokenError_text : string := "access token invalid".

Definition WXServerUrl : string := "https://api.weixin.qq.com".

(** The table of errcodes that mean the access token was rejected (a
    package variable the package never assigns again). *)
Definition WXInvalidErrorCode : gmap Z string :=
  {[ 40001 := "access_token 无效"; 40014 := "不合法的access_token" ]}.

(** [response.Body]: what [ioutil.ReadAll] will deliver, the bytes read and
    the read error, if any. *)
Record ReadCloser : Type := {
  body_data : list byte;
  body_err : option string
}.

(** The fields of [*http.Response] the package reads. *)
Record Response : Type := {
  StatusCode : Z;
  Status : string;
  Body : ReadCloser
}.

Definition StatusOK : Z := 200.

Definition ReadAll (b : ReadCloser) : list byte * option error :=
  (body_data b, foreignError <$> body_err b).

(** The anonymous struct [responseFilter] decodes into. *)
Record ErrorResponse : Type := {
  Errcode : Z;
  Errmsg : string
}.

(** The anonymous struct [refreshAccessTokenFromWXServer] decodes into
    ([Errcode float64] there: a binary64 value). *)
Record TokenResult : Type := {
  AccessToken : string;
  ExpiresIn : Z;
  TokenErrcode : spec_float;
  TokenErrmsg : string
}.

(** Modelled from the spec: the declarations of [OffiAccount] and its
    [Config] are not among the sources; these are the fields the functions
    read.  [Logger] is [true] when [ctx.Logger != nil].  The cache and the
    two handlers of [ctx.AccessToken] are an interface value and two
    function values: their calls are events. *)
Record ConfigT : Type := {
  Appid : string;
  Secret : string
}.

(** Modelled from the spec: see [ConfigT]. *)
Record OffiAccount : Type := {
  Config : ConfigT;
  Logger : bool
}.

(** [Client], as declared: the context it works for. *)
Record Client : Type := {
  Ctx : OffiAccount
}.

(** ** 64-bit integers and durations *)

(** Go's [int] and [int64] on a 64-bit platform: two's complement
    wrap-around. *)
Definition wrap64 (z : Z) : Z := (z + 2 ^ 63) mod 2 ^ 64 - 2 ^ 63.

Definition Second : Z := 1000000000.

(** [time.Duration(n) * time.Second], in nanoseconds. *)
Definition seconds (n : Z) : Z := wrap64 (wrap64 n * Second).

(** ** binary64 arithmetic

    [float64] values are [spec_float]s of precision 53, and the operations
    are the Standard Library's IEEE 754 reference definitions. *)
Module Float64.

Definition prec : Z := 53.
Definition emax : Z := 1024.

(** [float64(n)]: the nearest binary64 value, ties to even. *)
Definition of_int (n : Z) : spec_float := binary_normalize prec emax n 0 false.

Definition mul : spec_float -> spec_float -> spec_float := SFmul prec emax.

(** The constant [0.9] converted to [float64]: the exact quotient 9/10
    rounded once to nearest. *)
Definition c0_9 : spec_float := SFdiv prec emax (of_int 9) (of_int 10).

(** [int(f)]: the fraction is discarded (truncation towards zero).  When
    the value does not fit the 64 bits of an [int], or is not finite, the
    result is the smallest [int], as on amd64. *)
Definition to_int (f : spec_float) : Z :=
  match f with
  | S754_zero _ => 0
  | S754_finite s m e =>
      let a := if 0 <=? e then Z.pos m * 2 ^ e else Z.pos m / 2 ^ (- e) in
      let v := if s then - a else a in
      if (- 2 ^ 63 <=? v) && (v <? 2 ^ 63) then v else - 2 ^ 63
  | _ => - 2 ^ 63
  end.

End Float64.

(** [int(0.9 * float64(expiresIn))] *)
Definition shrink (expiresIn : Z) : Z :=
  Float64.to_int (Float64.mul Float64.c0_9 (Float64.of_int expiresIn)).

(** ** Events and programs *)

(** An argument of a [Printf] call. *)
Inductive Arg : Type :=
| ArgS (s : string)
| ArgD (n : Z).

(** The calls that leave the package.  [HttpPost] names its payload, an
    [io.Reader], by its place in the store of readers. *)
Inductive Event : Type -> Type :=
| CacheFetch (key : string) : Event (string * option error)
| CacheSave (key value : string) (d : Z) : Event (option error)
| MutexLock : Event unit
| MutexUnlock : Event unit
| HttpGet (url : string) : Event (Response + string)
| HttpPost (url contentType : string) (payload : nat) : Event (Response + string)
| BodyClose (r : Response) : Event unit
| LoggerPrintf (format : string) (args : list Arg) : Event unit
| CallGetAccessTokenHandler (ctx : OffiAccount) : Event (string * option error)
| CallGetRefreshAccessTokenHandler (ctx : OffiAccount) : Event (string * option error).

Inductive Prog (A : Type) : Type :=
| Ret (a : A)
| Vis {X : Type} (e : Event X) (k : X -> Prog A).

Arguments Ret {A} a.
Arguments Vis {A X} e k.

Fixpoint bind {A B : Type} (p : Prog A) (f : A -> Prog B) : Prog B :=
  match p with
  | Ret a => f a
  | Vis e k => Vis e (fun x => bind (k x) f)
  end.

Definition trigger {X : Type} (e : Event X) : Prog X := Vis e Ret.

#[global] Instance Prog_ret : MRet Prog := @Ret.
#[global] Instance Prog_bind : MBind Prog := fun A B f p => bind p f.

(** A deferred call: it runs when the function returns, after the results
    are set. *)
Definition returning {A : Type} (deferred : Event unit) (body : Prog A) : Prog A :=
  res ← body; _ ← trigger deferred; mret res.

(** ** The package *)

(** [s != ""] *)
Definition nonEmpty (s : string) : bool :=
  match s with
  | EmptyString => false
  | String _ _ => true
  end.

(** [strings.Contains] *)
Fixpoint Contains (s substr : string) : bool :=
  String.prefix substr s ||
  match s with
  | EmptyString => false
  | String _ rest => Contains rest substr
  end.

Definition newline : string := String (Ascii.ascii_of_nat 10) EmptyString.

Section Package.

(** The decoders of encoding/json at the two struct types, and
    [url.QueryEscape]: library functions, taken as they are.  A decoder
    answers [inl] with the text of its error. *)
Variable unmarshalErrorResponse : list byte -> string + ErrorResponse.
Variable unmarshalTokenResult : list byte -> string + TokenResult.
Variable QueryEscape : string -> string.

(** [responseFilter]: status, then body, then the envelope. *)
Definition responseFilter (response : Response) : list byte * option error :=
  if negb (StatusCode response =? StatusOK) then
    ([], Some (errorString ("Status " +:+ Status response)))
  else
    let '(resp, err) := ReadAll (Body response) in
    match err with
    | Some e => (resp, Some e)
    | None =>
        match unmarshalErrorResponse resp with
        | inl msg => (resp, Some (foreignError msg))
        | inr errorResponse =>
            match WXInvalidErrorCode !! Errcode errorResponse with
            | Some _ => (resp, Some NeedRefreshAccessTokenError)
            | None =>
                if negb (Errcode errorResponse =? 0) then
                  (resp, Some (errorString (string_of_list_byte resp)))
                else (resp, None)
            end
        end
    end.

(** [applyAccessToken]: on a handler error the named result [newUrl] is
    still the empty string. *)
Definition applyAccessToken (client : Client) (oldUrl : string)
  : Prog (string * option error) :=
  '(accessToken, err) ← trigger (CallGetAccessTokenHandler (Ctx client));
  match err with
  | Some e => mret (EmptyString, Some e)
  | None =>
      if Contains oldUrl "?" then
        mret (oldUrl +:+ "&access_token=" +:+ accessToken, None)
      else
        mret (oldUrl +:+ "?access_token=" +:+ accessToken, None)
  end.

Definition logPrintf (ctx : OffiAccount) (format : string) (args : list Arg)
  : Prog unit :=
  if Logger ctx then trigger (LoggerPrintf format args) else mret tt.

(** [HTTPGet].  Inside the retry block [_, err := ...] declares a new
    [err]; the assignments and tests of the block are on that inner
    variable, and the bare [return]s of the block give back the results
    of the function, [resp] and the outer [err], as the first filter left
    them (Go lets a compiler refuse a bare [return] under such a shadow;
    this is its meaning where it is accepted).  [uri] is the one variable
    of the function throughout: the second [applyAccessToken] is given the
    URL the first one made.  The deferred [Close] calls run last, the
    later one first. *)
Definition HTTPGet (client : Client) (uri : string) : Prog (list byte * option error) :=
  '(uri, err) ← applyAccessToken client uri;
  match err with
  | Some e => mret ([], Some e)
  | None =>
      _ ← logPrintf (Ctx client) "GET %s" [ArgS uri];
      r ← trigger (HttpGet (WXServerUrl +:+ uri));
      match r with
      | inr msg => mret ([], Some (foreignError msg))
      | inl response =>
          returning (BodyClose response)
            (let '(resp, err) := responseFilter response in
             if isNeedRefresh err then
               '(_, err') ← trigger (CallGetRefreshAccessTokenHandler (Ctx client));
               match err' with
               | Some _ => mret (resp, err)
               | None =>
                   '(uri, err') ← applyAccessToken client uri;
                   match err' with
                   | Some _ => mret (resp, err)
                   | None =>
                       _ ← logPrintf (Ctx client)
                             "Refresh Access Token Second GET %s" [ArgS uri];
                       r' ← trigger (HttpGet (WXServerUrl +:+ uri));
                       match r' with
                       | inr _ => mret (resp, err)
                       | inl response' =>
                           returning (BodyClose response')
                             (mret (responseFilter response'))
                       end
                   end
               end
             else mret (resp, err))
      end
  end.

(** [HTTPPost]: the same text with [http.Post]; both posts are given the
    one [payload]. *)
Definition HTTPPost (client : Client) (uri : string) (payload : nat)
    (contentType : string) : Prog (list byte * option error) :=
  '(uri, err) ← applyAccessToken client uri;
  match err with
  | Some e => mret ([], Some e)
  | None =>
      _ ← logPrintf (Ctx client) "POST %s" [ArgS uri];
      r ← trigger (HttpPost (WXServerUrl +:+ uri) contentType payload);
      match r with
      | inr msg => mret ([], Some (foreignError msg))
      | inl response =>
          returning (BodyClose response)
            (let '(resp, err) := responseFilter response in
             if isNeedRefresh err then
               '(_, err') ← trigger (CallGetRefreshAccessTokenHandler (Ctx client));
               match err' with
               | Some _ => mret (resp, err)
               | None =>
                   '(uri, err') ← applyAccessToken client uri;
                   match err' with
                   | Some _ => mret (resp, err)
                   | None =>
                       _ ← logPrintf (Ctx client)
                             "Refresh Access Token Second POST %s" [ArgS uri];
                       r' ← trigger (HttpPost (WXServerUrl +:+ uri) contentType payload);
                       match r' with
                       | inr _ => mret (resp, err)
                       | inl response' =>
                           returning (BodyClose response')
                             (mret (responseFilter response'))
                       end
                   end
               end
             else mret (resp, err))
      end
  end.

(** [params.Encode()] for the three parameters added: keys in sorted
    order, every key and value escaped. *)
Definition tokenParams (appid secret : string) : string :=
  QueryEscape "appid" +:+ "=" +:+ QueryEscape appid +:+ "&" +:+
  QueryEscape "grant_type" +:+ "=" +:+ QueryEscape "client_credential" +:+ "&" +:+
  QueryEscape "secret" +:+ "=" +:+ QueryEscape secret.

Definition tokenUrl (appid secret : string) : string :=
  WXServerUrl +:+ "/cgi-bin/token?" +:+ tokenParams appid secret.

(** What [refreshAccessTokenFromWXServer] makes of a response, between
    the [defer] and the [return]. *)
Definition tokenOfResponse (url : string) (response : Response)
  : string * Z * option error :=
  if negb (StatusCode response =? StatusOK) then
    (EmptyString, 0, Some (errorString ("GET " +:+ url +:+ " RETURN " +:+ Status response)))
  else
    let '(resp, err) := ReadAll (Body response) in
    match err with
    | Some e => (EmptyString, 0, Some e)
    | None =>
        match unmarshalTokenResult resp with
        | inl _ =>
            (EmptyString, 0,
             Some (errorString ("Unmarshal error " +:+ string_of_list_byte resp)))
        | inr result =>
            if nonEmpty (AccessToken result) then
              (AccessToken result, ExpiresIn result, None)
            else (EmptyString, 0, Some (errorString (string_of_list_byte resp)))
        end
    end.

Definition refreshAccessTokenFromWXServer (appid secret : string)
  : Prog (string * Z * option error) :=
  let url := tokenUrl appid secret in
  r ← trigger (HttpGet url);
  match r with
  | inr msg => mret (EmptyString, 0, Some (foreignError msg))
  | inl response =>
      returning (BodyClose response) (mret (tokenOfResponse url response))
  end.

(** The statements [GetAccessToken] and [NoticeRefreshAccessToken] both
    have after their call of the issuer: the error test, the shrunk
    lifetime, the save whose error is dropped ([_ = ...Save(...)]), the
    log line. *)
Definition saveToken (ctx : OffiAccount) (r : string * Z * option error)
  : Prog (string * option error) :=
  let '(accessToken, expiresIn, err) := r in
  match err with
  | Some e => mret (accessToken, Some e)
  | None =>
      let expiresIn := shrink expiresIn in
      let d := seconds expiresIn in
      _ ← trigger (CacheSave (Appid (Config ctx)) accessToken d);
      _ ← logPrintf ctx ("%s %s %d" +:+ newline)
            [ArgS "refreshAccessTokenFromWXServer"; ArgS accessToken; ArgD expiresIn];
      mret (accessToken, None)
  end.

(** The call of the issuer followed by these statements. *)
Definition refreshAndSave (ctx : OffiAccount) : Prog (string * option error) :=
  r ← refreshAccessTokenFromWXServer (Appid (Config ctx)) (Secret (Config ctx));
  saveToken ctx r.

(** The part of [GetAccessToken] that runs with the lock held. *)
Definition GetAccessToken_locked (ctx : OffiAccount) : Prog (string * option error) :=
  '(accessToken, err) ← trigger (CacheFetch (Appid (Config ctx)));
  if nonEmpty accessToken then mret (accessToken, err)
  else refreshAndSave ctx.

Definition GetAccessToken (ctx : OffiAccount) : Prog (string * option error) :=
  '(accessToken, err) ← trigger (CacheFetch (Appid (Config ctx)));
  if nonEmpty accessToken then mret (accessToken, err)
  else
    _ ← trigger MutexLock;
    returning MutexUnlock (GetAccessToken_locked ctx).

Definition NoticeRefreshAccessToken (ctx : OffiAccount) : Prog (string * option error) :=
  _ ← trigger MutexLock;
  returning MutexUnlock (refreshAndSave ctx).

End Package.

(** ** Sequential meaning *)

(** What a run leaves behind: one entry per event, with the answer it got.
    A post is recorded with the bytes the transport took from the payload. *)
Inductive Effect : Type :=
| EFetch (key : string) (res : string * option error)
| ESave (key value : string) (d : Z) (res : option error)
| ELock
| EUnlock
| EGet (url : string) (res : Response + string)
| EPost (url contentType : string) (payload : nat) (sent : list byte)
    (res : Response + string)
| EClose (r : Response)
| EPrintf (format : string) (args : list Arg)
| ETokenHandler (ctx : OffiAccount) (res : string * option error)
| ERefreshHandler (ctx : OffiAccount) (res : string * option error).

(** The collaborators, as deterministic functions of a state [S] of their
    own: any cache, any transport, any pair of handlers.  The transport of
    a post is shown the unread bytes of the payload and says how many of
    them it reads. *)
Record Oracle (S : Type) : Type := {
  cache_fetch : string -> S -> (string * option error) * S;
  cache_save : string -> string -> Z -> S -> option error * S;
  transport_get : string -> S -> (Response + string) * S;
  transport_post : string -> string -> list byte -> S -> (nat * (Response + string)) * S;
  token_handler : OffiAccount -> S -> (string * option error) * S;
  refresh_handler : OffiAccount -> S -> (string * option error) * S
}.

Arguments cache_fetch {S} _ _ _.
Arguments cache_save {S} _ _ _ _ _.
Arguments transport_get {S} _ _ _.
Arguments transport_post {S} _ _ _ _ _.
Arguments token_handler {S} _ _ _.
Arguments refresh_handler {S} _ _ _.

(** The state of a run: the collaborators' state, the unread bytes of every
    reader (a reader is a cursor over bytes, as the [bytes.Buffer] the
    callers pass), [refreshAccessTokenLock], and the effects so far. *)
Record World (S : Type) : Type := {
  ext : S;
  readers : list (list byte);
  locked : bool;
  trace : list Effect
}.

Arguments ext {S} _.
Arguments readers {S} _.
Arguments locked {S} _.
Arguments trace {S} _.
Arguments Build_World {S} _ _ _ _.

Section Semantics.

Context {S : Type} (O : Oracle S).

Definition emit (w : World S) (s : S) (f : Effect) : World S :=
  Build_World s (readers w) (locked w) (trace w ++ [f]).

(** One event.  [None]: the call does not return ([Lock] on the held
    mutex waits for ever in a sequential run; [Unlock] of a free mutex is
    a fatal error of the runtime). *)
Definition handle {X : Type} (e : Event X) (w : World S) : option (X * World S) :=
  match e in Event X return option (X * World S) with
  | CacheFetch key =>
      let '(res, s) := cache_fetch O key (ext w) in
      Some (res, emit w s (EFetch key res))
  | CacheSave key value d =>
      let '(res, s) := cache_save O key value d (ext w) in
      Some (res, emit w s (ESave key value d res))
  | MutexLock =>
      if locked w then None
      else Some (tt, Build_World (ext w) (readers w) true (trace w ++ [ELock]))
  | MutexUnlock =>
      if locked w
      then Some (tt, Build_World (ext w) (readers w) false (trace w ++ [EUnlock]))
      else None
  | HttpGet url =>
      let '(res, s) := transport_get O url (ext w) in
      Some (res, emit w s (EGet url res))
  | HttpPost url contentType payload =>
      let unread := default [] (readers w !! payload) in
      let '(n, res, s) := transport_post O url contentType unread (ext w) in
      Some (res,
            Build_World s (<[payload := drop n unread]> (readers w)) (locked w)
              (trace w ++ [EPost url contentType payload (take n unread) res]))
  | BodyClose r => Some (tt, emit w (ext w) (EClose r))
  | LoggerPrintf format args => Some (tt, emit w (ext w) (EPrintf format args))
  | CallGetAccessTokenHandler ctx =>
      let '(res, s) := token_handler O ctx (ext w) in
      Some (res, emit w s (ETokenHandler ctx res))
  | CallGetRefreshAccessTokenHandler ctx =>
      let '(res, s) := refresh_handler O ctx (ext w) in
      Some (res, emit w s (ERefreshHandler ctx res))
  end.

Fixpoint run {A : Type} (p : Prog A) (w : World S) : option (A * World S) :=
  match p with
  | Ret a => Some (a, w)
  | Vis e k =>
      match handle e w with
      | Some (x, w') => run (k x) w'
      | None => None
      end
  end.

End Semantics.

Definition isFetch (f : Effect) : bool :=
  match f with
  | EFetch _ _ => true
  | _ => false
  end.

Definition count (P : Effect -> bool) (l : list Effect) : nat :=
  length (filter (fun f => P f = true) l).

(** What can be read off some effects, in the order they happened: the
    URLs requested, the answers of the transport, the payload and bytes of
    each post, the answers of the two handlers, the entries saved. *)
Definition requestUrls (l : list Effect) : list string :=
  omap (fun f => match f with
                 | EGet url _ => Some url
                 | EPost url _ _ _ _ => Some url
                 | _ => None
                 end) l.

Definition responsesOf (l : list Effect) : list (Response + string) :=
  omap (fun f => match f with
                 | EGet _ res => Some res
                 | EPost _ _ _ _ res => Some res
                 | _ => None
                 end) l.

Definition postBodies (l : list Effect) : list (nat * list byte) :=
  omap (fun f => match f with
                 | EPost _ _ payload sent _ => Some (payload, sent)
                 | _ => None
                 end) l.

Definition tokenAnswers (l : list Effect) : list (string * option error) :=
  omap (fun f => match f with
                 | ETokenHandler _ res => Some res
                 | _ => None
                 end) l.

Definition refreshAnswers (l : list Effect) : list (string * option error) :=
  omap (fun f => match f with
                 | ERefreshHandler _ res => Some res
                 | _ => None
                 end) l.

Definition savedEntries (l : list Effect) : list (string * string * Z) :=
  omap (fun f => match f with
                 | ESave key value d _ => Some (key, value, d)
                 | _ => None
                 end) l.

(** A response the filter classifies as the retryable credential failure. *)
Definition retryable (unmarshalErrorResponse : list byte -> string + ErrorResponse)
    (r : Response) : bool :=
  isNeedRefresh (responseFilter unmarshalErrorResponse r).2.

(** The text of an error ([err.Error()]). *)
Definition errorText (e : error) : string :=
  match e with
  | NeedRefreshAccessTokenError => NeedRefreshAccessTokenError_text
  | errorString text => text
  | foreignError text => text
  end.

(** ** The handlers of a context built by the package *)
Section Link.

Variable unmarshalTokenResult : list byte -> string + TokenResult.
Variable QueryEscape : string -> string.

(** Modelled from the spec: the constructor that fills
    [ctx.AccessToken.GetAccessTokenHandler] and
    [ctx.AccessToken.GetRefreshAccessTokenHandler] is not among the
    sources; the spec's request layer obtains its token from the manager's
    [GetToken] and forces a refresh with its [ForceRefresh], which are
    [GetAccessToken] and [NoticeRefreshAccessToken].  [link] replaces the
    two handler calls of a program by these functions. *)
Fixpoint link {A : Type} (p : Prog A) : Prog A :=
  match p with
  | Ret a => Ret a
  | Vis e k =>
      match e in Event X return (X -> Prog A) -> Prog A with
      | CallGetAccessTokenHandler ctx =>
          fun k' => bind (GetAccessToken unmarshalTokenResult QueryEscape ctx) k'
      | CallGetRefreshAccessTokenHandler ctx =>
          fun k' => bind (NoticeRefreshAccessToken unmarshalTokenResult QueryEscape ctx) k'
      | e' => fun k' => Vis e' k'
      end (fun x => link (k x))
  end.

End Link.

(** ** A concrete environment

    Decoders for the flat JSON objects of the examples, a cache in memory
    and a transport and handlers that play a script. *)
Module Sample.

(** The text after the first occurrence of [key] in [s]. *)
Fixpoint after (key s : string) : option string :=
  if String.prefix key s then
    Some (String.substring (String.length key) (String.length s - String.length key) s)
  else
    match s with
    | EmptyString => None
    | String _ rest => after key rest
    end.

Definition digit (c : Ascii.ascii) : option Z :=
  let n := Z.of_nat (Ascii.nat_of_ascii c) in
  if (48 <=? n) && (n <=? 57) then Some (n - 48) else None.

Fixpoint digits (acc : Z) (s : string) : Z :=
  match s with
  | EmptyString => acc
  | String c rest =>
      match digit c with
      | Some d => digits (10 * acc + d) rest
      | None => acc
      end
  end.

(** A decimal integer at the head of [s]. *)
Definition integer (s : string) : Z :=
  match s with
  | String c rest =>
      if Ascii.eqb c (Ascii.ascii_of_nat 45) then - digits 0 rest else digits 0 s
  | EmptyString => 0
  end.

(** The characters of [s] before the next double quote. *)
Fixpoint quoted (s : string) : string :=
  match s with
  | EmptyString => EmptyString
  | String c rest =>
      if Ascii.eqb c (Ascii.ascii_of_nat 34) then EmptyString
      else String c (quoted rest)
  end.

Definition dq : string := String (Ascii.ascii_of_nat 34) EmptyString.

Definition field (name : string) : string := dq +:+ name +:+ dq +:+ ":".

Definition numberField (name s : string) : Z :=
  from_option integer 0 (after (field name) s).

Definition stringField (name s : string) : string :=
  from_option quoted EmptyString (after (field name +:+ dq) s).

Definition isObject (s : string) : bool := String.prefix "{" s.

Definition unmarshalErrorResponse (b : list byte) : string + ErrorResponse :=
  let s := string_of_list_byte b in
  if isObject s then
    inr {| Errcode := numberField "errcode" s; Errmsg := stringField "errmsg" s |}
  else inl "invalid character".

Definition unmarshalTokenResult (b : list byte) : string + TokenResult :=
  let s := string_of_list_byte b in
  if isObject s then
    inr {| AccessToken := stringField "access_token" s;
           ExpiresIn := numberField "expires_in" s;
           TokenErrcode := Float64.of_int (numberField "errcode" s);
           TokenErrmsg := stringField "errmsg" s |}
  else inl "invalid character".

(** The escape of a text made of unreserved characters only. *)
Definition QueryEscape (s : string) : string := s.

Definition json (fields : string) : list byte :=
  list_byte_of_string ("{" +:+ fields +:+ "}").

Definition ok (body : list byte) : Response :=
  {| StatusCode := 200; Status := "200 OK";
     Body := {| body_data := body; body_err := None |} |}.

(** The collaborators' state: the entries of the cache with their
    time-to-live in nanoseconds, the answers the transport still has to
    give, and those the two handlers still have to give. *)
Record State : Type := {
  store : gmap string (string * Z);
  script : list (Response + string);
  tokens : list (string * option error);
  refreshes : list (string * option error)
}.

Definition next {A : Type} (d : A) (l : list A) : A * list A :=
  match l with
  | [] => (d, [])
  | x :: rest => (x, rest)
  end.

(** Modelled from the spec: no implementation of the cache interface is
    among the sources; [fetch] follows the contract of the Credential
    Cache capability: a miss is an empty value and no error, and a value
    saved is the value fetched until its time-to-live is over.  No time
    passes during a run: an entry saved with a positive time-to-live is
    there, one saved with none is not. *)
Definition fetch (key : string) (s : State) : (string * option error) * State :=
  (match store s !! key with
   | Some (v, d) => if 0 <? d then v else EmptyString
   | None => EmptyString
   end, None, s).

(** Modelled from the spec: the [save] of the same capability, which
    stores the value with its time-to-live, over what was there. *)
Definition save (key value : string) (d : Z) (s : State) : option error * State :=
  (None, {| store := <[key := (value, d)]> (store s); script := script s;
            tokens := tokens s; refreshes := refreshes s |}).

Definition get (url : string) (s : State) : (Response + string) * State :=
  let '(r, rest) := next (inr "no route to host") (script s) in
  (r, {| store := store s; script := rest;
         tokens := tokens s; refreshes := refreshes s |}).

(** The transport of a post reads the payload to its end. *)
Definition post (url contentType : string) (unread : list byte) (s : State)
  : (nat * (Response + string)) * State :=
  let '(r, s') := get url s in (length unread, r, s').

Definition tokenHandler (ctx : OffiAccount) (s : State)
  : (string * option error) * State :=
  let '(r, rest) := next (EmptyString, Some (foreignError "no handler")) (tokens s) in
  (r, {| store := store s; script := script s;
         tokens := rest; refreshes := refreshes s |}).

Definition refreshHandler (ctx : OffiAccount) (s : State)
  : (string * option error) * State :=
  let '(r, rest) := next (EmptyString, Some (foreignError "no handler")) (refreshes s) in
  (r, {| store := store s; script := script s;
         tokens := tokens s; refreshes := rest |}).

Definition oracle : Oracle State :=
  {| cache_fetch := fetch; cache_save := save;
     transport_get := get; transport_post := post;
     token_handler := tokenHandler; refresh_handler := refreshHandler |}.

(** A cache that is out of order: [Save] fails and stores nothing. *)
Definition brokenSave (key value : string) (d : Z) (s : State) : option error * State :=
  (Some (foreignError "cache unavailable"), s).

Definition brokenOracle : Oracle State :=
  {| cache_fetch := fetch; cache_save := brokenSave;
     transport_get := get; transport_post := post;
     token_handler := tokenHandler; refresh_handler := refreshHandler |}.

Definition world (s : State) (rs : list (list byte)) : World State :=
  Build_World s rs false [].

Definition ctx : OffiAccount :=
  {| Config := {| Appid := "wx1"; Secret := "s3" |}; Logger := false |}.

Definition client : Client := {| Ctx := ctx |}.

(** The bodies and answers of the examples. *)
Definition tokenBody (accessToken expiresIn : string) : list byte :=
json (field "access_token" +:+ dq +:+ accessToken +:+ dq +:+ "," +:+
      field "expires_in" +:+ expiresIn).

Definition errorBody (errcode errmsg : string) : list byte :=
json (field "errcode" +:+ errcode +:+ "," +:+
      field "errmsg" +:+ dq +:+ errmsg +:+ dq).

Definition dataBody : list byte :=
json (field "errcode" +:+ "0," +:+ field "data" +:+ dq +:+ "ok" +:+ dq).

Definition invalid : Response := ok (errorBody "40001" "invalid").

Definition unavailable : Response :=
{| StatusCode := 503; Status := "503 Service Unavailable";
   Body := {| body_data := errorBody "40001" "invalid"; body_err := None |} |}.

(** A cache that holds a token with most of its lifetime left. *)
Definition cached (accessToken : string) : gmap string (string * Z) :=
{[ "wx1" := (accessToken, 6480 * Second) ]}.

Definition state (st : gmap string (string * Z)) (answers : list (Response + string))
  (ts rs : list (string * option error)) : State :=
{| store := st; script := answers; tokens := ts; refreshes := rs |}.

(** The first token is rejected, the forced refresh and the second lookup
  succeed, the retried request is accepted. *)
Definition retryState : State :=
state ∅ [inl invalid; inl (ok dataBody)]
  [("T1", None); ("T2", None)] [("T2", None)].

(** The first token is rejected and the forced refresh fails. *)
Definition refreshDown : error := foreignError "issuer unreachable".

Definition refreshFailsState : State :=
state ∅ [inl invalid] [("T1", None)] [(EmptyString, Some refreshDown)].

(** The scenario of the spec, with the handlers of the package: the
  issuer gives T1, the platform rejects it, the issuer gives T2, the
  platform accepts. *)
Definition scenarioState : State :=
state ∅ [inl (ok (tokenBody "T1" "7200")); inl invalid;
         inl (ok (tokenBody "T2" "7200")); inl (ok dataBody)] [] [].

Definition payload : list byte := list_byte_of_string "{}".

End Sample.

(** ** Threads

    Goroutines that run programs of the package against one world.  A step
    is one event of one thread, taken as a whole: the cache is safe for
    concurrent use and the mutex is the runtime's.  A thread whose next
    event is [Lock] on the held mutex has no step until it is released. *)
Module Concurrent.

Section Pool.

Context {S : Type} (O : Oracle S) {A : Type}.

Definition stepThread (p : Prog A) (w : World S) : option (Prog A * World S) :=
  match p with
  | Ret _ => None
  | Vis e k =>
      match handle O e w with
      | Some (x, w') => Some (k x, w')
      | None => None
      end
  end.

(** The threads' remaining programs and the world they share. *)
Definition Pool : Type := list (Prog A) * World S.

Inductive step : Pool -> Pool -> Prop :=
| step_thread (ts : list (Prog A)) (w : World S) (i : nat) (p p' : Prog A)
    (w' : World S) :
    ts !! i = Some p ->
    stepThread p w = Some (p', w') ->
    step (ts, w) (<[i := p']> ts, w').

(** What a thread has returned, once it has. *)
Definition result (p : Prog A) : option A :=
  match p with
  | Ret a => Some a
  | Vis _ _ => None
  end.

Definition stuck (pool : Pool) : Prop := forall pool', ~ step pool pool'.

End Pool.

(** The places a thread that runs [GetAccessToken] can be at, each with
    the program that remains from there. *)
Section Places.

Variable unmarshalTokenResult : list byte -> string + TokenResult.
Variable QueryEscape : string -> string.
Variable ctx : OffiAccount.

Inductive Place : Type :=
| Start
| Waiting
| Holding
| Refreshing
| Closing (r : Response)
| Saving (accessToken : string) (expiresIn : Z)
| Logging (accessToken : string) (expiresIn : Z)
| Releasing (res : string * option error)
| Returned (res : string * option error).

Definition remaining (c : Place) : Prog (string * option error) :=
  match c with
  | Start => GetAccessToken unmarshalTokenResult QueryEscape ctx
  | Waiting =>
      _ ← trigger MutexLock;
      returning MutexUnlock (GetAccessToken_locked unmarshalTokenResult QueryEscape ctx)
  | Holding =>
      returning MutexUnlock (GetAccessToken_locked unmarshalTokenResult QueryEscape ctx)
  | Refreshing =>
      returning MutexUnlock (refreshAndSave unmarshalTokenResult QueryEscape ctx)
  | Closing r =>
      returning MutexUnlock
        (x ← returning (BodyClose r)
               (mret (tokenOfResponse unmarshalTokenResult
                        (tokenUrl QueryEscape (Appid (Config ctx)) (Secret (Config ctx)))
                        r));
         saveToken ctx x)
  | Saving accessToken expiresIn =>
      returning MutexUnlock (saveToken ctx (accessToken, expiresIn, None))
  | Logging accessToken expiresIn =>
      returning MutexUnlock
        (_ ← logPrintf ctx ("%s %s %d" +:+ newline)
               [ArgS "refreshAccessTokenFromWXServer"; ArgS accessToken;
                ArgD (shrink expiresIn)];
         mret (accessToken, None))
  | Releasing res => _ ← trigger MutexUnlock; mret res
  | Returned res => Ret res
  end.

(** The places where the thread holds the mutex. *)
Definition holds (c : Place) : bool :=
  match c with
  | Start | Waiting | Returned _ => false
  | _ => true
  end.

(** An upper bound on the events a thread at a place still has. *)
Definition rank (c : Place) : nat :=
  match c with
  | Start => 9
  | Waiting => 8
  | Holding => 7
  | Refreshing => 6
  | Closing _ => 5
  | Saving _ _ => 4
  | Logging _ _ => 3
  | Releasing _ => 2
  | Returned _ => 0
  end.

End Places.

(** The race for the token of one identity over the cache in memory: the
  transport's next answer is [response], from which the issuer's token
  [tok] and lifetime [exp] are read. *)
Section Race.

Variable QueryEscape : string -> string.
Variable ctx : OffiAccount.
Variable response : Response.
Variable rest : list (Response + string).
Variable tok : string.
Variable exp : Z.

(** The value a fetch for the identity finds. *)
Definition live (s : Sample.State) : string :=
(Sample.fetch (Appid (Config ctx)) s).1.1.

Definition holders (pcs : list Place) : nat :=
length (filter (fun c => holds c = true) pcs).

Definition total (pcs : list Place) : nat :=
foldr (fun c n => (rank c + n)%nat) 0%nat pcs.

(** Where a thread can be before the issuer is called, between its answer
and the save, and after the save. *)
Definition okA (c : Place) : Prop :=
c = Start \/ c = Waiting \/ c = Holding \/ c = Refreshing.

Definition okB (c : Place) : Prop :=
c = Start \/ c = Waiting \/ c = Closing response \/ c = Saving tok exp.

Definition okC (c : Place) : Prop :=
c = Start \/ c = Waiting \/ c = Holding \/ c = Logging tok exp \/
c = Releasing (tok, None) \/ c = Returned (tok, None).

(** The invariant of the race: the mutex is held by exactly the threads at
a holding place, at most one; and the cache, the issuer's calls and the
threads are in one of the three periods. *)
Definition Inv (pcs : list Place) (w : World Sample.State) : Prop :=
holders pcs = (if locked w then 1%nat else 0%nat) /\
((Sample.script (ext w) = inl response :: rest /\ live (ext w) = EmptyString /\
Forall okA pcs /\ requestUrls (trace w) = []) \/
 (live (ext w) = EmptyString /\ Forall okB pcs /\
requestUrls (trace w) =
  [tokenUrl QueryEscape (Appid (Config ctx)) (Secret (Config ctx))] /\
locked w = true) \/
 (live (ext w) = tok /\ Forall okC pcs /\
requestUrls (trace w) =
  [tokenUrl QueryEscape (Appid (Config ctx)) (Secret (Config ctx))])).

End Race.

End Concurrent.

(** What follows the answer [r] of the issuer in the statements
    [GetAccessToken] and [NoticeRefreshAccessToken] share, with [rest] the
    effects after the request and [res] the result: the cache is not read
    and nothing more is requested; when the answer carries a token it is
    saved with the shrunk lifetime and returned without error, whatever the
    save answered. *)
Definition Refreshed (unmarshalTokenResult : list byte -> string + TokenResult)
    (QueryEscape : string -> string) (ctx : OffiAccount)
    (res : string * option error) (r : Response + string) (rest : list Effect) : Prop :=
  count isFetch rest = 0%nat /\
  responsesOf rest = [] /\
  (forall response accessToken expiresIn,
     r = inl response ->
     tokenOfResponse unmarshalTokenResult
       (tokenUrl QueryEscape (Appid (Config ctx)) (Secret (Config ctx))) response =
       (accessToken, expiresIn, None) ->
     res = (accessToken, None) /\
     savedEntries rest = [(Appid (Config ctx), accessToken, seconds (shrink expiresIn))]) /\
  (forall key value d e, ESave key value d (Some e) ∈ rest ->
     res = (value, None) /\
     exists response expiresIn,
       r = inl response /\
       tokenOfResponse unmarshalTokenResult
       (tokenUrl QueryEscape (Appid (Config ctx)) (Secret (Config ctx))) response = (value, expiresIn, None)).

(** ** The two request functions as one *)




(** ** Schedules *)

(** A pool run under a schedule: the threads that take the steps, in
    order.  [None] when a thread named has no step. *)
Fixpoint scheduled {S A : Type} (O : Oracle S) (order : list nat)
    (pool : Concurrent.Pool (S := S) (A := A)) : option (Concurrent.Pool (S := S) (A := A)) :=
  match order with
  | [] => Some pool
  | i :: rest =>
      match pool.1 !! i with
      | Some p =>
          match Concurrent.stepThread O p pool.2 with
          | Some (p', w') => scheduled O rest (<[i := p']> pool.1, w')
          | None => None
          end
      | None => None
      end
  end.

(** ** More to read off a trace *)

(** The responses the transport delivered and the responses whose body was
    closed, the lines given to the logger and the URIs in them, the uses of
    the mutex and of the cache, the posts with what each one sent. *)
Definition received (l : list Effect) : list Response :=
  omap (fun f => match f with
                 | EGet _ (inl r) => Some r
                 | EPost _ _ _ _ (inl r) => Some r
                 | _ => None
                 end) l.

Definition closedOf (l : list Effect) : list Response :=
  omap (fun f => match f with
                 | EClose r => Some r
                 | _ => None
                 end) l.

Definition logLines (l : list Effect) : list (string * list Arg) :=
  omap (fun f => match f with
                 | EPrintf format args => Some (format, args)
                 | _ => None
                 end) l.

Definition loggedUris (l : list Effect) : list string :=
  omap (fun f => match f with
                 | EPrintf _ [ArgS uri] => Some uri
                 | _ => None
                 end) l.

Definition mutexEvents (l : list Effect) : list Effect :=
  omap (fun f => match f with
                 | ELock => Some ELock
                 | EUnlock => Some EUnlock
                 | _ => None
                 end) l.

Definition cacheEvents (l : list Effect) : list Effect :=
  omap (fun f => match f with
                 | EFetch key res => Some (EFetch key res)
                 | ESave key value d res => Some (ESave key value d res)
                 | _ => None
                 end) l.

Definition postsOf (l : list Effect) : list (string * string * nat * list byte) :=
  omap (fun f => match f with
                 | EPost url contentType payload sent _ =>
                     Some (url, contentType, payload, sent)
                 | _ => None
                 end) l.

Definition isClose (f : Effect) : bool :=
  match f with
  | EClose _ => true
  | _ => false
  end.

Definition isPrintf (f : Effect) : bool :=
  match f with
  | EPrintf _ _ => true
  | _ => false
  end.

(** The steps of a request, as the handlers and the transport see them. *)
Inductive Step : Type :=
| Lookup
| Request
| Refresh.

Definition stepsOf (l : list Effect) : list Step :=
  omap (fun f => match f with
                 | ETokenHandler _ _ => Some Lookup
                 | EGet _ _ => Some Request
                 | EPost _ _ _ _ _ => Some Request
                 | ERefreshHandler _ _ => Some Refresh
                 | _ => None
                 end) l.

(** The requests and saves made while the mutex is not held, [held]
    telling whether it is at the start. *)
Fixpoint unguarded (held : bool) (l : list Effect) : list Effect :=
  match l with
  | [] => []
  | ELock :: rest => unguarded true rest
  | EUnlock :: rest => unguarded false rest
  | f :: rest =>
      match f with
      | EGet _ _ | EPost _ _ _ _ _ | ESave _ _ _ _ =>
          if held then unguarded held rest else f :: unguarded held rest
      | _ => unguarded held rest
      end
  end.

(** Whether the mutex is held after some effects, [held] telling whether
    it is before them. *)
Fixpoint heldAfter (held : bool) (l : list Effect) : bool :=
  match l with
  | [] => held
  | ELock :: rest => heldAfter true rest
  | EUnlock :: rest => heldAfter false rest
  | _ :: rest => heldAfter held rest
  end.

(** A request or a save. *)
Definition isGuarded (f : Effect) : bool :=
  match f with
  | EGet _ _ | EPost _ _ _ _ _ | ESave _ _ _ _ => true
  | _ => false
  end.

(** What [refreshAccessTokenFromWXServer] returns for an answer of the
    transport: its results on the two ways out of [http.Get]. *)
Definition issuerOutcome (unmarshalTokenResult : list byte -> string + TokenResult)
    (url : string) (r : Response + string) : string * Z * option error :=
  match r with
  | inl response => tokenOfResponse unmarshalTokenResult url response
  | inr msg => (EmptyString, 0, Some (foreignError msg))
  end.

(** The context with [Logger] nil. *)
Definition withoutLogger (ctx : OffiAccount) : OffiAccount :=
  {| Config := Config ctx; Logger := false |}.

(** ** One more environment *)
Module Cases.
Import Sample.

(** A cache that is filled from elsewhere between two fetches: it answers
    the fetches from the list [tokens], in order. *)
Definition scriptedFetch (key : string) (s : State) : (string * option error) * State :=
  let '(r, rest) := next (EmptyString, None) (tokens s) in
  (r, {| store := store s; script := script s; tokens := rest; refreshes := refreshes s |}).

Definition racedOracle : Oracle State :=
  {| cache_fetch := scriptedFetch; cache_save := save;
     transport_get := get; transport_post := post;
     token_handler := tokenHandler; refresh_handler := refreshHandler |}.

End Cases.

(** ** The callers of the manager *)
Module Callers.
Import Concurrent.

(** Where a caller of the manager is: at a place of [GetAccessToken], or
    about to enter [NoticeRefreshAccessToken], whose program after its
    [Lock] is the one of the place [Refreshing]. *)
Inductive Station : Type :=
| Getting (c : Place)
| Noticing.

Section Stations.

Variable unmarshalTokenResult : list byte -> string + TokenResult.
Variable QueryEscape : string -> string.
Variable ctx : OffiAccount.

Definition program (a : Station) : Prog (string * option error) :=
  match a with
  | Getting c => remaining unmarshalTokenResult QueryEscape ctx c
  | Noticing => NoticeRefreshAccessToken unmarshalTokenResult QueryEscape ctx
  end.

End Stations.

(** The caller holds the mutex. *)
Definition inside (a : Station) : bool :=
  match a with
  | Getting c => holds c
  | Noticing => false
  end.

(** An upper bound on the events the caller still has. *)
Definition effort (a : Station) : nat :=
  match a with
  | Getting c => rank c
  | Noticing => 7
  end.

(** The caller may still ask the issuer. *)
Definition unasked (a : Station) : nat :=
  match a with
  | Getting (Start | Waiting | Holding | Refreshing) | Noticing => 1
  | _ => 0
  end.

Definition weight (a : Station) : nat := if inside a then 1%nat else 0%nat.

(** What the caller has returned, once it has. *)
Definition result_of (a : Station) : option (string * option error) :=
  match a with
  | Getting (Returned res) => Some res
  | _ => None
  end.

Definition tally (f : Station -> nat) (l : list Station) : nat :=
  foldr (fun a n => (f a + n)%nat) 0%nat l.

End Callers.

(** ** apis/ai: the wrappers of the AI endpoints *)

(** [bytes.NewBuffer(payload)]: a new reader over the bytes, all of them
    unread; it is the last of the store. *)
Definition NewBuffer {S : Type} (payload : list byte) (w : World S) : nat * World S :=
  (length (readers w),
   Build_World (ext w) (readers w ++ [payload]) (locked w) (trace w)).

Module ai.

Definition apiSemantic : string := "/semantic/semproxy/search".
Definition apiAddVoiceToRecoForText : string := "/cgi-bin/media/voice/addvoicetorecofortext".
Definition apiQueryRecoResultForText : string := "/cgi-bin/media/voice/queryrecoresultfortext".
Definition apiTranslateContent : string := "/cgi-bin/media/voice/translatecontent".
Definition apiOCRIDCard : string := "/cv/ocr/idcard".
Definition apiOCRBankcard : string := "/cv/ocr/bankcard".
Definition apiOCRDrivingLicense : string := "/cv/ocr/drivinglicense".
Definition apiOCRBizLicense : string := "/cv/ocr/bizlicense".
Definition apiOCRCommon : string := "/cv/ocr/comm".
Definition apiQRCode : string := "/cv/img/qrcode".
Definition apiSuperResolution : string := "/cv/img/superresolution".
Definition apiAICrop : string := "/cv/img/aicrop".

Section Wrappers.

Context {S : Type} (O : Oracle S).

(** The decoder [HTTPPost] filters with, and [url.Values] with its
    [Encode]: library code, taken as it is. *)
Variable unmarshalErrorResponse : list byte -> string + ErrorResponse.
Variable Values : Type.
Variable Encode : Values -> string.

(** A call of a wrapper takes the world it starts in to its results and
    the world it ends in.  [client] is the [ctx.Client] of the argument,
    the one field of [ctx] a wrapper reads. *)
Definition Call : Type := World S -> option (list byte * option error * World S).

Definition Semantic (client : Client) (payload : list byte) : Call := fun w =>
  let '(buffer, w) := NewBuffer payload w in
  run O (HTTPPost unmarshalErrorResponse client apiSemantic buffer
           "application/json;charset=utf-8") w.

Definition AddVoiceToRecoForText (client : Client) (payload : list byte)
    (params : Values) : Call := fun w =>
  let '(buffer, w) := NewBuffer payload w in
  run O (HTTPPost unmarshalErrorResponse client
           (apiAddVoiceToRecoForText +:+ "?" +:+ Encode params) buffer
           "application/json;charset=utf-8") w.

Definition QueryRecoResultForText (client : Client) (payload : list byte)
    (params : Values) : Call := fun w =>
  let '(buffer, w) := NewBuffer payload w in
  run O (HTTPPost unmarshalErrorResponse client
           (apiQueryRecoResultForText +:+ "?" +:+ Encode params) buffer
           "application/json;charset=utf-8") w.

Definition TranslateContent (client : Client) (payload : list byte)
    (params : Values) : Call := fun w =>
  let '(buffer, w) := NewBuffer payload w in
  run O (HTTPPost unmarshalErrorResponse client
           (apiTranslateContent +:+ "?" +:+ Encode params) buffer
           "application/json;charset=utf-8") w.

Definition OCRIDCard (client : Client) (payload : list byte) : Call := fun w =>
  let '(buffer, w) := NewBuffer payload w in
  run O (HTTPPost unmarshalErrorResponse client apiOCRIDCard buffer
           "application/json;charset=utf-8") w.

Definition OCRBankcard (client : Client) (payload : list byte) : Call := fun w =>
  let '(buffer, w) := NewBuffer payload w in
  run O (HTTPPost unmarshalErrorResponse client apiOCRBankcard buffer
           "application/json;charset=utf-8") w.

Definition OCRDrivingLicense (client : Client) (payload : list byte) : Call := fun w =>
  let '(buffer, w) := NewBuffer payload w in
  run O (HTTPPost unmarshalErrorResponse client apiOCRDrivingLicense buffer
           "application/json;charset=utf-8") w.

Definition OCRBizLicense (client : Client) (payload : list byte) : Call := fun w =>
  let '(buffer, w) := NewBuffer payload w in
  run O (HTTPPost unmarshalErrorResponse client apiOCRBizLicense buffer
           "application/json;charset=utf-8") w.

Definition OCRCommon (client : Client) (payload : list byte) : Call := fun w =>
  let '(buffer, w) := NewBuffer payload w in
  run O (HTTPPost unmarshalErrorResponse client apiOCRCommon buffer
           "application/json;charset=utf-8") w.

Definition QRCode (client : Client) (payload : list byte) : Call := fun w =>
  let '(buffer, w) := NewBuffer payload w in
  run O (HTTPPost unmarshalErrorResponse client apiQRCode buffer
           "application/json;charset=utf-8") w.

Definition SuperResolution (client : Client) (payload : list byte) : Call := fun w =>
  let '(buffer, w) := NewBuffer payload w in
  run O (HTTPPost unmarshalErrorResponse client apiSuperResolution buffer
           "application/json;charset=utf-8") w.

Definition AICrop (client : Client) (payload : list byte) : Call := fun w =>
  let '(buffer, w) := NewBuffer payload w in
  run O (HTTPPost unmarshalErrorResponse client apiAICrop buffer
           "application/json;charset=utf-8") w.

(** The wrappers by kind, each with its path: those that post to the path
    alone, and those that add the caller's parameters to it. *)
Definition plain : list (string * (Client -> list byte -> Call)) :=
  [(apiSemantic, Semantic); (apiOCRIDCard, OCRIDCard); (apiOCRBankcard, OCRBankcard);
   (apiOCRDrivingLicense, OCRDrivingLicense); (apiOCRBizLicense, OCRBizLicense);
   (apiOCRCommon, OCRCommon); (apiQRCode, QRCode);
   (apiSuperResolution, SuperResolution); (apiAICrop, AICrop)].

Definition parametrised : list (string * (Client -> list byte -> Values -> Call)) :=
  [(apiAddVoiceToRecoForText, AddVoiceToRecoForText);
   (apiQueryRecoResultForText, QueryRecoResultForText);
   (apiTranslateContent, TranslateContent)].

End Wrappers.

End ai.

(** * Properties *)
(** ** binary64: the rounding of [0.9 * float64(n)] *)
Module Float64Facts.
Import Float64.

Lemma digits2_pos_bounds (p : positive) :
  2 ^ (Z.pos (digits2_pos p) - 1) <= Z.pos p < 2 ^ Z.pos (digits2_pos p).
Proof.
  induction p as [p IH|p IH|]; simpl digits2_pos.
  - rewrite Pos2Z.inj_succ.
    replace (Z.succ (Z.pos (digits2_pos p)) - 1) with (Z.succ (Z.pos (digits2_pos p) - 1)) by lia.
    rewrite !Z.pow_succ_r by lia. lia.
  - rewrite Pos2Z.inj_succ.
    replace (Z.succ (Z.pos (digits2_pos p)) - 1) with (Z.succ (Z.pos (digits2_pos p) - 1)) by lia.
    rewrite !Z.pow_succ_r by lia. lia.
  - simpl. lia.
Qed.

Lemma digits2_pos_unique (p : positive) (d : Z) :
  2 ^ (d - 1) <= Z.pos p < 2 ^ d -> Z.pos (digits2_pos p) = d.
Proof.
  intros [Hl Hu]. pose proof (digits2_pos_bounds p) as [Hl' Hu'].
  assert (0 < d) as Hd.
  { destruct (Z.lt_ge_cases 0 d) as [|Hle]; [done|].
    destruct (Z.eq_dec d 0) as [->|]; [simpl in Hu; lia|].
    rewrite (Z.pow_neg_r 2 d) in Hu by lia. lia. }
  destruct (Z.lt_trichotomy (Z.pos (digits2_pos p)) d) as [Hlt|[Heq|Hgt]]; [|done|].
  - assert (2 ^ Z.pos (digits2_pos p) <= 2 ^ (d - 1)) by (apply Z.pow_le_mono_r; lia). lia.
  - assert (2 ^ d <= 2 ^ (Z.pos (digits2_pos p) - 1)) by (apply Z.pow_le_mono_r; lia). lia.
Qed.

Lemma shr_1_m (mrs : shr_record) :
  0 <= shr_m mrs -> shr_m (shr_1 mrs) = shr_m mrs / 2.
Proof.
  destruct mrs as [m r s]; simpl. intros Hm.
  destruct m as [|[p|p|]|p]; simpl; try lia; try done.
  - rewrite Pos2Z.inj_xI. apply Z.div_unique with 1; lia.
  - rewrite Pos2Z.inj_xO. apply Z.div_unique with 0; lia.
Qed.

Lemma iter_shr_1_m (n : positive) (mrs : shr_record) :
  0 <= shr_m mrs -> shr_m (SpecFloat.iter_pos shr_1 n mrs) = shr_m mrs / 2 ^ Z.pos n.
Proof.
  revert mrs. induction n as [n IH|n IH|]; intros mrs Hm; simpl SpecFloat.iter_pos.
  - assert (0 <= shr_m (shr_1 mrs)) as H1 by (rewrite shr_1_m by done; apply Z.div_pos; lia).
    assert (0 <= shr_m (SpecFloat.iter_pos shr_1 n (shr_1 mrs))) as H2
      by (rewrite IH by done; apply Z.div_pos; lia).
    rewrite IH, IH, shr_1_m by done.
    rewrite !Z.div_div by lia. f_equal.
    replace (Z.pos n~1) with (1 + Z.pos n + Z.pos n) by lia.
    rewrite !Z.pow_add_r, Z.pow_1_r by lia. lia.
  - assert (0 <= shr_m (SpecFloat.iter_pos shr_1 n mrs)) as H2
      by (rewrite IH by done; apply Z.div_pos; lia).
    rewrite IH, IH by done.
    rewrite !Z.div_div by lia. f_equal.
    replace (Z.pos n~0) with (Z.pos n + Z.pos n) by lia.
    rewrite !Z.pow_add_r by lia. lia.
  - rewrite shr_1_m by done. done.
Qed.

Lemma iter_xO (n p : positive) :
  Z.pos (Pos.iter xO p n) = Z.pos p * 2 ^ Z.pos n.
Proof.
  revert p. induction n as [|n IH] using Pos.peano_ind; intros p.
  - simpl. lia.
  - rewrite Pos.iter_succ, Pos2Z.inj_xO, IH, Pos2Z.inj_succ, Z.pow_succ_r by lia. lia.
Qed.

Lemma round_nearest_even_bounds (m : Z) (l : location) :
  round_nearest_even m l = m \/ round_nearest_even m l = m + 1.
Proof.
  destruct l as [|[]]; simpl; auto. destruct (Z.even m); auto.
Qed.

Ltac in_range :=
  match goal with
  | |- context [?a <=? ?b] =>
      replace (a <=? b) with true by (symmetry; apply Z.leb_le; unfold emax, prec; lia)
  end.

Lemma fexp_normal (d : Z) : -1074 <= d - 53 -> fexp prec emax d = d - 53.
Proof. unfold fexp, emin, prec, emax. lia. Qed.

Lemma shr_fexp_exact (m : positive) (e : Z) :
  Z.pos (digits2_pos m) = 53 -> -1074 <= e ->
  shr_fexp prec emax (Z.pos m) e loc_Exact = (Build_shr_record (Z.pos m) false false, e).
Proof.
  intros Hd He. unfold shr_fexp. simpl Zdigits2. rewrite Hd, fexp_normal by lia.
  replace (53 + e - 53 - e) with 0 by lia. done.
Qed.

Lemma shr_fexp_shift (m : positive) (e : Z) (l : location) :
  53 < Z.pos (digits2_pos m) -> -1074 <= Z.pos (digits2_pos m) + e - 53 ->
  exists mrs,
    shr_fexp prec emax (Z.pos m) e l = (mrs, e + (Z.pos (digits2_pos m) - 53)) /\
    shr_m mrs = Z.pos m / 2 ^ (Z.pos (digits2_pos m) - 53).
Proof.
  intros Hd He. unfold shr_fexp. simpl Zdigits2. rewrite fexp_normal by lia.
  replace (Z.pos (digits2_pos m) + e - 53 - e) with (Z.pos (digits2_pos m) - 53) by lia.
  destruct (Z.pos (digits2_pos m) - 53) as [|s|s] eqn:Hs; [lia| |lia].
  simpl shr. eexists; split; [done|].
  rewrite iter_shr_1_m; destruct l as [|[]]; simpl; (done || lia).
Qed.

Lemma binary_round_aux_exact (sx : bool) (m : positive) (e : Z) :
  Z.pos (digits2_pos m) = 53 -> -1074 <= e <= 971 ->
  binary_round_aux prec emax sx (Z.pos m) e loc_Exact = S754_finite sx m e.
Proof.
  intros Hd He. unfold binary_round_aux.
  rewrite shr_fexp_exact by lia. simpl shr_m. simpl loc_of_shr_record.
  simpl round_nearest_even. rewrite shr_fexp_exact by lia. simpl shr_m.
  unfold emax, prec. destruct (Z.leb_spec e (1024 - 53)); [done|lia].
Qed.

(** Rounding a mantissa of more than 53 digits: the quotient by the
    power of two that leaves 53 digits, or that quotient plus one (then
    halved, when the carry gives a 54th digit). *)
Lemma binary_round_aux_bounds (sx : bool) (m : positive) (e D : Z) :
  Z.pos (digits2_pos m) = D ->
  53 < D -> -1074 <= D + e - 53 -> D + e - 53 < 971 ->
  exists m' e',
    binary_round_aux prec emax sx (Z.pos m) e loc_Exact = S754_finite sx m' e' /\
    ((e' = e + (D - 53) /\
      (Z.pos m' = Z.pos m / 2 ^ (D - 53) \/ Z.pos m' = Z.pos m / 2 ^ (D - 53) + 1)) \/
     (e' = e + (D - 53) + 1 /\ 2 * Z.pos m' = Z.pos m / 2 ^ (D - 53) + 1)).
Proof.
  intros HDm HD Hlo Hhi. unfold binary_round_aux.
  pose proof (digits2_pos_bounds m) as [Hl Hu].
  destruct (shr_fexp_shift m e loc_Exact) as (mrs & -> & Hq); [lia..|].
  rewrite HDm in *.
  set (q := Z.pos m / 2 ^ (D - 53)) in *.
  assert (2 ^ 52 <= q < 2 ^ 53) as Hqb.
  { unfold q. split.
    - apply Z.div_le_lower_bound; [lia|].
      rewrite Z.mul_comm, <- Z.pow_add_r by lia.
      replace (52 + (D - 53)) with (D - 1) by lia. done.
    - apply Z.div_lt_upper_bound; [lia|].
      rewrite <- Z.pow_add_r by lia.
      replace (D - 53 + 53) with D by lia. done. }
  destruct (round_nearest_even_bounds (shr_m mrs) (loc_of_shr_record mrs)) as [Hr|Hr];
    rewrite Hr, Hq.
  - destruct q as [|pq|pq] eqn:Eq; [lia| |lia].
    rewrite shr_fexp_exact; [|apply digits2_pos_unique; lia|lia].
    simpl shr_m. in_range.
    eexists _, _; split; [done|]. left. auto.
  - destruct (Z.eq_dec (q + 1) (2 ^ 53)) as [Hc|Hc].
    + rewrite Hc. change (2 ^ 53) with (Z.pos 9007199254740992).
      assert (Z.pos (digits2_pos 9007199254740992) = 54) as Hd54 by done.
      destruct (shr_fexp_shift 9007199254740992 (e + (D - 53)) loc_Exact)
        as (mrs2 & -> & Hm2); [lia..|].
      rewrite Hd54 in *. change (9007199254740992 / 2 ^ (54 - 53)) with 4503599627370496 in Hm2.
      rewrite Hm2. in_range.
      eexists _, _; split; [done|]. right. split; [lia|]. subst q. lia.
    + destruct (q + 1) as [|pq|pq] eqn:Eq; [lia| |lia].
      rewrite shr_fexp_exact; [|apply digits2_pos_unique; lia|lia].
      simpl shr_m. in_range.
      eexists _, _; split; [done|]. left. auto.
Qed.

Lemma c0_9_value : c0_9 = S754_finite false 8106479329266893 (-53).
Proof. vm_compute. done. Qed.

(** The reference operations against the processor's binary64: the
    constant is the literal nearest to 0.9, and the product with 7200 is
    the hardware product. *)
Example c0_9_is_the_literal : Prim2SF 0x1.ccccccccccccdp-1%float = c0_9.
Proof. vm_compute. reflexivity. Qed.

Example product_7200_is_the_hardware_one :
  Prim2SF (0x1.ccccccccccccdp-1 * 7200)%float = mul c0_9 (of_int 7200).
Proof. vm_compute. reflexivity. Qed.

(** [float64(n)] is exact for a positive [n] of fewer than 53 digits:
    the mantissa is [n] shifted to 53 digits. *)
Lemma of_int_pos (p : positive) (d : Z) :
  Z.pos (digits2_pos p) = d -> d < 53 ->
  exists mz,
    of_int (Z.pos p) = S754_finite false mz (d - 53) /\
    Z.pos mz = Z.pos p * 2 ^ (53 - d) /\
    Z.pos (digits2_pos mz) = 53.
Proof.
  intros Hd Hlt. pose proof (digits2_pos_bounds p) as [Hl Hu]. rewrite Hd in *.
  assert (0 < d) as Hpos by (rewrite <- Hd; lia).
  unfold of_int, binary_normalize, binary_round.
  rewrite Hd, fexp_normal by lia. unfold shl_align.
  replace (d + 0 - 53 - 0) with (- (53 - d)) by lia.
  destruct (53 - d) as [|k|k] eqn:Hk; [lia| |lia]. simpl Z.opp. cbv iota beta.
  assert (Z.pos (Pos.iter xO p k) = Z.pos p * 2 ^ Z.pos k) as Hmz by apply iter_xO.
  assert (Z.pos (digits2_pos (Pos.iter xO p k)) = 53) as Hd53.
  { apply digits2_pos_unique. rewrite Hmz. change (53 - 1) with 52.
    assert (2 ^ 52 = 2 ^ (d - 1) * 2 ^ Z.pos k) as ->
      by (rewrite <- Z.pow_add_r by lia; f_equal; lia).
    assert (2 ^ 53 = 2 ^ d * 2 ^ Z.pos k) as ->
      by (rewrite <- Z.pow_add_r by lia; f_equal; lia).
    assert (0 < 2 ^ Z.pos k) by (apply Z.pow_pos_nonneg; lia).
    split; [apply Z.mul_le_mono_nonneg_r; lia|apply Z.mul_lt_mono_pos_r; lia]. }
  exists (Pos.iter xO p k). split; [|done].
  replace (d + 0 - 53) with (d - 53) by lia.
  apply binary_round_aux_exact; [done|lia].
Qed.

Lemma div_between (a b k : Z) : 0 < b -> k * b <= a < (k + 1) * b -> a / b = k.
Proof. intros Hb [Hl Hu]. symmetry. apply Z.div_unique with (a - k * b); lia. Qed.

(** The arithmetic of the rounding: with [c] the mantissa of 0.9, the
    53-digit quotient of [c * n * a] and its successor both lie in the
    interval of [9 * n / 10] once scaled back. *)
Lemma scaled_quotient (n a u T q' : Z) :
  0 < n < 2 ^ 34 -> 2 ^ 19 <= a -> 0 < u <= 2 ^ 53 -> 0 < T ->
  u * T = 2 ^ 53 * a ->
  q' = 8106479329266893 * n * a / u \/ q' = 8106479329266893 * n * a / u + 1 ->
  (9 * n / 10) * T <= q' < (9 * n / 10 + 1) * T.
Proof.
  intros Hn Ha Hu HT HuT Hq'.
  set (k := 9 * n / 10).
  assert (10 * k <= 9 * n < 10 * k + 10) as Hk
    by (unfold k; clear; pose proof (Z.div_mod (9 * n) 10);
        pose proof (Z.mod_pos_bound (9 * n) 10); lia).
  set (P := 8106479329266893 * n * a) in *.
  assert (k * T <= P / u) as Hlow.
  { apply Z.div_le_lower_bound; [lia|].
    replace (u * (k * T)) with (k * (u * T)) by lia. rewrite HuT. unfold P.
    replace (k * (2 ^ 53 * a)) with (k * 2 ^ 53 * a) by lia.
    apply Z.mul_le_mono_nonneg_r; lia. }
  assert (P / u < (k + 1) * T - 1) as Hup.
  { apply Z.div_lt_upper_bound; [lia|].
    replace (u * ((k + 1) * T - 1)) with ((k + 1) * (u * T) - u) by lia. rewrite HuT.
    assert (u <= 2 ^ 34 * a) by lia.
    assert ((8106479329266893 * n + 2 ^ 34) * a < (k + 1) * 2 ^ 53 * a)
      by (apply Z.mul_lt_mono_pos_r; lia).
    unfold P. lia. }
  lia.
Qed.

Lemma wrap64_small (z : Z) : - 2 ^ 63 <= z < 2 ^ 63 -> wrap64 z = z.
Proof.
  intros Hz. unfold wrap64. rewrite Z.mod_small by lia. lia.
Qed.

Lemma digits_le (p : positive) (b : Z) :
  0 <= b -> Z.pos p < 2 ^ b -> Z.pos (digits2_pos p) <= b.
Proof.
  intros Hb Hp. pose proof (digits2_pos_bounds p) as [Hl _].
  destruct (Z.le_gt_cases (Z.pos (digits2_pos p)) b) as [|Hgt]; [done|].
  assert (2 ^ b <= 2 ^ (Z.pos (digits2_pos p) - 1)) by (apply Z.pow_le_mono_r; lia). lia.
Qed.

Lemma digits_ge (p : positive) (b : Z) :
  2 ^ b <= Z.pos p -> b < Z.pos (digits2_pos p).
Proof.
  intros Hp. pose proof (digits2_pos_bounds p) as [_ Hu].
  destruct (Z.lt_ge_cases b (Z.pos (digits2_pos p))) as [|Hge]; [done|].
  assert (2 ^ Z.pos (digits2_pos p) <= 2 ^ b) by (apply Z.pow_le_mono_r; lia). lia.
Qed.

Lemma fits_int64 (z : Z) :
  - 2 ^ 63 <= z < 2 ^ 63 ->
  (if (- 2 ^ 63 <=? z) && (z <? 2 ^ 63) then z else - 2 ^ 63) = z.
Proof.
  intros Hz.
  destruct (Z.leb_spec (- 2 ^ 63) z); [|lia].
  destruct (Z.ltb_spec z (2 ^ 63)); [done|lia].
Qed.

(** [int(0.9 * float64(n))] is the integer part of nine tenths of [n]. *)
Theorem shrink_spec (n : Z) : 0 <= n < 2 ^ 34 -> shrink n = 9 * n / 10.
Proof.
  intros [Hn0 Hn]. destruct n as [|p|p]; [done| |lia].
  assert (- 2 ^ 63 <= 9 * Z.pos p / 10 < 2 ^ 63) as Hk.
  { pose proof (Z.div_mod (9 * Z.pos p) 10).
    pose proof (Z.mod_pos_bound (9 * Z.pos p) 10). lia. }
  unfold shrink. rewrite c0_9_value.
  set (d := Z.pos (digits2_pos p)).
  assert (0 < d <= 34) as Hd by (split; [unfold d; lia|apply digits_le; lia]).
  destruct (of_int_pos p d) as (mz & -> & Hmz & Hdz); [done|lia|].
  set (a := 2 ^ (53 - d)) in *.
  assert (2 ^ 19 <= a) as Ha by (apply Z.pow_le_mono_r; lia).
  pose proof (digits2_pos_bounds mz) as Hb. rewrite Hdz in Hb. change (53 - 1) with 52 in Hb.
  unfold mul, SFmul. simpl xorb.
  set (P := (8106479329266893 * mz)%positive).
  assert (Z.pos P = 8106479329266893 * Z.pos p * a) as HP by (unfold P; lia).
  set (D := Z.pos (digits2_pos P)).
  assert (104 < D <= 106) as HD.
  { split; [apply digits_ge|apply digits_le]; lia. }
  destruct (binary_round_aux_bounds false P (-53 + (d - 53)) D) as (m' & e' & -> & Hm');
    [done|lia..|].
  set (T := 2 ^ (159 - d - D)).
  set (u := 2 ^ (D - 53)) in *.
  assert (0 < T) as HT by (apply Z.pow_pos_nonneg; lia).
  assert (0 < u <= 2 ^ 53) as Hu
    by (split; [apply Z.pow_pos_nonneg; lia|apply Z.pow_le_mono_r; lia]).
  assert (u * T = 2 ^ 53 * a) as HuT.
  { unfold u, T, a. rewrite <- !Z.pow_add_r by lia. f_equal. lia. }
  pose proof (scaled_quotient (Z.pos p) a u T) as Hsq.
  assert (T <= 2 ^ 54) as HT54 by (apply Z.pow_le_mono_r; lia).
  unfold to_int.
  destruct Hm' as [[-> Hq]|[-> Hq]].
  - specialize (Hsq (Z.pos m')). rewrite <- HP in Hsq.
    specialize (Hsq ltac:(lia) Ha Hu HT HuT Hq).
    replace (0 <=? -53 + (d - 53) + (D - 53)) with false by (symmetry; apply Z.leb_gt; lia).
    replace (- (-53 + (d - 53) + (D - 53))) with (159 - d - D) by lia. fold T.
    rewrite (div_between (Z.pos m') T (9 * Z.pos p / 10)) by lia.
    apply fits_int64. exact Hk.
  - specialize (Hsq (2 * Z.pos m')). rewrite <- HP in Hsq.
    specialize (Hsq ltac:(lia) Ha Hu HT HuT ltac:(right; lia)).
    replace (0 <=? -53 + (d - 53) + (D - 53) + 1) with false
      by (symmetry; apply Z.leb_gt; lia).
    replace (- (-53 + (d - 53) + (D - 53) + 1)) with (158 - d - D) by lia.
    assert (T = 2 * 2 ^ (158 - d - D)) as HT2.
    { unfold T. replace (159 - d - D) with (Z.succ (158 - d - D)) by lia.
      rewrite Z.pow_succ_r by lia. done. }
    assert (0 < 2 ^ (158 - d - D)) by (apply Z.pow_pos_nonneg; lia).
    rewrite (div_between (Z.pos m') (2 ^ (158 - d - D)) (9 * Z.pos p / 10)) by lia.
    apply fits_int64. exact Hk.
Qed.
End Float64Facts.


(** ** The response filter *)

Lemma WXInvalidErrorCode_known (c : Z) :
  is_Some (WXInvalidErrorCode !! c) <-> c = 40001 \/ c = 40014.
Proof.
  unfold WXInvalidErrorCode.
  rewrite lookup_insert_is_Some, lookup_singleton_is_Some. intuition lia.
Qed.

(** C4.  [responseFilter] classifies a completed response: with a status
    other than 200 the result is the error "Status ..." whatever the body
    and whatever the decoder would make of it (the body is neither read nor
    parsed); with status 200, a body read without error and decoded to an
    envelope, errcode 0 gives the raw body and no error, an errcode of the
    table (40001, 40014, and these only) gives the sentinel
    [NeedRefreshAccessTokenError], and any other errcode gives an error
    whose text is the raw body. *)
Theorem responseFilter_classifies
    (unmarshal unmarshal' : list byte -> string + ErrorResponse)
    (response : Response) (body' : ReadCloser) (envelope : ErrorResponse) :
  let raw := body_data (Body response) in
  (StatusCode response <> StatusOK ->
   responseFilter unmarshal response =
     ([], Some (errorString ("Status " +:+ Status response))) /\
   responseFilter unmarshal'
     {| StatusCode := StatusCode response; Status := Status response; Body := body' |} =
     responseFilter unmarshal response) /\
  (StatusCode response = StatusOK -> body_err (Body response) = None ->
   unmarshal raw = inr envelope ->
   (Errcode envelope = 0 -> responseFilter unmarshal response = (raw, None)) /\
   (Errcode envelope = 40001 \/ Errcode envelope = 40014 ->
    responseFilter unmarshal response = (raw, Some NeedRefreshAccessTokenError)) /\
   (Errcode envelope <> 0 -> Errcode envelope <> 40001 -> Errcode envelope <> 40014 ->
    exists e, responseFilter unmarshal response = (raw, Some e) /\
              e <> NeedRefreshAccessTokenError /\
              errorText e = string_of_list_byte raw)).
Proof.
  intros raw. split.
  - intros Hs. unfold responseFilter. simpl.
    destruct (Z.eqb_spec (StatusCode response) StatusOK); [done|]. done.
  - intros Hs Hb Hu. unfold responseFilter, ReadAll. rewrite Hs, Hb. simpl.
    fold raw. rewrite Hu.
    pose proof (WXInvalidErrorCode_known (Errcode envelope)) as Hk.
    destruct (WXInvalidErrorCode !! Errcode envelope) as [text|] eqn:Hl.
    + assert (Errcode envelope = 40001 \/ Errcode envelope = 40014) as Hc
        by (apply Hk; eauto).
      split; [intros; lia|]. split; [done|]. intros; lia.
    + assert (~ (Errcode envelope = 40001 \/ Errcode envelope = 40014)) as Hc
        by (intros Hc; apply Hk in Hc as [? ?]; done).
      split; [|split]; [|done|].
      * intros ->. done.
      * intros Hn _ _. destruct (Z.eqb_spec (Errcode envelope) 0); [done|]. simpl.
        eexists. split; [done|]. done.
Qed.

Lemma responseFilter_classifies_witness :
  responseFilter Sample.unmarshalErrorResponse Sample.unavailable =
    ([], Some (errorString "Status 503 Service Unavailable")) /\
  responseFilter Sample.unmarshalErrorResponse (Sample.ok Sample.dataBody) =
    (Sample.dataBody, None) /\
  responseFilter Sample.unmarshalErrorResponse Sample.invalid =
    (Sample.errorBody "40001" "invalid", Some NeedRefreshAccessTokenError) /\
  exists e,
    responseFilter Sample.unmarshalErrorResponse
      (Sample.ok (Sample.errorBody "99999" "x")) =
      (Sample.errorBody "99999" "x", Some e) /\
    e <> NeedRefreshAccessTokenError /\
    errorText e = string_of_list_byte (Sample.errorBody "99999" "x").
Proof.
  split; [|split; [|split]].
  - apply (responseFilter_classifies Sample.unmarshalErrorResponse
             Sample.unmarshalErrorResponse Sample.unavailable
             (Body Sample.unavailable) {| Errcode := 0; Errmsg := EmptyString |}).
    vm_compute. discriminate.
  - apply (responseFilter_classifies Sample.unmarshalErrorResponse
             Sample.unmarshalErrorResponse (Sample.ok Sample.dataBody)
             (Body Sample.unavailable) {| Errcode := 0; Errmsg := EmptyString |});
      vm_compute; reflexivity.
  - apply (responseFilter_classifies Sample.unmarshalErrorResponse
             Sample.unmarshalErrorResponse Sample.invalid
             (Body Sample.unavailable) {| Errcode := 40001; Errmsg := "invalid" |});
      try (vm_compute; reflexivity). left. reflexivity.
  - apply (responseFilter_classifies Sample.unmarshalErrorResponse
             Sample.unmarshalErrorResponse (Sample.ok (Sample.errorBody "99999" "x"))
             (Body Sample.unavailable) {| Errcode := 99999; Errmsg := "x" |});
      try (vm_compute; reflexivity); vm_compute; discriminate.
Defined.

(** ** Runs *)

Lemma run_bind {S : Type} (O : Oracle S) {A B : Type} (p : Prog A) (f : A -> Prog B)
    (w : World S) :
  run O (bind p f) w =
  match run O p w with
  | Some (a, w') => run O (f a) w'
  | None => None
  end.
Proof.
  revert w. induction p as [a|X e k IH]; intros w; simpl; [done|].
  destruct (handle O e w) as [[x w']|]; [apply IH|done].
Qed.

(** Symbolic execution of a run: unfold one event, split on the answer. *)
Ltac exec :=
  repeat (simpl; unfold emit, logPrintf; simpl; case_match; simplify_eq/=).

(** The trace of the final world is the initial one and what was added. *)
Ltac traced := simpl; rewrite <- ?app_assoc; simpl; reflexivity.

(** Membership in an explicit list of effects, case by case. *)
Ltac members H :=
  repeat (apply elem_of_cons in H as [H|H]; simplify_eq/=; try done);
  try by apply elem_of_nil in H.

(** ** The access token manager *)

(** C7.  When the first fetch of [GetAccessToken] finds a non-empty value,
    that value (with whatever error the cache gave beside it) is the
    result, and the fetch is the only effect of the call: the mutex is not
    touched, so the call returns even while another holds it, and nothing
    is requested from the issuer. *)
Theorem GetAccessToken_cache_hit {S : Type} (O : Oracle S)
    (unmarshalTokenResult : list byte -> string + TokenResult)
    (QueryEscape : string -> string) (ctx : OffiAccount) (w : World S)
    (accessToken : string) (err : option error) (s : S) :
  cache_fetch O (Appid (Config ctx)) (ext w) = (accessToken, err, s) ->
  accessToken <> EmptyString ->
  exists w',
    run O (GetAccessToken unmarshalTokenResult QueryEscape ctx) w =
      Some (accessToken, err, w') /\
    trace w' = trace w ++ [EFetch (Appid (Config ctx)) (accessToken, err)] /\
    locked w' = locked w.
Proof.
  intros Hf Hne. unfold GetAccessToken. simpl. rewrite Hf. simpl.
  destruct accessToken; [done|]. simpl. eexists; split; [done|]. done.
Qed.

Lemma GetAccessToken_cache_hit_witness :
  let w := Build_World (Sample.state (Sample.cached "T1") [] [] []) [] true [] in
  exists w',
    run Sample.oracle
      (GetAccessToken Sample.unmarshalTokenResult Sample.QueryEscape Sample.ctx) w =
      Some ("T1", None, w') /\
    trace w' = trace w ++ [EFetch "wx1" ("T1", None)] /\
    locked w' = locked w.
Proof.
  apply (GetAccessToken_cache_hit Sample.oracle Sample.unmarshalTokenResult
           Sample.QueryEscape Sample.ctx
           (Build_World (Sample.state (Sample.cached "T1") [] [] []) [] true [])
           "T1" None (Sample.state (Sample.cached "T1") [] [] [])).
  - vm_compute. reflexivity.
  - discriminate.
Defined.

Section Manager.

Context {S : Type} (O : Oracle S).
Variable unmarshalTokenResult : list byte -> string + TokenResult.
Variable QueryEscape : string -> string.
Variable ctx : OffiAccount.

Abbreviation appid := (Appid (Config ctx)).
Abbreviation url := (tokenUrl QueryEscape (Appid (Config ctx)) (Secret (Config ctx))).

(** The statements both functions share, run from any world: the request
    to the issuer comes first and the rest is as [Refreshed] says. *)
Lemma refreshAndSave_run (w : World S) :
  exists res w' r rest,
    run O (refreshAndSave unmarshalTokenResult QueryEscape ctx) w = Some (res, w') /\
    trace w' = trace w ++ EGet url r :: rest /\
    locked w' = locked w /\
    Refreshed unmarshalTokenResult QueryEscape ctx res r rest.
Proof.
  unfold refreshAndSave, refreshAccessTokenFromWXServer, saveToken, returning, Refreshed.
  exec.
  all: eexists _, _, _, _; split; [done|]; split; [traced|].
  all: split; [done|]; split; [done|]; split; [done|].
  all: split;
    [intros ? ? ? Hr Hd; simplify_eq/=; try done;
     match goal with
     | H : tokenOfResponse _ _ _ = _, H' : tokenOfResponse _ _ _ = _ |- _ =>
         rewrite H in H'
     end;
     by simplify_eq/=|].
  all: intros ? ? ? ? Hin; members Hin; eauto.
Qed.


Lemma NoticeRefreshAccessToken_run (w : World S) :
  locked w = false ->
  exists res w' r rest,
    run O (NoticeRefreshAccessToken unmarshalTokenResult QueryEscape ctx) w =
      Some (res, w') /\
    trace w' = trace w ++ ELock :: EGet url r :: rest ++ [EUnlock] /\
    locked w' = false /\
    Refreshed unmarshalTokenResult QueryEscape ctx res r rest.
Proof.
  intros Hl. unfold NoticeRefreshAccessToken, returning, mbind, Prog_bind, trigger.
  cbn [bind run handle]. rewrite Hl.
  set (w1 := Build_World (ext w) (readers w) true (trace w ++ [ELock])).
  destruct (refreshAndSave_run w1) as (res & w2 & r & rest & Hrun & Htr & Hlk & Href).
  rewrite run_bind, Hrun. cbn [bind run handle mret Prog_ret]. rewrite Hlk.
  eexists _, _, _, _. split; [done|]. simpl.
  split; [|done]. rewrite Htr. simpl. by rewrite <- !app_assoc.
Qed.

Lemma GetAccessToken_run (w : World S) :
  locked w = false ->
  exists res w' t,
    run O (GetAccessToken unmarshalTokenResult QueryEscape ctx) w = Some (res, w') /\
    trace w' = trace w ++ t /\
    locked w' = false /\
    ((exists err, t = [EFetch appid (res.1, err)] /\ res.1 <> EmptyString) \/
     (exists err err', t = [EFetch appid (EmptyString, err); ELock;
                            EFetch appid (res.1, err'); EUnlock] /\
                       res.1 <> EmptyString) \/
     (exists err err' r rest,
        t = EFetch appid (EmptyString, err) :: ELock ::
            EFetch appid (EmptyString, err') :: EGet url r :: rest ++ [EUnlock] /\
        Refreshed unmarshalTokenResult QueryEscape ctx res r rest)).
Proof.
  intros Hl.
  unfold GetAccessToken, GetAccessToken_locked, returning, mbind, Prog_bind, trigger.
  cbn [bind run handle].
  destruct (cache_fetch O appid (ext w)) as [[tok1 err1] s1] eqn:Hf1.
  destruct tok1 as [|c1 tok1]; cbn [nonEmpty bind run handle mret Prog_ret].
  2:{ eexists _, _, _. split; [done|]. split; [done|]. split; [done|]. left.
      eexists. split; done. }
  unfold emit. cbn [locked ext]. rewrite Hl. cbn [bind run handle ext].
  rewrite Hf2 || destruct (cache_fetch O appid s1) as [[tok2 err2] s2] eqn:Hf2.
  destruct tok2 as [|c2 tok2]; cbn [nonEmpty bind run handle mret Prog_ret locked].
  2:{ eexists _, _, _. split; [done|]. split; [traced|]. split; [done|].
      right. left. eexists _, _. split; done. }
  match goal with
  | |- context [run O _ ?w0] => set (w1 := w0)
  end.
  destruct (refreshAndSave_run w1) as (res & w2 & r & rest & Hrun & Htr & Hlk & Href).
  rewrite run_bind, Hrun. cbn [bind run handle mret Prog_ret]. rewrite Hlk. simpl.
  eexists _, _, _. split; [done|]. simpl. split.
  { rewrite Htr. simpl. rewrite <- !app_assoc. simpl. reflexivity. }
  split; [done|]. right. right. eexists _, _, _, _. split; [done|]. done.
Qed.


End Manager.

(** C8.  [NoticeRefreshAccessToken] takes the mutex and goes to the issuer
    at once: the request to the token URL is the first effect after the
    lock, whatever the cache holds, and the cache is never read during the
    call.  When the issuer's answer carries a token, that token is saved
    under the identity with the shrunk lifetime (the one save of the call)
    and returned without error.  The mutex is free again at the end. *)
Theorem NoticeRefreshAccessToken_always_refreshes {S : Type} (O : Oracle S)
    (unmarshalTokenResult : list byte -> string + TokenResult)
    (QueryEscape : string -> string) (ctx : OffiAccount) (w : World S) :
  locked w = false ->
  exists res w' r rest,
    run O (NoticeRefreshAccessToken unmarshalTokenResult QueryEscape ctx) w =
      Some (res, w') /\
    trace w' =
      trace w ++
      ELock :: EGet (tokenUrl QueryEscape (Appid (Config ctx)) (Secret (Config ctx))) r
            :: rest /\
    count isFetch rest = 0%nat /\
    locked w' = false /\
    (forall response accessToken expiresIn,
       r = inl response ->
       tokenOfResponse unmarshalTokenResult
         (tokenUrl QueryEscape (Appid (Config ctx)) (Secret (Config ctx))) response =
         (accessToken, expiresIn, None) ->
       res = (accessToken, None) /\
       savedEntries rest =
         [(Appid (Config ctx), accessToken, seconds (shrink expiresIn))]).
Proof.
  intros Hl.
  destruct (NoticeRefreshAccessToken_run O unmarshalTokenResult QueryEscape ctx w Hl)
    as (res & w' & r & rest & Hrun & Htr & Hlk & Hf & _ & Hsave & _).
  exists res, w', r, (rest ++ [EUnlock]). split; [done|]. split; [done|].
  split; [|split; [done|]].
  - unfold count in *. rewrite filter_app, length_app, Hf. done.
  - intros response accessToken expiresIn Hr Hd.
    destruct (Hsave _ _ _ Hr Hd) as [-> Hs]. split; [done|].
    unfold savedEntries in *. rewrite omap_app, Hs. done.
Qed.

Lemma NoticeRefreshAccessToken_always_refreshes_witness :
  let w := Sample.world
             (Sample.state (Sample.cached "T1")
                [inl (Sample.ok (Sample.tokenBody "T2" "7200"))] [] []) [] in
  locked w = false /\
  exists res w' r rest,
    run Sample.oracle
      (NoticeRefreshAccessToken Sample.unmarshalTokenResult Sample.QueryEscape Sample.ctx)
      w = Some (res, w') /\
    trace w' =
      trace w ++
      ELock :: EGet (tokenUrl Sample.QueryEscape "wx1" "s3") r :: rest /\
    count isFetch rest = 0%nat /\
    locked w' = false /\
    (forall response accessToken expiresIn,
       r = inl response ->
       tokenOfResponse Sample.unmarshalTokenResult
         (tokenUrl Sample.QueryEscape "wx1" "s3") response =
         (accessToken, expiresIn, None) ->
       res = (accessToken, None) /\
       savedEntries rest = [("wx1", accessToken, seconds (shrink expiresIn))]).
Proof.
  split; [reflexivity|].
  apply (NoticeRefreshAccessToken_always_refreshes Sample.oracle
           Sample.unmarshalTokenResult Sample.QueryEscape Sample.ctx).
  reflexivity.
Defined.

(** The same call run on the example: the cache held T1 with most of its
    lifetime left; afterwards it holds the issuer's T2 for 6480 seconds. *)
Example NoticeRefreshAccessToken_overwrites_sample :
  let w := Sample.world
             (Sample.state (Sample.cached "T1")
                [inl (Sample.ok (Sample.tokenBody "T2" "7200"))] [] []) [] in
  exists w',
    run Sample.oracle
      (NoticeRefreshAccessToken Sample.unmarshalTokenResult Sample.QueryEscape Sample.ctx)
      w = Some ("T2", None, w') /\
    Sample.store (ext w) !! "wx1" = Some ("T1", 6480 * Second) /\
    Sample.store (ext w') !! "wx1" = Some ("T2", 6480 * Second) /\
    requestUrls (trace w') =
      ["https://api.weixin.qq.com/cgi-bin/token?appid=wx1&grant_type=client_credential&secret=s3"].
Proof. vm_compute. eexists. repeat split. Qed.

Section Saves.

Context {S : Type} (O : Oracle S).
Variable unmarshalTokenResult : list byte -> string + TokenResult.
Variable QueryEscape : string -> string.
Variable ctx : OffiAccount.

#[local] Arguments tokenOfResponse : simpl never.
#[local] Arguments tokenUrl : simpl never.
#[local] Arguments shrink : simpl never.
#[local] Arguments seconds : simpl never.
#[local] Arguments String.append : simpl never.

(** Both functions on the way through the issuer, with the answers of the
    collaborators given: the one entry saved, and the result. *)
Lemma refresh_saves (w : World S) (response : Response) (accessToken : string)
    (expiresIn : Z) (saved : option error) :
  let appid := Appid (Config ctx) in
  let url := tokenUrl QueryEscape appid (Secret (Config ctx)) in
  let d := seconds (shrink expiresIn) in
  locked w = false ->
  tokenOfResponse unmarshalTokenResult url response = (accessToken, expiresIn, None) ->
  (forall s1 s2,
     transport_get O url (ext w) = (inl response, s1) ->
     cache_save O appid accessToken d s1 = (saved, s2) ->
     exists w' t,
       run O (NoticeRefreshAccessToken unmarshalTokenResult QueryEscape ctx) w =
         Some (accessToken, None, w') /\
       trace w' = trace w ++ t /\
       ESave appid accessToken d saved ∈ t /\
       savedEntries t = [(appid, accessToken, d)] /\
       locked w' = false) /\
  (forall err1 err2 s1 s2 s3 s4,
     cache_fetch O appid (ext w) = (EmptyString, err1, s1) ->
     cache_fetch O appid s1 = (EmptyString, err2, s2) ->
     transport_get O url s2 = (inl response, s3) ->
     cache_save O appid accessToken d s3 = (saved, s4) ->
     exists w' t,
       run O (GetAccessToken unmarshalTokenResult QueryEscape ctx) w =
         Some (accessToken, None, w') /\
       trace w' = trace w ++ t /\
       ESave appid accessToken d saved ∈ t /\
       savedEntries t = [(appid, accessToken, d)] /\
       locked w' = false).
Proof.
  intros appid url d Hl Hd. subst appid url d. split.
  - intros s1 s2 Hg Hs.
    unfold NoticeRefreshAccessToken, refreshAndSave, refreshAccessTokenFromWXServer,
      saveToken, returning, logPrintf.
    simpl. rewrite Hl. simpl. rewrite Hg. simpl. rewrite Hd. simpl. rewrite Hs.
    destruct (Logger ctx); simpl.
    all: eexists _, _; split; [done|]; split; [traced|].
    all: split; [|done].
    all: repeat (apply elem_of_cons; (by left) || right).
  - intros err1 err2 s1 s2 s3 s4 Hf1 Hf2 Hg Hs.
    unfold GetAccessToken, GetAccessToken_locked, refreshAndSave,
      refreshAccessTokenFromWXServer, saveToken, returning, logPrintf.
    simpl. rewrite Hf1. simpl. rewrite Hl. simpl. rewrite Hf2. simpl. rewrite Hg. simpl.
    rewrite Hd. simpl. rewrite Hs.
    destruct (Logger ctx); simpl.
    all: eexists _, _; split; [done|]; split; [traced|].
    all: split; [|done].
    all: repeat (apply elem_of_cons; (by left) || right).
Qed.

End Saves.

(** C10.  In both functions, when the exchange with the issuer succeeds
    and the save that follows answers an error, the call returns the token
    read from the issuer's answer with no error: the error of the save
    reaches nobody.  The hypotheses are the answers of the collaborators on
    the way: for [GetAccessToken] the two fetches that find nothing, then
    for both the issuer's answer, which carries the token, and the save
    that fails. *)
Theorem save_error_is_discarded {S : Type} (O : Oracle S)
    (unmarshalTokenResult : list byte -> string + TokenResult)
    (QueryEscape : string -> string) (ctx : OffiAccount) (w : World S)
    (response : Response) (accessToken : string) (expiresIn : Z) (e : error) :
  let appid := Appid (Config ctx) in
  let url := tokenUrl QueryEscape appid (Secret (Config ctx)) in
  let d := seconds (shrink expiresIn) in
  locked w = false ->
  tokenOfResponse unmarshalTokenResult url response = (accessToken, expiresIn, None) ->
  (forall s1 s2,
     transport_get O url (ext w) = (inl response, s1) ->
     cache_save O appid accessToken d s1 = (Some e, s2) ->
     exists w' t,
       run O (NoticeRefreshAccessToken unmarshalTokenResult QueryEscape ctx) w =
         Some (accessToken, None, w') /\
       trace w' = trace w ++ t /\
       ESave appid accessToken d (Some e) ∈ t /\
       locked w' = false) /\
  (forall err1 err2 s1 s2 s3 s4,
     cache_fetch O appid (ext w) = (EmptyString, err1, s1) ->
     cache_fetch O appid s1 = (EmptyString, err2, s2) ->
     transport_get O url s2 = (inl response, s3) ->
     cache_save O appid accessToken d s3 = (Some e, s4) ->
     exists w' t,
       run O (GetAccessToken unmarshalTokenResult QueryEscape ctx) w =
         Some (accessToken, None, w') /\
       trace w' = trace w ++ t /\
       ESave appid accessToken d (Some e) ∈ t /\
       locked w' = false).
Proof.
  intros appid url d Hl Hd.
  destruct (refresh_saves O unmarshalTokenResult QueryEscape ctx w response accessToken
              expiresIn (Some e) Hl Hd) as [HN HG].
  split.
  - intros s1 s2 Hg Hs. destruct (HN s1 s2 Hg Hs) as (w' & t & ? & ? & ? & _ & ?).
    exists w', t. done.
  - intros err1 err2 s1 s2 s3 s4 Hf1 Hf2 Hg Hs.
    destruct (HG err1 err2 s1 s2 s3 s4 Hf1 Hf2 Hg Hs) as (w' & t & ? & ? & ? & _ & ?).
    exists w', t. done.
Qed.

Lemma save_error_is_discarded_witness :
  let s := Sample.state ∅ [inl (Sample.ok (Sample.tokenBody "T2" "7200"))] [] [] in
  let w := Sample.world s [] in
  let failed := ESave "wx1" "T2" (seconds (shrink 7200))
                  (Some (foreignError "cache unavailable")) in
  (exists w' t,
     run Sample.brokenOracle
       (NoticeRefreshAccessToken Sample.unmarshalTokenResult Sample.QueryEscape Sample.ctx)
       w = Some ("T2", None, w') /\
     trace w' = trace w ++ t /\ failed ∈ t /\ locked w' = false) /\
  (exists w' t,
     run Sample.brokenOracle
       (GetAccessToken Sample.unmarshalTokenResult Sample.QueryEscape Sample.ctx) w =
       Some ("T2", None, w') /\
     trace w' = trace w ++ t /\ failed ∈ t /\ locked w' = false).
Proof.
  intros s w failed.
  destruct (save_error_is_discarded Sample.brokenOracle Sample.unmarshalTokenResult
              Sample.QueryEscape Sample.ctx w (Sample.ok (Sample.tokenBody "T2" "7200"))
              "T2" 7200 (foreignError "cache unavailable"))
    as [HN HG].
  - reflexivity.
  - vm_compute. reflexivity.
  - split.
    + apply (HN (Sample.state ∅ [] [] []) (Sample.state ∅ [] [] [])); reflexivity.
    + apply (HG None None s s (Sample.state ∅ [] [] []) (Sample.state ∅ [] [] []));
        reflexivity.
Defined.

(** Both calls run on the example with the cache out of order: the save
    answers an error, and the caller gets the token and no error. *)
Example save_error_is_discarded_sample :
  let w := Sample.world
             (Sample.state ∅ [inl (Sample.ok (Sample.tokenBody "T2" "7200"))] [] []) [] in
  let failed := ESave "wx1" "T2" (6480 * Second) (Some (foreignError "cache unavailable")) in
  (exists w',
     run Sample.brokenOracle
       (NoticeRefreshAccessToken Sample.unmarshalTokenResult Sample.QueryEscape Sample.ctx)
       w = Some ("T2", None, w') /\ failed ∈ trace w') /\
  (exists w',
     run Sample.brokenOracle
       (GetAccessToken Sample.unmarshalTokenResult Sample.QueryEscape Sample.ctx) w =
       Some ("T2", None, w') /\ failed ∈ trace w').
Proof.
  split; vm_compute; (eexists; split; [reflexivity|]); repeat constructor.
Qed.




(** Both calls run on the example: the issuer reports 7200 seconds and the
    one entry saved lives 6480 seconds. *)
Example ttl_sample :
  let w := Sample.world
             (Sample.state ∅ [inl (Sample.ok (Sample.tokenBody "T1" "7200"))] [] []) [] in
  (exists w',
     run Sample.oracle
       (NoticeRefreshAccessToken Sample.unmarshalTokenResult Sample.QueryEscape Sample.ctx)
       w = Some ("T1", None, w') /\
     savedEntries (trace w') = [("wx1", "T1", 6480 * Second)]) /\
  (exists w',
     run Sample.oracle
       (GetAccessToken Sample.unmarshalTokenResult Sample.QueryEscape Sample.ctx) w =
       Some ("T1", None, w') /\
     savedEntries (trace w') = [("wx1", "T1", 6480 * Second)]).
Proof. split; vm_compute; eexists; split; reflexivity. Qed.

(** ** The request layer *)

(** The retry run on the example: two requests, one forced refresh, and
    the body of the second response is the result. *)
Example retry_sample :
  let w := Sample.world Sample.retryState [Sample.payload] in
  exists w',
    run Sample.oracle
      (HTTPGet Sample.unmarshalErrorResponse Sample.client "/cgi-bin/menu/get") w =
      Some (Sample.dataBody, None, w') /\
    responsesOf (trace w') = [inl Sample.invalid; inl (Sample.ok Sample.dataBody)] /\
    refreshAnswers (trace w') = [("T2", None)].
Proof. vm_compute. eexists. repeat split. Qed.


(** C5.  The code at the failing input: the first response is the
    retryable credential failure and the refresh handler answers the error
    [Sample.refreshDown].  Both [HTTPGet] and [HTTPPost] return the body of
    the first response with [NeedRefreshAccessTokenError], the outer [err]
    of the function, and not the handler's error, which stays in the [err]
    the retry block declares. *)
Theorem refresh_error_is_replaced :
  let w := Sample.world Sample.refreshFailsState [Sample.payload] in
  (exists w',
     run Sample.oracle
       (HTTPGet Sample.unmarshalErrorResponse Sample.client "/cgi-bin/menu/get") w =
       Some (Sample.errorBody "40001" "invalid", Some NeedRefreshAccessTokenError, w') /\
     refreshAnswers (trace w') = [(EmptyString, Some Sample.refreshDown)]) /\
  (exists w',
     run Sample.oracle
       (HTTPPost Sample.unmarshalErrorResponse Sample.client "/cgi-bin/menu/create"
          0%nat "application/json") w =
       Some (Sample.errorBody "40001" "invalid", Some NeedRefreshAccessTokenError, w') /\
     refreshAnswers (trace w') = [(EmptyString, Some Sample.refreshDown)]) /\
  NeedRefreshAccessTokenError <> Sample.refreshDown.
Proof.
  split; [|split]; [vm_compute; eexists; split; reflexivity..|discriminate].
Qed.

(** C1.  The code at the failing input, the scenario of the spec with the
    package's own handlers: the issuer gives T1, the platform rejects it,
    the forced refresh gets T2.  The URL of the retried request is the
    first URL, stale token included, with a second [access_token]
    parameter after it. *)
Theorem retried_url_keeps_stale_token :
  let w := Sample.world Sample.scenarioState [Sample.payload] in
  let issuer :=
    "https://api.weixin.qq.com/cgi-bin/token?appid=wx1&grant_type=client_credential&secret=s3" in
  (exists res w',
     run Sample.oracle
       (link Sample.unmarshalTokenResult Sample.QueryEscape
          (HTTPGet Sample.unmarshalErrorResponse Sample.client "/cgi-bin/menu/get")) w =
       Some (res, w') /\
     requestUrls (trace w') =
       [issuer;
        "https://api.weixin.qq.com/cgi-bin/menu/get?access_token=T1";
        issuer;
        "https://api.weixin.qq.com/cgi-bin/menu/get?access_token=T1&access_token=T2"]) /\
  (exists res w',
     run Sample.oracle
       (link Sample.unmarshalTokenResult Sample.QueryEscape
          (HTTPPost Sample.unmarshalErrorResponse Sample.client "/cgi-bin/menu/create"
             0%nat "application/json")) w =
       Some (res, w') /\
     requestUrls (trace w') =
       [issuer;
        "https://api.weixin.qq.com/cgi-bin/menu/create?access_token=T1";
        issuer;
        "https://api.weixin.qq.com/cgi-bin/menu/create?access_token=T1&access_token=T2"]).
Proof.
  split; vm_compute; eexists _, _; split; reflexivity.
Qed.

(** ** The retried request *)

Lemma prefix_append (p s t : string) :
  String.prefix p s = true -> String.prefix p (s +:+ t) = true.
Proof.
  revert p. induction s as [|c' s IH]; intros [|c p] Hp; simpl in *; try done.
  - by destruct t.
  - destruct (Ascii.ascii_dec c c'); [auto|done].
Qed.

Lemma Contains_append_l (s t sub : string) :
  Contains s sub = true -> Contains (s +:+ t) sub = true.
Proof.
  induction s as [|c s IH]; simpl.
  - rewrite orb_false_r. intros Hp. destruct sub; [|done].
    destruct t; done.
  - intros [Hp|Hc]%orb_true_iff.
    + apply orb_true_iff. left. by apply (prefix_append sub (String c s) t).
    + apply orb_true_iff. right. auto.
Qed.

Lemma Contains_append_r (s t sub : string) :
  Contains t sub = true -> Contains (s +:+ t) sub = true.
Proof.
  intros Ht. induction s as [|c s IH]; simpl; [done|].
  apply orb_true_iff. right. done.
Qed.

Section Retried.

Context {S : Type} (O : Oracle S).
Variable unmarshalErrorResponse : list byte -> string + ErrorResponse.

#[local] Arguments responseFilter : simpl never.
#[local] Arguments Contains : simpl never.
#[local] Arguments String.append : simpl never.

(** A URL that already carries a token has a question mark. *)
Ltac marked :=
  match goal with
  | H : Contains (?u +:+ "&access_token=" +:+ ?s) "?" = false,
    H' : Contains ?u "?" = true |- _ =>
      rewrite (Contains_append_l u ("&access_token=" +:+ s) "?" H') in H; done
  | H : Contains (?u +:+ "?access_token=" +:+ ?s) "?" = false |- _ =>
      rewrite (Contains_append_r u ("?access_token=" +:+ s) "?" eq_refl) in H; done
  end.

(** In every call that sends a second request, its URL is the whole URL
    of the first one, token included, followed by another [access_token]
    parameter with the token looked up after the refresh. *)
Lemma retried_url_appends (client : Client) (uri : string) (payload : nat)
    (contentType : string) (p : Prog (list byte * option error)) (w : World S) :
  p = HTTPGet unmarshalErrorResponse client uri \/
  p = HTTPPost unmarshalErrorResponse client uri payload contentType ->
  exists res w' t,
    run O p w = Some (res, w') /\
    trace w' = trace w ++ t /\
    forall u1 u2,
      requestUrls t = [u1; u2] ->
      exists tok1 tok2 uri1,
        tokenAnswers t = [(tok1, None); (tok2, None)] /\
        (uri1 = uri +:+ "?access_token=" +:+ tok1 \/
         uri1 = uri +:+ "&access_token=" +:+ tok1) /\
        u1 = WXServerUrl +:+ uri1 /\
        u2 = WXServerUrl +:+ uri1 +:+ "&access_token=" +:+ tok2.
Proof.
  intros [-> | ->]; unfold HTTPGet, HTTPPost, applyAccessToken, returning.
  all: exec.
  all: try marked.
  all: eexists _, _, _; split; [done|]; split; [traced|].
  all: intros u1 u2 Hu; simplify_eq/=.
  all: eexists _, _, _; split; [done|]; (split; [|split; reflexivity]); auto.
Qed.

(** In every call in which the refresh handler answers an error, the
    result is what the filter made of the first response, the sentinel
    included: the handler's error is not what the caller gets. *)
Lemma refresh_error_is_replaced_always (client : Client) (uri : string) (payload : nat)
    (contentType : string) (p : Prog (list byte * option error)) (w : World S) :
  p = HTTPGet unmarshalErrorResponse client uri \/
  p = HTTPPost unmarshalErrorResponse client uri payload contentType ->
  exists res w' t,
    run O p w = Some (res, w') /\
    trace w' = trace w ++ t /\
    forall a e,
      refreshAnswers t = [(a, Some e)] ->
      exists r1,
        responsesOf t = [inl r1] /\
        res = responseFilter unmarshalErrorResponse r1 /\
        res.2 = Some NeedRefreshAccessTokenError.
Proof.
  intros [-> | ->]; unfold HTTPGet, HTTPPost, applyAccessToken, returning.
  all: exec.
  all: eexists _, _, _; split; [done|]; split; [traced|].
  all: intros ? ? Hr; simplify_eq/=.
  all: eexists; split; [done|].
  all: repeat match goal with
         | H : responseFilter _ _ = _ |- _ => rewrite H in *; clear H
         end; simpl.
  all: repeat match goal with
         | H : isNeedRefresh ?o = true |- _ => destruct o as [[]|]; simplify_eq/=
         end; done.
Qed.

Lemma reader_after (rs : list (list byte)) (i n : nat) :
  default [] (<[i := drop n (default [] (rs !! i))]> rs !! i) =
  drop n (default [] (rs !! i)).
Proof.
  destruct (rs !! i) as [x|] eqn:Hi; simpl.
  - rewrite list_lookup_insert_eq; [done|]. by eapply lookup_lt_Some.
  - rewrite list_insert_ge; [|by apply lookup_ge_None]. rewrite Hi. simpl.
    by rewrite drop_nil.
Qed.

Lemma reader_twice (rs : list (list byte)) (i n m : nat) :
  default []
    (<[i := drop m (drop n (default [] (rs !! i)))]>
       (<[i := drop n (default [] (rs !! i))]> rs) !! i) =
  drop m (drop n (default [] (rs !! i))).
Proof.
  destruct (rs !! i) as [x|] eqn:Hi; simpl.
  - rewrite list_lookup_insert_eq; [done|].
    rewrite length_insert. by eapply lookup_lt_Some.
  - assert (length rs <= i)%nat as Hge by (by apply lookup_ge_None).
    rewrite (list_insert_ge rs i) by done. rewrite (list_insert_ge rs i) by done.
    rewrite Hi. simpl. by rewrite !drop_nil.
Qed.

Lemma tokened_has_mark (uri accessToken : string) :
  Contains (if Contains uri "?" then uri +:+ "&access_token=" +:+ accessToken
            else uri +:+ "?access_token=" +:+ accessToken) "?" = true.
Proof.
  destruct (Contains uri "?") eqn:Hc.
  - by apply Contains_append_l.
  - by apply Contains_append_r.
Qed.


(** C9, as the code has it.  In a call of [HTTPPost] whose first response
    is the retryable credential failure and whose forced refresh and
    second token lookup succeed, both posts are given the one payload
    reader: the transport is shown, for the second post, what the first
    left unread; the body of the second is taken from those bytes and is
    empty when the first post took everything.  Afterwards the reader is
    past both bodies. *)
Theorem retried_post_reads_same_payload (client : Client) (uri : string)
    (payload : nat) (contentType : string) (w : World S) (tok1 tok2 a : string)
    (r1 : Response) (x : Response + string) (n1 n2 : nat) (s1 s2 s3 s4 s5 : S) :
  let uri1 := if Contains uri "?" then uri +:+ "&access_token=" +:+ tok1
              else uri +:+ "?access_token=" +:+ tok1 in
  let uri2 := uri1 +:+ "&access_token=" +:+ tok2 in
  let unread := default [] (readers w !! payload) in
  token_handler O (Ctx client) (ext w) = (tok1, None, s1) ->
  transport_post O (WXServerUrl +:+ uri1) contentType unread s1 = (n1, inl r1, s2) ->
  retryable unmarshalErrorResponse r1 = true ->
  refresh_handler O (Ctx client) s2 = (a, None, s3) ->
  token_handler O (Ctx client) s3 = (tok2, None, s4) ->
  transport_post O (WXServerUrl +:+ uri2) contentType (drop n1 unread) s4 = (n2, x, s5) ->
  exists res w' t,
    run O (HTTPPost unmarshalErrorResponse client uri payload contentType) w =
      Some (res, w') /\
    trace w' = trace w ++ t /\
    responsesOf t = [inl r1; x] /\
    postBodies t = [(payload, take n1 unread); (payload, take n2 (drop n1 unread))] /\
    (take n1 unread = unread -> take n2 (drop n1 unread) = []) /\
    default [] (readers w' !! payload) = drop n2 (drop n1 unread).
Proof.
  intros uri1 uri2 unread Ht1 Hp1 Hret Hr Ht2 Hp2. subst uri2 unread.
  pose proof (tokened_has_mark uri tok1) as Hmark. fold uri1 in Hmark.
  unfold retryable in Hret.
  destruct (responseFilter unmarshalErrorResponse r1) as [resp err] eqn:Hf1.
  simpl in Hret.
  assert (run O (applyAccessToken client uri) w =
            Some (uri1, None, emit w s1 (ETokenHandler (Ctx client) (tok1, None)))) as Ha1.
  { unfold applyAccessToken. simpl. rewrite Ht1. simpl. unfold uri1.
    by destruct (Contains uri "?"). }
  unfold HTTPPost, mbind, Prog_bind. rewrite run_bind, Ha1. unfold returning, logPrintf.
  destruct (Logger (Ctx client)); simpl; rewrite Hp1; simpl;
    rewrite Hf1, Hret; simpl; rewrite Hr; simpl; rewrite Ht2; simpl; rewrite Hmark; simpl.
  all: rewrite reader_after, Hp2; simpl.
  all: destruct x as [r2|msg]; simpl.
  all: eexists _, _, _; split; [done|]; split; [traced|].
  all: split; [done|]; split; [done|].
  all: split;
    [intros Hall; apply (f_equal length) in Hall; rewrite length_take in Hall;
     rewrite drop_ge by lia; by rewrite take_nil|].
  all: apply reader_twice.
Qed.

End Retried.


Lemma retried_post_reads_same_payload_witness :
  let w := Sample.world Sample.retryState [Sample.payload] in
  exists res w' t,
    run Sample.oracle
      (HTTPPost Sample.unmarshalErrorResponse Sample.client "/cgi-bin/menu/create"
         0%nat "application/json") w = Some (res, w') /\
    trace w' = trace w ++ t /\
    responsesOf t = [inl Sample.invalid; inl (Sample.ok Sample.dataBody)] /\
    postBodies t = [(0%nat, take 2 Sample.payload);
                    (0%nat, take 0 (drop 2 Sample.payload))] /\
    (take 2 Sample.payload = Sample.payload -> take 0 (drop 2 Sample.payload) = []) /\
    default [] (readers w' !! 0%nat) = drop 0 (drop 2 Sample.payload).
Proof.
  apply (retried_post_reads_same_payload Sample.oracle Sample.unmarshalErrorResponse
           Sample.client "/cgi-bin/menu/create" 0%nat "application/json"
           (Sample.world Sample.retryState [Sample.payload])
           "T1" "T2" "T2" Sample.invalid (inl (Sample.ok Sample.dataBody)) 2%nat 0%nat
           (Sample.state ∅ [inl Sample.invalid; inl (Sample.ok Sample.dataBody)]
              [("T2", None)] [("T2", None)])
           (Sample.state ∅ [inl (Sample.ok Sample.dataBody)] [("T2", None)] [("T2", None)])
           (Sample.state ∅ [inl (Sample.ok Sample.dataBody)] [("T2", None)] [])
           (Sample.state ∅ [inl (Sample.ok Sample.dataBody)] [] [])
           (Sample.state ∅ [] [] [])).
  - reflexivity.
  - reflexivity.
  - vm_compute. reflexivity.
  - reflexivity.
  - reflexivity.
  - reflexivity.
Defined.

(** The retried post run on the example: the payload is the two bytes of
    an empty JSON object; the first post sends them, the second sends an
    empty body. *)
Example retried_post_sample :
  let w := Sample.world Sample.retryState [Sample.payload] in
  exists res w',
    run Sample.oracle
      (HTTPPost Sample.unmarshalErrorResponse Sample.client "/cgi-bin/menu/create"
         0%nat "application/json") w = Some (res, w') /\
    postBodies (trace w') = [(0%nat, Sample.payload); (0%nat, [])] /\
    length Sample.payload = 2%nat.
Proof. vm_compute. eexists _, _. repeat split. Qed.

(** C9 as stated fails where the forced refresh fails: the first response
    is the retryable credential failure, and the payload is posted once. *)
Lemma no_second_post_when_refresh_fails :
  let w := Sample.world Sample.refreshFailsState [Sample.payload] in
  exists res w' r1,
    run Sample.oracle
      (HTTPPost Sample.unmarshalErrorResponse Sample.client "/cgi-bin/menu/create"
         0%nat "application/json") w = Some (res, w') /\
    responsesOf (trace w') = [inl r1] /\
    retryable Sample.unmarshalErrorResponse r1 = true /\
    postBodies (trace w') = [(0%nat, Sample.payload)].
Proof. vm_compute. eexists _, _, _. repeat split. Qed.


(** ** Concurrent calls of [GetAccessToken] *)
Module SingleFlight.
Import Concurrent Sample.


Section Race.
Variable ut : list byte -> string + TokenResult.
Variable qe : string -> string.
Variable ctx : OffiAccount.
Variable response : Response.
Variable rest : list (Response + string).
Variable tok : string.
Variable exp : Z.

Abbreviation appid := (Appid (Config ctx)).
Abbreviation url := (tokenUrl qe (Appid (Config ctx)) (Secret (Config ctx))).

Hypothesis Htok : tokenOfResponse ut url response = (tok, exp, None).
Hypothesis Httl : 0 < seconds (shrink exp).

Abbreviation live := (Concurrent.live ctx).
Abbreviation okB := (Concurrent.okB response tok exp).
Abbreviation okC := (Concurrent.okC tok exp).
Abbreviation Inv := (Concurrent.Inv qe ctx response rest tok exp).

Lemma tok_nonEmpty : nonEmpty tok = true.
Proof using Htok.
  clear Httl. revert Htok. unfold tokenOfResponse.
  repeat case_match; intros; simplify_eq/=; done.
Qed.

Lemma fetch_live (s : State) : fetch appid s = (live s, None, s).
Proof. done. Qed.

Lemma live_save (v : string) (d : Z) (s : State) :
  0 < d -> live (save appid v d s).2 = v.
Proof.
  intros Hd. unfold Concurrent.live, fetch, save. simpl. rewrite lookup_insert_eq.
  destruct (Z.ltb_spec 0 d); [done|lia].
Qed.

Lemma get_script (u : string) (s : State) r l :
  script s = r :: l ->
  exists s', get u s = (r, s') /\ script s' = l /\ live s' = live s.
Proof. intros Hs. unfold get. rewrite Hs. simpl. eexists; split; done. Qed.

Opaque fetch save get.

Lemma holders_insert (pcs : list Place) (i : nat) (c c' : Place) :
  pcs !! i = Some c ->
  (holders (<[i := c']> pcs) + (if holds c then 1 else 0) =
   holders pcs + (if holds c' then 1 else 0))%nat.
Proof.
  unfold holders. revert i. induction pcs as [|x pcs IH]; intros [|i] Hi; simplify_eq/=.
  - rewrite !filter_cons.
    destruct (holds c), (holds c'); repeat case_decide; simpl; try done; lia.
  - rewrite !filter_cons. specialize (IH i Hi). case_decide; simpl; lia.
Qed.

Lemma holders_none (pcs : list Place) :
  holders pcs = 0%nat -> Forall (fun c => holds c = false) pcs.
Proof.
  unfold holders. induction pcs as [|x pcs IH]; [constructor|].
  rewrite filter_cons. case_decide; simpl; [lia|].
  intros H0. constructor; [by destruct (holds x)|auto].
Qed.

Lemma holders_some (pcs : list Place) :
  holders pcs <> 0%nat -> exists i c, pcs !! i = Some c /\ holds c = true.
Proof.
  unfold holders. induction pcs as [|x pcs IH]; [done|].
  rewrite filter_cons. case_decide.
  - intros _. exists 0%nat, x. done.
  - intros Hn. destruct (IH Hn) as (i & c & Hi & Hc). exists (S i), c. done.
Qed.

Lemma total_insert (pcs : list Place) (i : nat) (c c' : Place) :
  pcs !! i = Some c ->
  (total (<[i := c']> pcs) + rank c = total pcs + rank c')%nat.
Proof.
  revert i. induction pcs as [|x pcs IH]; intros [|i] Hi; simplify_eq/=; [lia|].
  specialize (IH i Hi). lia.
Qed.

(** When the one holder moves on, the others are where they can be
    without the mutex. *)
Lemma others_idle (P Q : Place -> Prop) (pcs : list Place) (i : nat) (c c' : Place) :
  pcs !! i = Some c -> holds c = true -> holders pcs = 1%nat ->
  Forall P pcs -> P Start -> Q c' ->
  (forall x, P x -> holds x = false -> Q x) ->
  Forall Q (<[i := c']> pcs).
Proof.
  intros Hi Hc Hh HP HS HQ Himp.
  rewrite <- (list_insert_insert_eq pcs i c' Start). apply Forall_insert; [|done].
  pose proof (holders_insert pcs i c Start Hi) as Hins. rewrite Hc in Hins. simpl in Hins.
  assert (holders (<[i := Start]> pcs) = 0%nat) as H0 by lia.
  apply holders_none in H0.
  assert (Forall P (<[i := Start]> pcs)) as HP' by (by apply Forall_insert).
  rewrite Forall_lookup in *. intros j x Hj. eauto.
Qed.

Lemma requestUrls_snoc (l : list Effect) (f : Effect) :
  requestUrls (l ++ [f]) = requestUrls l ++ requestUrls [f].
Proof. unfold requestUrls. by rewrite omap_app. Qed.

Ltac lock_arith Hh Hins :=
  simpl in Hins; simpl;
  repeat match goal with
         | H : locked _ = _ |- _ => rewrite H in *
         end;
  simpl in *; lia.

Lemma step_place (pcs : list Place) (w : World State) (i : nat) (c : Place)
    (p' : Prog (string * option error)) (w' : World State) :
  Inv pcs w -> pcs !! i = Some c ->
  stepThread oracle (remaining ut qe ctx c) w = Some (p', w') ->
  exists c', p' = remaining ut qe ctx c' /\ Inv (<[i := c']> pcs) w' /\
             (rank c' < rank c)%nat.
Proof using Htok Httl.
  intros [Hh Hphase] Hi Hstep.
  pose proof tok_nonEmpty as Hne.
  destruct Hphase as
    [(Hscr & Hlive & Hok & Hcalls)|[(Hlive & Hok & Hcalls & Hlk)|(Hlive & Hok & Hcalls)]].
  - pose proof (Forall_lookup_1 _ _ _ _ Hok Hi) as [-> | [-> | [-> | ->]]].
    + simpl in Hstep. rewrite fetch_live, Hlive in Hstep.
      injection Hstep as <- <-. exists Waiting. split; [done|]. split; [|simpl; lia].
      pose proof (holders_insert pcs i Start Waiting Hi) as Hins.
      split; [simpl in *; lia|]. left. simpl.
      rewrite requestUrls_snoc, Hcalls.
      repeat split; try done. apply Forall_insert; [done|]. unfold okA; auto.
    + simpl in Hstep. destruct (locked w) eqn:Hl; [done|]. injection Hstep as <- <-.
      exists Holding. split; [done|]. split; [|simpl; lia].
      pose proof (holders_insert pcs i Waiting Holding Hi) as Hins.
      split; [simpl in *; lia|]. left. simpl.
      rewrite requestUrls_snoc, Hcalls.
      repeat split; try done. apply Forall_insert; [done|]. unfold okA; auto.
    + simpl in Hstep. rewrite fetch_live, Hlive in Hstep.
      injection Hstep as <- <-. exists Refreshing. split; [done|]. split; [|simpl; lia].
      pose proof (holders_insert pcs i Holding Refreshing Hi) as Hins.
      split; [simpl in *; lia|]. left. simpl.
      rewrite requestUrls_snoc, Hcalls.
      repeat split; try done. apply Forall_insert; [done|]. unfold okA; auto.
    + simpl in Hstep.
      destruct (get_script url (ext w) _ _ Hscr) as (s' & Hget & Hscr' & Hlive').
      rewrite Hget in Hstep. injection Hstep as <- <-.
      exists (Closing response). split; [done|]. split; [|simpl; lia].
      pose proof (holders_insert pcs i Refreshing (Closing response) Hi) as Hins.
      assert (locked w = true) as Hl.
      { destruct (locked w); [done|].
        pose proof (holders_insert pcs i Refreshing Start Hi). simpl in *. lia. }
      rewrite Hl in Hh.
      split; [simpl in *; rewrite Hl; lia|]. right. left. simpl.
      rewrite requestUrls_snoc, Hcalls. rewrite Hlive', Hlive.
      repeat split; try done.
      apply (others_idle okA okB pcs i Refreshing); try done; unfold okA, Concurrent.okB; auto.
      intros x [-> | [-> | [-> | ->]]]; simpl; auto; done.
  - pose proof (Forall_lookup_1 _ _ _ _ Hok Hi) as [-> | [-> | [-> | ->]]].
    + simpl in Hstep. rewrite fetch_live, Hlive in Hstep.
      injection Hstep as <- <-. exists Waiting. split; [done|]. split; [|simpl; lia].
      pose proof (holders_insert pcs i Start Waiting Hi) as Hins.
      split; [simpl in *; lia|]. right. left. simpl.
      rewrite requestUrls_snoc, Hcalls.
      repeat split; try done. apply Forall_insert; [done|]. unfold Concurrent.okB; auto.
    + simpl in Hstep. rewrite Hlk in Hstep. done.
    + simpl in Hstep. rewrite Htok in Hstep.
      injection Hstep as <- <-. exists (Saving tok exp). split; [done|]. split; [|simpl; lia].
      pose proof (holders_insert pcs i (Closing response) (Saving tok exp) Hi) as Hins.
      split; [simpl in *; lia|]. right. left. simpl.
      rewrite requestUrls_snoc, Hcalls.
      repeat split; try done. apply Forall_insert; [done|]. unfold Concurrent.okB; auto.
    + simpl in Hstep.
      destruct (save appid tok (seconds (shrink exp)) (ext w)) as [res s'] eqn:Hsave.
      injection Hstep as <- <-. exists (Logging tok exp). split; [done|]. split; [|simpl; lia].
      pose proof (holders_insert pcs i (Saving tok exp) (Logging tok exp) Hi) as Hins.
      rewrite Hlk in Hh.
      split; [simpl in *; rewrite Hlk; lia|]. right. right. simpl.
      rewrite requestUrls_snoc, Hcalls.
      pose proof (live_save tok _ (ext w) Httl) as Hl'. rewrite Hsave in Hl'.
      repeat split; try done.
      apply (others_idle okB okC pcs i (Saving tok exp)); try done; unfold Concurrent.okB, Concurrent.okC; auto.
      intros x [-> | [-> | [-> | ->]]]; simpl; auto; done.
  - pose proof (Forall_lookup_1 _ _ _ _ Hok Hi) as [-> | [-> | [-> | [-> | [-> | ->]]]]].
    + simpl in Hstep. rewrite fetch_live, Hlive, Hne in Hstep.
      injection Hstep as <- <-. exists (Returned (tok, None)). split; [done|]. split; [|simpl; lia].
      pose proof (holders_insert pcs i Start (Returned (tok, None)) Hi) as Hins.
      split; [simpl in *; lia|]. right. right. simpl.
      rewrite requestUrls_snoc, Hcalls.
      repeat split; try done. apply Forall_insert; [done|]. unfold Concurrent.okC; auto 10.
    + simpl in Hstep. destruct (locked w) eqn:Hl; [done|]. injection Hstep as <- <-.
      exists Holding. split; [done|]. split; [|simpl; lia].
      pose proof (holders_insert pcs i Waiting Holding Hi) as Hins.
      split; [simpl in *; lia|]. right. right. simpl.
      rewrite requestUrls_snoc, Hcalls.
      repeat split; try done. apply Forall_insert; [done|]. unfold Concurrent.okC; auto.
    + simpl in Hstep. rewrite fetch_live, Hlive, Hne in Hstep.
      injection Hstep as <- <-. exists (Releasing (tok, None)). split; [done|]. split; [|simpl; lia].
      pose proof (holders_insert pcs i Holding (Releasing (tok, None)) Hi) as Hins.
      split; [simpl in *; lia|]. right. right. simpl.
      rewrite requestUrls_snoc, Hcalls.
      repeat split; try done. apply Forall_insert; [done|]. unfold Concurrent.okC; auto 10.
    + assert (locked w = true) as Hl.
      { destruct (locked w); [done|].
        pose proof (holders_insert pcs i (Logging tok exp) Start Hi). simpl in *. lia. }
      rewrite Hl in Hh.
      simpl in Hstep. unfold logPrintf in Hstep. destruct (Logger ctx) eqn:Hlog.
      * simpl in Hstep. injection Hstep as <- <-.
        exists (Releasing (tok, None)). split; [done|]. split; [|simpl; lia].
        pose proof (holders_insert pcs i (Logging tok exp) (Releasing (tok, None)) Hi) as Hins.
        split; [simpl in *; rewrite Hl; lia|]. right. right. simpl.
        rewrite requestUrls_snoc, Hcalls.
        repeat split; try done. apply Forall_insert; [done|]. unfold Concurrent.okC; auto 10.
      * simpl in Hstep. rewrite Hl in Hstep. injection Hstep as <- <-.
        exists (Returned (tok, None)). split; [done|]. split; [|simpl; lia].
        pose proof (holders_insert pcs i (Logging tok exp) (Returned (tok, None)) Hi) as Hins.
        split; [simpl in *; lia|]. right. right. simpl.
        rewrite requestUrls_snoc, Hcalls.
        repeat split; try done. apply Forall_insert; [done|]. unfold Concurrent.okC; auto 10.
    + assert (locked w = true) as Hl.
      { destruct (locked w); [done|].
        pose proof (holders_insert pcs i (Releasing (tok, None)) Start Hi). simpl in *. lia. }
      rewrite Hl in Hh.
      simpl in Hstep. rewrite Hl in Hstep. injection Hstep as <- <-.
      exists (Returned (tok, None)). split; [done|]. split; [|simpl; lia].
      pose proof (holders_insert pcs i (Releasing (tok, None)) (Returned (tok, None)) Hi) as Hins.
      split; [simpl in *; lia|]. right. right. simpl.
      rewrite requestUrls_snoc, Hcalls.
      repeat split; try done. apply Forall_insert; [done|]. unfold Concurrent.okC; auto 10.
    + simpl in Hstep. done.
Qed.
Transparent fetch save get.

Lemma holder_can_step (c : Place) (w : World State) :
  holds c = true -> locked w = true ->
  is_Some (stepThread oracle (remaining ut qe ctx c) w).
Proof.
  intros Hc Hl. destruct c; try done; simpl; unfold logPrintf, get, next;
    repeat (simpl; rewrite ?Hl; case_match); simplify_eq/=; rewrite ?Hl; eauto.
Qed.

Lemma idle_can_step (c : Place) (w : World State) :
  holds c = false -> (forall r, c <> Returned r) -> locked w = false ->
  is_Some (stepThread oracle (remaining ut qe ctx c) w).
Proof.
  intros Hc Hr Hl. destruct c; try done; simpl; rewrite ?Hl; eauto.
  by destruct (Hr res).
Qed.

Lemma progress (pcs : list Place) (w : World State) (c : Place) :
  Inv pcs w -> c ∈ pcs -> (forall r, c <> Returned r) ->
  exists pool', step oracle (remaining ut qe ctx <$> pcs, w) pool'.
Proof.
  intros [Hh _] Hc Hr.
  assert (exists i x, pcs !! i = Some x /\
            is_Some (stepThread oracle (remaining ut qe ctx x) w))
    as (i & x & Hi & [[p' w'] Hs]).
  { destruct (locked w) eqn:Hl.
    - destruct (holders_some pcs) as (i & x & Hi & Hx); [lia|].
      exists i, x. split; [done|]. by apply holder_can_step.
    - apply list_elem_of_lookup in Hc as [i Hi]. exists i, c. split; [done|].
      apply idle_can_step; [|done..].
      apply holders_none in Hh. by apply (Forall_lookup_1 _ _ _ _ Hh Hi). }
  eexists. eapply step_thread; [|done]. by rewrite list_lookup_fmap, Hi.
Qed.

Lemma holders_start (N : nat) : holders (replicate N Start) = 0%nat.
Proof. unfold holders. induction N as [|N IH]; [done|]. simpl. by rewrite filter_cons. Qed.

Lemma total_start (N : nat) : total (replicate N Start) = (9 * N)%nat.
Proof. induction N as [|N IH]; simpl; lia. Qed.

Lemma reach (N : nat) (s0 : State) (n : nat) (ts : list (Prog (string * option error)))
    (w : World State) :
  script s0 = inl response :: rest -> live s0 = EmptyString ->
  nsteps (step oracle) n (replicate N (GetAccessToken ut qe ctx), world s0 []) (ts, w) ->
  exists pcs, ts = remaining ut qe ctx <$> pcs /\ Inv pcs w /\
              (n + total pcs <= 9 * N)%nat /\ length pcs = N.
Proof using Htok Httl.
  intros Hscr Hlive. revert ts w. induction n as [|n IH]; intros ts w Hn.
  - inversion Hn; subst. exists (replicate N Start). split.
    { by rewrite fmap_replicate. }
    split; [|rewrite total_start, length_replicate; lia].
    split; [by rewrite holders_start|]. left. repeat split; try done.
    apply Forall_replicate. unfold okA; auto.
  - apply nsteps_inv_r in Hn as ([ts0 w0] & Hn & Hs).
    destruct (IH _ _ Hn) as (pcs0 & -> & Hinv & Hm & Hlen).
    inversion Hs as [? ? i p p' ? Hi Hstep]; subst.
    rewrite list_lookup_fmap in Hi.
    destruct (pcs0 !! i) as [c|] eqn:Hc; simplify_eq/=.
    destruct (step_place pcs0 w0 i c p' w Hinv Hc Hstep) as (c' & -> & Hinv' & Hr).
    exists (<[i := c']> pcs0). split; [by rewrite list_fmap_insert|]. split; [done|].
    pose proof (total_insert pcs0 i c c' Hc). rewrite length_insert. lia.
Qed.

Lemma result_remaining (c : Place) (r : string * option error) :
  result (remaining ut qe ctx c) = Some r -> c = Returned r.
Proof.
  destruct c; simpl; try done; [|congruence].
  unfold logPrintf. destruct (Logger ctx); done.
Qed.
End Race.

(** C3.  [N] threads call [GetAccessToken] for one identity whose cache
    entry is empty; the mutex is free, the cache is the one in memory, and
    the issuer's answer [response] carries the token [tok] with a lifetime
    that leaves a positive time-to-live.  Then, however the threads are
    interleaved: a run has at most [9 * N] steps; at every moment at most
    one request has been sent, and a thread that has returned has returned
    [tok] without error; and when no thread can take a step, all [N] have
    returned [tok], and (for [N > 0]) the requests sent are the one
    request to the token URL. *)
Theorem single_flight (ut : list byte -> string + TokenResult) (qe : string -> string)
    (ctx : OffiAccount) (N : nat) (s0 : State) (response : Response)
    (rest : list (Response + string)) (tok : string) (exp : Z) :
  let appid := Appid (Config ctx) in
  let url := tokenUrl qe appid (Secret (Config ctx)) in
  let start := (replicate N (GetAccessToken ut qe ctx), world s0 []) in
  (fetch appid s0).1.1 = EmptyString ->
  script s0 = inl response :: rest ->
  tokenOfResponse ut url response = (tok, exp, None) ->
  0 < seconds (shrink exp) ->
  (forall n pool, nsteps (step oracle) n start pool -> (n <= 9 * N)%nat) /\
  (forall ts w, rtc (step oracle) start (ts, w) ->
     length ts = N /\
     (length (requestUrls (trace w)) <= 1)%nat /\
     (forall p r, p ∈ ts -> result p = Some r -> r = (tok, None)) /\
     (stuck oracle (ts, w) ->
        Forall (fun p => result p = Some (tok, None)) ts /\
        ((0 < N)%nat -> requestUrls (trace w) = [url]))).
Proof.
  intros appid url start Hempty Hscr Htok Httl. split.
  - intros n [ts w] Hn.
    destruct (reach ut qe ctx response rest tok exp Htok Httl N s0 n ts w Hscr Hempty Hn)
      as (pcs & _ & _ & Hm & _). lia.
  - intros ts w Hrtc. apply rtc_nsteps_1 in Hrtc as [n Hn].
    destruct (reach ut qe ctx response rest tok exp Htok Httl N s0 n ts w Hscr Hempty Hn)
      as (pcs & -> & Hinv & Hm & Hlen).
    split; [by rewrite length_fmap|]. split; [|split].
    + destruct Hinv as [_ [(_ & _ & _ & ->)|[(_ & _ & -> & _)|(_ & _ & ->)]]]; simpl; lia.
    + intros p r Hp Hres. apply list_elem_of_fmap in Hp as (c & -> & Hc).
      apply result_remaining in Hres as ->.
      destruct Hinv as [_ [(_ & _ & Hok & _)|[(_ & Hok & _)|(_ & Hok & _)]]];
        rewrite Forall_forall in Hok; specialize (Hok _ Hc);
        unfold okA, Concurrent.okB, Concurrent.okC in Hok; intuition congruence.
    + intros Hstuck.
      assert (Forall (fun c => c = Returned (tok, None)) pcs) as Hall.
      { rewrite Forall_forall. intros c Hc.
        assert ((exists r, c = Returned r) \/ (forall r, c <> Returned r)) as [[r ->]|Hnr]
          by (destruct c; eauto; right; done).
        - f_equal.
          destruct Hinv as [_ [(_ & _ & Hok & _)|[(_ & Hok & _)|(_ & Hok & _)]]];
            rewrite Forall_forall in Hok; specialize (Hok _ Hc);
            unfold okA, Concurrent.okB, Concurrent.okC in Hok; intuition congruence.
        - destruct (progress ut qe ctx response rest tok exp pcs w c Hinv Hc) as [pool' Hs].
          + done.
          + by destruct (Hstuck pool'). }
      split.
      * rewrite Forall_fmap. eapply Forall_impl; [exact Hall|]. by intros c ->.
      * intros HN. destruct pcs as [|c pcs]; [simpl in *; lia|].
        apply Forall_cons in Hall as [-> _].
        destruct Hinv as [_ [(_ & _ & Hok & _)|[(_ & Hok & _)|(_ & _ & ->)]]]; [..|done];
          apply Forall_cons in Hok as [Hok _]; unfold okA, Concurrent.okB in Hok; intuition congruence.
Qed.
End SingleFlight.


Lemma single_flight_witness :
  let s0 := Sample.state ∅ [inl (Sample.ok (Sample.tokenBody "T1" "7200"))] [] [] in
  let url := tokenUrl Sample.QueryEscape "wx1" "s3" in
  let start :=
    (replicate 3 (GetAccessToken Sample.unmarshalTokenResult Sample.QueryEscape Sample.ctx),
     Sample.world s0 []) in
  ((Sample.fetch "wx1" s0).1.1 = EmptyString /\
   tokenOfResponse Sample.unmarshalTokenResult url
     (Sample.ok (Sample.tokenBody "T1" "7200")) = ("T1", 7200, None) /\
   0 < seconds (shrink 7200)) /\
  (forall n pool,
     nsteps (Concurrent.step Sample.oracle) n start pool -> (n <= 9 * 3)%nat) /\
  (forall ts w,
     rtc (Concurrent.step Sample.oracle) start (ts, w) ->
     length ts = 3%nat /\
     (length (requestUrls (trace w)) <= 1)%nat /\
     (forall p r, p ∈ ts -> Concurrent.result p = Some r -> r = ("T1", None)) /\
     (Concurrent.stuck Sample.oracle (ts, w) ->
        Forall (fun p => Concurrent.result p = Some ("T1", None)) ts /\
        ((0 < 3)%nat -> requestUrls (trace w) = [url]))).
Proof.
  split.
  - split; [|split]; vm_compute; reflexivity.
  - apply (SingleFlight.single_flight Sample.unmarshalTokenResult Sample.QueryEscape
             Sample.ctx 3
             (Sample.state ∅ [inl (Sample.ok (Sample.tokenBody "T1" "7200"))] [] [])
             (Sample.ok (Sample.tokenBody "T1" "7200")) [] "T1" 7200);
      vm_compute; reflexivity.
Defined.

(** ** Schedules, and the race when the issuer fails *)

Lemma scheduled_rtc {S A : Type} (O : Oracle S) (order : list nat)
    (pool pool' : Concurrent.Pool (S := S) (A := A)) :
  scheduled O order pool = Some pool' -> rtc (Concurrent.step O) pool pool'.
Proof.
  revert pool. induction order as [|i order IH]; intros [ts w] Hs; simpl in Hs.
  - injection Hs as <-. done.
  - destruct (ts !! i) as [p|] eqn:Hi; [|done].
    destruct (Concurrent.stepThread O p w) as [[p' w']|] eqn:Hp; [|done].
    eapply rtc_l; [|by apply IH]. by eapply Concurrent.step_thread.
Qed.

Lemma returned_stuck {S A : Type} (O : Oracle S) (ts : list (Prog A)) (w : World S) :
  Forall (fun p => is_Some (Concurrent.result p)) ts -> Concurrent.stuck O (ts, w).
Proof.
  intros Hall pool' Hstep. inversion Hstep as [? ? i p p' w' Hi Hp]; subst.
  rewrite Forall_lookup in Hall. destruct (Hall i p Hi) as [r Hr].
  destruct p; simpl in *; done.
Qed.

(** C3 as stated fails where the issuer's first answer is an error: two
    threads call [GetAccessToken] on the empty cache; the first to hold the
    mutex gets the error and saves nothing, so the second asks the issuer
    again.  The issuer is called twice and the two calls return different
    values. *)
Lemma issuer_failure_is_asked_again :
  let s0 := Sample.state ∅ [inl Sample.unavailable;
                            inl (Sample.ok (Sample.tokenBody "T1" "7200"))] [] [] in
  let start :=
    (replicate 2 (GetAccessToken Sample.unmarshalTokenResult Sample.QueryEscape Sample.ctx),
     Sample.world s0 []) in
  (Sample.fetch "wx1" s0).1.1 = EmptyString /\
  exists ts w e,
    rtc (Concurrent.step Sample.oracle) start (ts, w) /\
    Concurrent.stuck Sample.oracle (ts, w) /\
    Concurrent.result <$> ts = [Some (EmptyString, Some e); Some ("T1", None)] /\
    length (requestUrls (trace w)) = 2%nat.
Proof.
  intros s0 start. split; [reflexivity|].
  destruct (scheduled Sample.oracle [0; 1; 0; 0; 0; 0; 0; 1; 1; 1; 1; 1; 1]%nat start)
    as [[ts w]|] eqn:Hs; [|by vm_compute in Hs].
  pose proof (scheduled_rtc _ _ _ _ Hs) as Hrtc.
  vm_compute in Hs. injection Hs as <- <-.
  eexists _, _, _. split; [exact Hrtc|]. split.
  - apply returned_stuck. repeat constructor; eexists; reflexivity.
  - split; reflexivity.
Qed.

(** * More of the code *)

(** ** The lifetime kept in the cache *)

Module Float64Signs.
Import Float64 Float64Facts.

(** The sign goes through the rounding untouched. *)
Lemma binary_round_aux_opp (m : Z) (e : Z) (l : location) :
  binary_round_aux prec emax true m e l = SFopp (binary_round_aux prec emax false m e l).
Proof.
  unfold binary_round_aux.
  destruct (shr_fexp prec emax m e l) as [mrs' e'].
  destruct (shr_fexp prec emax _ e' loc_Exact) as [mrs'' e''].
  destruct (shr_m mrs''); [done| |done].
  destruct (e'' <=? emax - prec); done.
Qed.

Lemma of_int_opp (p : positive) : of_int (Z.neg p) = SFopp (of_int (Z.pos p)).
Proof.
  unfold of_int, binary_normalize, binary_round.
  destruct (shl_align p 0 _) as [mz ez]. apply binary_round_aux_opp.
Qed.

Lemma mul_opp (s : bool) (m : positive) (e : Z) :
  mul c0_9 (SFopp (S754_finite s m e)) = SFopp (mul c0_9 (S754_finite s m e)).
Proof.
  rewrite c0_9_value. unfold mul, SFmul. simpl.
  destruct s; simpl; rewrite binary_round_aux_opp; [|done].
  by destruct (binary_round_aux prec emax false _ _ _) as [[]|[]| |[] ? ?].
Qed.

Lemma to_int_opp (f : spec_float) :
  - 2 ^ 63 < to_int f -> to_int (SFopp f) = - to_int f.
Proof.
  destruct f as [s|s| |s m e]; simpl; try lia; try done.
  set (a := if 0 <=? e then Z.pos m * 2 ^ e else Z.pos m / 2 ^ (- e)).
  destruct s; simpl.
  - destruct (Z.leb_spec (- 2 ^ 63) (- a)); simpl; [|lia].
    destruct (Z.ltb_spec (- a) (2 ^ 63)); simpl; [|lia]. intros Hlt.
    rewrite fits_int64 by lia. lia.
  - destruct (Z.leb_spec (- 2 ^ 63) a); simpl; [|lia].
    destruct (Z.ltb_spec a (2 ^ 63)); simpl; [|lia]. intros Hlt.
    rewrite fits_int64 by lia. done.
Qed.

Lemma shrink_opp (p : positive) :
  Z.pos p < 2 ^ 34 -> shrink (Z.neg p) = - shrink (Z.pos p).
Proof.
  intros Hp. pose proof (shrink_spec (Z.pos p) ltac:(lia)) as Hs.
  assert (0 <= 9 * Z.pos p / 10) by (apply Z.div_pos; lia).
  unfold shrink in *. rewrite of_int_opp.
  destruct (of_int_pos p (Z.pos (digits2_pos p))) as (mz & Ho & _);
    [done|pose proof (digits_le p 34); lia|].
  rewrite Ho in *. rewrite mul_opp. apply to_int_opp. lia.
Qed.

End Float64Signs.

(** X1.  [int(0.9 * float64(expiresIn))] discards the fraction towards
    zero, on both sides of it: for a lifetime of fewer than 34 binary
    digits, negative ones included, it is the quotient of [9 * expiresIn]
    by 10 truncated towards zero. *)
Theorem shrink_truncates_toward_zero (n : Z) :
  - 2 ^ 34 < n < 2 ^ 34 -> shrink n = Z.quot (9 * n) 10.
Proof.
  intros Hn. destruct n as [|p|p].
  - done.
  - rewrite Float64Facts.shrink_spec by lia. symmetry. apply Z.quot_div_nonneg; lia.
  - rewrite Float64Signs.shrink_opp by lia. rewrite Float64Facts.shrink_spec by lia.
    change (9 * Z.neg p) with (- (9 * Z.pos p)). rewrite Z.quot_opp_l by lia.
    f_equal. symmetry. apply Z.quot_div_nonneg; lia.
Qed.

(** X2.  For a positive lifetime reported by the issuer the lifetime
    kept is never negative and strictly shorter, grows with the reported
    one, is the whole number of seconds in nine tenths of it, and is zero
    exactly when the issuer reported one second. *)
Theorem shrunk_lifetime_is_shorter (n m : Z) :
  0 < n <= m -> m < 2 ^ 34 ->
  0 <= shrink n < n /\
  shrink n <= shrink m /\
  (shrink n = 0 <-> n = 1) /\
  10 * shrink n <= 9 * n < 10 * shrink n + 10.
Proof.
  intros Hn Hm. rewrite !Float64Facts.shrink_spec by lia.
  pose proof (Z.div_mod (9 * n) 10 ltac:(lia)).
  pose proof (Z.mod_pos_bound (9 * n) 10 ltac:(lia)).
  pose proof (Z.div_le_mono (9 * n) (9 * m) 10 ltac:(lia) ltac:(lia)).
  repeat split; lia.
Qed.

(** X3.  [time.Duration(n) * time.Second] is the exact number of
    nanoseconds exactly when [n] is at most 9223372036 in absolute value;
    beyond, the product wraps around in its 64 bits. *)
Theorem seconds_exact_range (k : Z) :
  - 2 ^ 63 <= k < 2 ^ 63 ->
  (seconds k = k * Second <-> - 9223372036 <= k <= 9223372036).
Proof.
  intros Hk. unfold seconds. rewrite (Float64Facts.wrap64_small k) by done. split.
  - intros He. unfold wrap64 in He.
    pose proof (Z.mod_pos_bound (k * Second + 2 ^ 63) (2 ^ 64) ltac:(lia)).
    unfold Second in *. lia.
  - intros Hr. apply Float64Facts.wrap64_small. unfold Second. lia.
Qed.

Lemma shrink_truncates_toward_zero_witness :
  shrink (-7205) = Z.quot (9 * -7205) 10.
Proof.
  apply (shrink_truncates_toward_zero (-7205)). split; reflexivity.
Defined.

Lemma shrunk_lifetime_is_shorter_witness :
  0 <= shrink 1 < 1 /\
  shrink 1 <= shrink 7200 /\
  (shrink 1 = 0 <-> 1 = 1) /\
  10 * shrink 1 <= 9 * 1 < 10 * shrink 1 + 10.
Proof.
  apply (shrunk_lifetime_is_shorter 1 7200); [lia|reflexivity].
Defined.

Lemma seconds_exact_range_witness :
  seconds 9223372036 = 9223372036 * Second <-> - 9223372036 <= 9223372036 <= 9223372036.
Proof.
  apply (seconds_exact_range 9223372036). split; [discriminate|reflexivity].
Defined.

(** ** [applyAccessToken] *)

Lemma prefix_self_append (s t : string) : String.prefix s (s +:+ t) = true.
Proof.
  induction s as [|c s IH]; simpl; [by destruct t|].
  destruct (Ascii.ascii_dec c c); [done|done].
Qed.

Section Apply.

Context {S : Type} (O : Oracle S).

#[local] Arguments Contains : simpl never.
#[local] Arguments String.append : simpl never.

(** X4.  When the handler answers a token, [applyAccessToken] calls it
    once and does nothing else; the new URL is the old one, kept whole as a
    prefix, then an ampersand when the old URL has a question mark and a
    question mark when it has none, then the [access_token] parameter with
    the token as the handler gave it (not escaped).  The new URL always has
    a question mark. *)
Theorem applyAccessToken_appends (client : Client) (oldUrl : string) (w : World S)
    (accessToken : string) (s : S) :
  token_handler O (Ctx client) (ext w) = (accessToken, None, s) ->
  exists newUrl w',
    run O (applyAccessToken client oldUrl) w = Some (newUrl, None, w') /\
    trace w' = trace w ++ [ETokenHandler (Ctx client) (accessToken, None)] /\
    newUrl =
      oldUrl +:+ (if Contains oldUrl "?" then "&" else "?") +:+
      "access_token=" +:+ accessToken /\
    String.prefix oldUrl newUrl = true /\
    Contains newUrl "?" = true.
Proof.
  intros Ht. unfold applyAccessToken. simpl. rewrite Ht. simpl.
  destruct (Contains oldUrl "?") eqn:Hc; simpl.
  - eexists _, _. split; [done|]. split; [done|]. split; [done|].
    split; [apply prefix_self_append|]. by apply Contains_append_l.
  - eexists _, _. split; [done|]. split; [done|]. split; [done|].
    split; [apply prefix_self_append|]. by apply Contains_append_r.
Qed.

End Apply.

Lemma applyAccessToken_appends_witness :
  let w := Sample.world (Sample.state ∅ [] [("T1", None)] []) [] in
  exists newUrl w',
    run Sample.oracle (applyAccessToken Sample.client "/cgi-bin/user/get?next_openid=") w =
      Some (newUrl, None, w') /\
    trace w' = trace w ++ [ETokenHandler (Ctx Sample.client) ("T1", None)] /\
    newUrl =
      "/cgi-bin/user/get?next_openid=" +:+
      (if Contains "/cgi-bin/user/get?next_openid=" "?" then "&" else "?") +:+
      "access_token=" +:+ "T1" /\
    String.prefix "/cgi-bin/user/get?next_openid=" newUrl = true /\
    Contains newUrl "?" = true.
Proof.
  apply (applyAccessToken_appends Sample.oracle Sample.client
           "/cgi-bin/user/get?next_openid="
           (Sample.world (Sample.state ∅ [] [("T1", None)] []) [])
           "T1" (Sample.state ∅ [] [] [])).
  reflexivity.
Defined.

(** ** More on the response filter *)

(** X5.  [responseFilter] answers [NeedRefreshAccessTokenError] in one
    case only: status 200, a body read without error, an envelope decoded
    from it, and an errcode of the table, 40001 or 40014.  A status other
    than 200, a read error or a decoding error never lead to a retry. *)
Theorem sentinel_only_for_table_codes (unmarshal : list byte -> string + ErrorResponse)
    (response : Response) :
  (responseFilter unmarshal response).2 = Some NeedRefreshAccessTokenError <->
  StatusCode response = StatusOK /\
  body_err (Body response) = None /\
  exists envelope,
    unmarshal (body_data (Body response)) = inr envelope /\
    (Errcode envelope = 40001 \/ Errcode envelope = 40014).
Proof.
  unfold responseFilter, ReadAll.
  destruct (Z.eqb_spec (StatusCode response) StatusOK) as [Hs|Hs]; simpl.
  2:{ split; [done|]. intros [? _]. done. }
  destruct (body_err (Body response)) as [msg|]; simpl.
  { split; [done|]. intros (_ & ? & _). done. }
  destruct (unmarshal (body_data (Body response))) as [msg|envelope]; simpl.
  { split; [done|]. intros (_ & _ & ? & ? & _). done. }
  pose proof (WXInvalidErrorCode_known (Errcode envelope)) as Hk.
  destruct (WXInvalidErrorCode !! Errcode envelope) as [text|]; simpl.
  - split; [|done]. intros _. split; [done|]. split; [done|].
    exists envelope. split; [done|]. apply Hk. eauto.
  - split.
    + destruct (Errcode envelope =? 0); done.
    + intros (_ & _ & env & Heq & Hc). simplify_eq.
      apply Hk in Hc as [? ?]. done.
Qed.

(** X6.  [responseFilter] answers no error in one case only: status
    200, a body read without error, and an envelope decoded from it with
    errcode 0.  The bytes it returns are those read from the body whenever
    the status is 200, also beside an error, and none otherwise. *)
Theorem responseFilter_success (unmarshal : list byte -> string + ErrorResponse)
    (response : Response) :
  ((responseFilter unmarshal response).2 = None <->
   StatusCode response = StatusOK /\
   body_err (Body response) = None /\
   exists envelope,
     unmarshal (body_data (Body response)) = inr envelope /\ Errcode envelope = 0) /\
  (responseFilter unmarshal response).1 =
    (if StatusCode response =? StatusOK then body_data (Body response) else []).
Proof.
  unfold responseFilter, ReadAll.
  destruct (Z.eqb_spec (StatusCode response) StatusOK) as [Hs|Hs]; simpl.
  2:{ split; [|done]. split; [done|]. intros [? _]. done. }
  destruct (body_err (Body response)) as [msg|]; simpl.
  { split; [|done]. split; [done|]. intros (_ & ? & _). done. }
  destruct (unmarshal (body_data (Body response))) as [msg|envelope]; simpl.
  { split; [|done]. split; [done|]. intros (_ & _ & ? & ? & _). done. }
  pose proof (WXInvalidErrorCode_known (Errcode envelope)) as Hk.
  destruct (WXInvalidErrorCode !! Errcode envelope) as [text|]; simpl.
  - split; [|done]. split; [done|]. intros (_ & _ & env & Heq & Hc). simplify_eq.
    assert (Errcode env = 40001 \/ Errcode env = 40014) by (apply Hk; eauto). lia.
  - destruct (Z.eqb_spec (Errcode envelope) 0) as [Hz|Hz]; simpl.
    + split; [|done]. split; [|done]. intros _. eauto.
    + split; [|done]. split; [done|]. intros (_ & _ & env & Heq & Hc). by simplify_eq.
Qed.

(** X7.  With status 200, an error of the body's reader is returned
    as it is, beside the bytes read before it, and the decoder has no part
    in the result; an error of the decoder is returned as it is, beside the
    whole body. *)
Theorem responseFilter_passes_errors
    (unmarshal unmarshal' : list byte -> string + ErrorResponse) (response : Response) :
  StatusCode response = StatusOK ->
  (forall msg, body_err (Body response) = Some msg ->
     responseFilter unmarshal response =
       (body_data (Body response), Some (foreignError msg)) /\
     responseFilter unmarshal' response = responseFilter unmarshal response) /\
  (forall msg, body_err (Body response) = None ->
     unmarshal (body_data (Body response)) = inl msg ->
     responseFilter unmarshal response =
       (body_data (Body response), Some (foreignError msg))).
Proof.
  intros Hs. unfold responseFilter, ReadAll. rewrite Hs. simpl. split.
  - intros msg ->. done.
  - intros msg -> ->. done.
Qed.

Lemma responseFilter_passes_errors_witness :
  let response :=
    {| StatusCode := 200; Status := "200 OK";
       Body := {| body_data := Sample.payload; body_err := Some "unexpected EOF" |} |} in
  (forall msg, body_err (Body response) = Some msg ->
     responseFilter Sample.unmarshalErrorResponse response =
       (body_data (Body response), Some (foreignError msg)) /\
     responseFilter (fun _ => inl "never called") response =
       responseFilter Sample.unmarshalErrorResponse response) /\
  (forall msg, body_err (Body response) = None ->
     Sample.unmarshalErrorResponse (body_data (Body response)) = inl msg ->
     responseFilter Sample.unmarshalErrorResponse response =
       (body_data (Body response), Some (foreignError msg))).
Proof.
  apply (responseFilter_passes_errors Sample.unmarshalErrorResponse
           (fun _ => inl "never called")
           {| StatusCode := 200; Status := "200 OK";
              Body := {| body_data := Sample.payload;
                         body_err := Some "unexpected EOF" |} |}).
  reflexivity.
Defined.

(** ** The exchange with the issuer *)

Lemma tokenOfResponse_outcome (unmarshal : list byte -> string + TokenResult)
    (url : string) (response : Response) :
  let '(accessToken, expiresIn, err) := tokenOfResponse unmarshal url response in
  (err = None /\ accessToken <> EmptyString) \/
  (accessToken = EmptyString /\ expiresIn = 0 /\
   exists e, err = Some e /\ e <> NeedRefreshAccessTokenError).
Proof.
  unfold tokenOfResponse, ReadAll.
  destruct (negb (StatusCode response =? StatusOK)); [right; eauto|].
  destruct (body_err (Body response)); simpl; [right; eauto|].
  destruct (unmarshal (body_data (Body response))) as [msg|result]; [right; eauto|].
  destruct (AccessToken result) eqn:Ha; simpl; [right; eauto|].
  left. done.
Qed.

(** X8.  Of an answer of the issuer with status 200 and a readable
    body, only the token decides: a decoded answer with a non-empty
    [access_token] gives that token and its [expires_in] without error,
    whatever [errcode] and [errmsg] it carries; one without token gives an
    error whose text is the raw body; a body that cannot be decoded gives an
    error whose text is the raw body after the words Unmarshal error, and
    the decoder's own message is dropped. *)
Theorem issuer_answer_is_judged_by_its_token
    (unmarshal : list byte -> string + TokenResult) (url : string)
    (response : Response) :
  StatusCode response = StatusOK ->
  body_err (Body response) = None ->
  let raw := body_data (Body response) in
  (forall msg, unmarshal raw = inl msg ->
     exists e,
       tokenOfResponse unmarshal url response = (EmptyString, 0, Some e) /\
       errorText e = "Unmarshal error " +:+ string_of_list_byte raw) /\
  (forall result, unmarshal raw = inr result ->
     (AccessToken result <> EmptyString ->
      tokenOfResponse unmarshal url response =
        (AccessToken result, ExpiresIn result, None)) /\
     (AccessToken result = EmptyString ->
      exists e,
        tokenOfResponse unmarshal url response = (EmptyString, 0, Some e) /\
        errorText e = string_of_list_byte raw)).
Proof.
  intros Hs Hb raw. unfold tokenOfResponse, ReadAll. rewrite Hs, Hb. simpl. fold raw.
  split.
  - intros msg ->. eauto.
  - intros result ->. split.
    + intros Hne. destruct (AccessToken result); done.
    + intros ->. simpl. eauto.
Qed.

Section Issuer.

Context {S : Type} (O : Oracle S).
Variable unmarshalTokenResult : list byte -> string + TokenResult.
Variable QueryEscape : string -> string.

#[local] Arguments tokenOfResponse : simpl never.
#[local] Arguments tokenUrl : simpl never.

(** X9.  [refreshAccessTokenFromWXServer] always returns, after exactly
    one request, the one to the token URL of the identity, and it closes the
    body of the response if it got one, and only then.  It leaves the cache
    alone.  Its results are a non-empty token without error, or the empty
    token, the lifetime 0 and an error, which is never
    [NeedRefreshAccessTokenError]. *)
Theorem refresh_gives_token_or_error (appid secret : string) (w : World S) :
  exists accessToken expiresIn err w' t,
    run O (refreshAccessTokenFromWXServer unmarshalTokenResult QueryEscape appid secret) w =
      Some (accessToken, expiresIn, err, w') /\
    trace w' = trace w ++ t /\
    requestUrls t = [tokenUrl QueryEscape appid secret] /\
    closedOf t = received t /\
    cacheEvents t = [] /\
    ((err = None /\ accessToken <> EmptyString) \/
     (accessToken = EmptyString /\ expiresIn = 0 /\
      exists e, err = Some e /\ e <> NeedRefreshAccessTokenError)).
Proof.
  unfold refreshAccessTokenFromWXServer, returning. simpl.
  destruct (transport_get O _ (ext w)) as [[response|msg] s] eqn:Hg; simpl.
  - pose proof (tokenOfResponse_outcome unmarshalTokenResult
                  (tokenUrl QueryEscape appid secret) response) as Ho.
    destruct (tokenOfResponse _ _ response) as [[accessToken expiresIn] err].
    eexists _, _, _, _, _. split; [done|]. split; [traced|]. done.
  - eexists _, _, _, _, _. split; [done|]. split; [traced|].
    split; [done|]. split; [done|]. split; [done|]. right. eauto.
Qed.

End Issuer.

Lemma Contains_self_append (s t : string) : Contains (s +:+ t) s = true.
Proof.
  destruct s as [|c s]; simpl.
  - destruct t; done.
  - apply orb_true_iff. left. destruct (Ascii.ascii_dec c c); [|done].
    apply prefix_self_append.
Qed.

Lemma Contains_refl (s : string) : Contains s s = true.
Proof.
  destruct s as [|c s]; simpl; [done|].
  apply orb_true_iff. left. destruct (Ascii.ascii_dec c c); [|done].
  induction s as [|c' s IH]; simpl; [done|]. destruct (Ascii.ascii_dec c' c'); done.
Qed.

Section IssuerErrors.

Context {S : Type} (O : Oracle S).
Variable unmarshalTokenResult : list byte -> string + TokenResult.
Variable QueryEscape : string -> string.

#[local] Arguments Contains : simpl never.
#[local] Arguments String.append : simpl never.

(** X10.  When the issuer answers with a status other than 200, the
    body is closed unread and the error's text is GET, the token URL,
    RETURN and the status: the text carries the whole query of the request,
    the escaped application secret included. *)
Theorem issuer_status_error_names_the_url (appid secret : string) (w : World S)
    (response : Response) (s : S) :
  transport_get O (tokenUrl QueryEscape appid secret) (ext w) = (inl response, s) ->
  StatusCode response <> StatusOK ->
  exists e w',
    run O (refreshAccessTokenFromWXServer unmarshalTokenResult QueryEscape appid secret) w =
      Some (EmptyString, 0, Some e, w') /\
    trace w' =
      trace w ++ [EGet (tokenUrl QueryEscape appid secret) (inl response); EClose response] /\
    errorText e =
      "GET " +:+ tokenUrl QueryEscape appid secret +:+ " RETURN " +:+ Status response /\
    Contains (errorText e) (QueryEscape secret) = true.
Proof.
  intros Hg Hs. unfold refreshAccessTokenFromWXServer, returning.
  cbn [run handle bind mbind Prog_bind trigger]. rewrite Hg.
  cbn [run handle bind mbind Prog_bind trigger mret Prog_ret].
  unfold tokenOfResponse.
  destruct (Z.eqb_spec (StatusCode response) StatusOK) as [|_]; [done|]. cbn [negb].
  eexists _, _. split; [done|]. split; [unfold emit; traced|]. split; [done|].
  cbn [errorText]. unfold tokenUrl, tokenParams.
  apply Contains_append_r, Contains_append_l.
  repeat apply Contains_append_r. apply Contains_refl.
Qed.

End IssuerErrors.

Lemma issuer_answer_is_judged_by_its_token_witness :
  let response :=
    Sample.ok (Sample.json (Sample.field "access_token" +:+ Sample.dq +:+ "T1" +:+
                            Sample.dq +:+ "," +:+ Sample.field "expires_in" +:+ "7200," +:+
                            Sample.field "errcode" +:+ "40013")) in
  let raw := body_data (Body response) in
  (forall msg, Sample.unmarshalTokenResult raw = inl msg ->
     exists e,
       tokenOfResponse Sample.unmarshalTokenResult "u" response =
         (EmptyString, 0, Some e) /\
       errorText e = "Unmarshal error " +:+ string_of_list_byte raw) /\
  (forall result, Sample.unmarshalTokenResult raw = inr result ->
     (AccessToken result <> EmptyString ->
      tokenOfResponse Sample.unmarshalTokenResult "u" response =
        (AccessToken result, ExpiresIn result, None)) /\
     (AccessToken result = EmptyString ->
      exists e,
        tokenOfResponse Sample.unmarshalTokenResult "u" response =
          (EmptyString, 0, Some e) /\
        errorText e = string_of_list_byte raw)).
Proof.
  apply (issuer_answer_is_judged_by_its_token Sample.unmarshalTokenResult "u"
           (Sample.ok (Sample.json (Sample.field "access_token" +:+ Sample.dq +:+ "T1" +:+
                            Sample.dq +:+ "," +:+ Sample.field "expires_in" +:+ "7200," +:+
                            Sample.field "errcode" +:+ "40013")))); reflexivity.
Defined.

Lemma issuer_status_error_names_the_url_witness :
  let w := Sample.world (Sample.state ∅ [inl Sample.unavailable] [] []) [] in
  exists e w',
    run Sample.oracle
      (refreshAccessTokenFromWXServer Sample.unmarshalTokenResult Sample.QueryEscape
         "wx1" "s3") w = Some (EmptyString, 0, Some e, w') /\
    trace w' =
      trace w ++ [EGet (tokenUrl Sample.QueryEscape "wx1" "s3") (inl Sample.unavailable);
                  EClose Sample.unavailable] /\
    errorText e =
      "GET " +:+ tokenUrl Sample.QueryEscape "wx1" "s3" +:+ " RETURN " +:+
      Status Sample.unavailable /\
    Contains (errorText e) (Sample.QueryEscape "s3") = true.
Proof.
  apply (issuer_status_error_names_the_url Sample.oracle Sample.unmarshalTokenResult
           Sample.QueryEscape "wx1" "s3"
           (Sample.world (Sample.state ∅ [inl Sample.unavailable] [] []) [])
           Sample.unavailable (Sample.state ∅ [] [] [])).
  - reflexivity.
  - vm_compute. discriminate.
Defined.

(** ** More on the request layer *)

Section Calls.

Context {S : Type} (O : Oracle S).
Variable unmarshalErrorResponse : list byte -> string + ErrorResponse.

#[local] Arguments responseFilter : simpl never.
#[local] Arguments Contains : simpl never.
#[local] Arguments String.append : simpl never.

(** X11.  When the first token lookup of [HTTPGet] or [HTTPPost] fails,
    the handler's error is returned with no bytes; the lookup is the only
    effect of the call: nothing is requested, nothing is logged, the payload
    is not read. *)
Theorem no_token_no_request (client : Client) (uri : string) (payload : nat)
    (contentType : string) (p : Prog (list byte * option error)) (w : World S)
    (accessToken : string) (e : error) (s : S) :
  p = HTTPGet unmarshalErrorResponse client uri \/
  p = HTTPPost unmarshalErrorResponse client uri payload contentType ->
  token_handler O (Ctx client) (ext w) = (accessToken, Some e, s) ->
  exists w',
    run O p w = Some ([], Some e, w') /\
    trace w' = trace w ++ [ETokenHandler (Ctx client) (accessToken, Some e)] /\
    readers w' = readers w.
Proof.
  intros [-> | ->] Ht; unfold HTTPGet, HTTPPost, applyAccessToken; simpl; rewrite Ht; simpl.
  all: eexists; split; [done|]; split; done.
Qed.

(** X14.  The result of [HTTPGet] and [HTTPPost] is always what the
    filter makes of the last response received: of the second when there is
    one, of the first otherwise, also when the refresh, the second lookup or
    the second request failed.  A call that received no response returns no
    bytes and an error. *)
Theorem result_is_the_last_filtered (client : Client) (uri : string) (payload : nat)
    (contentType : string) (p : Prog (list byte * option error)) (w : World S) :
  p = HTTPGet unmarshalErrorResponse client uri \/
  p = HTTPPost unmarshalErrorResponse client uri payload contentType ->
  exists res w' t,
    run O p w = Some (res, w') /\
    trace w' = trace w ++ t /\
    (forall response, last (received t) = Some response ->
       res = responseFilter unmarshalErrorResponse response) /\
    (received t = [] -> res.1 = [] /\ is_Some res.2).
Proof.
  intros [-> | ->]; unfold HTTPGet, HTTPPost, applyAccessToken, returning.
  all: exec.
  all: eexists _, _, _; split; [done|]; split; [traced|].
  all: split; [intros ? Hl; simplify_eq/=; try done|intros Hr; simplify_eq/=; try done].
Qed.

(** X12.  When the transport fails on the first request of [HTTPGet]
    or [HTTPPost], its error is returned with no bytes; there is no second
    request, the refresh handler is not called and nothing is closed. *)
Theorem transport_failure_is_returned (client : Client) (uri : string) (payload : nat)
    (contentType : string) (p : Prog (list byte * option error)) (w : World S) :
  p = HTTPGet unmarshalErrorResponse client uri \/
  p = HTTPPost unmarshalErrorResponse client uri payload contentType ->
  exists res w' t,
    run O p w = Some (res, w') /\
    trace w' = trace w ++ t /\
    forall msg rest,
      responsesOf t = inr msg :: rest ->
      res = ([], Some (foreignError msg)) /\
      rest = [] /\
      refreshAnswers t = [] /\
      closedOf t = [].
Proof.
  intros [-> | ->]; unfold HTTPGet, HTTPPost, applyAccessToken, returning.
  all: exec.
  all: eexists _, _, _; split; [done|]; split; [traced|].
  all: intros msg rest Hr; simplify_eq/=; done.
Qed.

(** X13.  When the first response of [HTTPGet] or [HTTPPost] is not the
    retryable credential failure, whatever else it is, the call returns what
    the filter makes of it: one token lookup, one request, no refresh, and
    the body of that response closed. *)
Theorem no_retry_without_the_sentinel (client : Client) (uri : string) (payload : nat)
    (contentType : string) (p : Prog (list byte * option error)) (w : World S) :
  p = HTTPGet unmarshalErrorResponse client uri \/
  p = HTTPPost unmarshalErrorResponse client uri payload contentType ->
  exists res w' t,
    run O p w = Some (res, w') /\
    trace w' = trace w ++ t /\
    forall response rest,
      responsesOf t = inl response :: rest ->
      retryable unmarshalErrorResponse response = false ->
      res = responseFilter unmarshalErrorResponse response /\
      rest = [] /\
      refreshAnswers t = [] /\
      length (tokenAnswers t) = 1%nat /\
      closedOf t = [response].
Proof.
  intros [-> | ->]; unfold HTTPGet, HTTPPost, applyAccessToken, returning.
  all: exec.
  all: eexists _, _, _; split; [done|]; split; [traced|].
  all: intros response rest Hr Hn; simplify_eq/=.
  all: unfold retryable in *.
  all: repeat match goal with
         | H : responseFilter _ _ = _ |- _ => rewrite H in *; clear H
         end; simplify_eq/=.
  all: try done.
  all: congruence.
Qed.

(** X15.  [HTTPGet] and [HTTPPost] close the body of every response
    they receive, each once, the later one first, and the closes are the
    last effects of the call. *)
Theorem every_response_is_closed (client : Client) (uri : string) (payload : nat)
    (contentType : string) (p : Prog (list byte * option error)) (w : World S) :
  p = HTTPGet unmarshalErrorResponse client uri \/
  p = HTTPPost unmarshalErrorResponse client uri payload contentType ->
  exists res w' t,
    run O p w = Some (res, w') /\
    trace w' = trace w ++ t /\
    closedOf t = rev (received t) /\
    t = filter (fun f => isClose f = false) t ++ (EClose <$> closedOf t).
Proof.
  intros [-> | ->]; unfold HTTPGet, HTTPPost, applyAccessToken, returning.
  all: exec.
  all: eexists _, _, _; split; [done|]; split; [traced|].
  all: split; done.
Qed.

(** X16.  The first request of [HTTPGet] and [HTTPPost] goes to
    [WXServerUrl] followed by the URI given and the [access_token]
    parameter with the token of the first lookup, after an ampersand when
    the URI has a question mark and after a question mark when it has
    none. *)
Theorem first_request_url (client : Client) (uri : string) (payload : nat)
    (contentType : string) (p : Prog (list byte * option error)) (w : World S) :
  p = HTTPGet unmarshalErrorResponse client uri \/
  p = HTTPPost unmarshalErrorResponse client uri payload contentType ->
  exists res w' t,
    run O p w = Some (res, w') /\
    trace w' = trace w ++ t /\
    forall u rest,
      requestUrls t = u :: rest ->
      exists accessToken,
        head (tokenAnswers t) = Some (accessToken, None) /\
        u = WXServerUrl +:+ uri +:+ (if Contains uri "?" then "&" else "?") +:+
            "access_token=" +:+ accessToken.
Proof.
  intros [-> | ->]; unfold HTTPGet, HTTPPost, applyAccessToken, returning.
  all: exec.
  all: eexists _, _, _; split; [done|]; split; [traced|].
  all: intros u rest Hu; simplify_eq/=.
  all: eexists; split; [done|].
  all: repeat match goal with
         | H : Contains _ _ = _ |- _ => rewrite H; clear H
         end; done.
Qed.

(** X17.  The lookups, requests and refreshes of a call of [HTTPGet] or
    [HTTPPost] are a non-empty beginning of: lookup, request, refresh,
    lookup, request.  So there are at most two requests and one refresh,
    each request has a lookup of its own before it, and the refresh comes
    between the two.  The call itself uses neither the cache nor the
    mutex. *)
Theorem call_follows_the_protocol (client : Client) (uri : string) (payload : nat)
    (contentType : string) (p : Prog (list byte * option error)) (w : World S) :
  p = HTTPGet unmarshalErrorResponse client uri \/
  p = HTTPPost unmarshalErrorResponse client uri payload contentType ->
  exists res w' t,
    run O p w = Some (res, w') /\
    trace w' = trace w ++ t /\
    stepsOf t `prefix_of` [Lookup; Request; Refresh; Lookup; Request] /\
    stepsOf t <> [] /\
    cacheEvents t = [] /\
    mutexEvents t = [] /\
    locked w' = locked w.
Proof.
  intros [-> | ->]; unfold HTTPGet, HTTPPost, applyAccessToken, returning.
  all: exec.
  all: eexists _, _, _; split; [done|]; split; [traced|].
  all: split; [by eexists|done].
Qed.

(** X18.  With a logger, [HTTPGet] and [HTTPPost] write one line for
    each request they send, and its argument is the URI requested, access
    token included; without one they write nothing. *)
Theorem requests_are_logged (client : Client) (uri : string) (payload : nat)
    (contentType : string) (p : Prog (list byte * option error)) (w : World S) :
  p = HTTPGet unmarshalErrorResponse client uri \/
  p = HTTPPost unmarshalErrorResponse client uri payload contentType ->
  exists res w' t,
    run O p w = Some (res, w') /\
    trace w' = trace w ++ t /\
    (Logger (Ctx client) = true ->
     requestUrls t = (fun u => WXServerUrl +:+ u) <$> loggedUris t /\
     length (logLines t) = length (requestUrls t) /\
     Forall (fun u => Contains u "access_token=" = true) (loggedUris t)) /\
    (Logger (Ctx client) = false -> logLines t = []).
Proof.
  intros [-> | ->]; unfold HTTPGet, HTTPPost, applyAccessToken, returning.
  all: exec.
  all: eexists _, _, _; split; [done|]; split; [traced|].
  all: split; intros Hl; try done.
  all: split; [done|]; split; [done|].
  all: repeat apply Forall_cons_2; try apply Forall_nil_2.
  all: apply Contains_append_r, Contains_append_l; done.
Qed.

(** X19.  [HTTPGet] reads no reader and sends no post.  All requests of
    [HTTPPost] are posts of its one payload: the other readers are left as
    they were, and the bytes the payload had unread are the bytes sent, in
    order, followed by those it has left. *)
Theorem only_the_payload_is_read (client : Client) (uri : string) (payload : nat)
    (contentType : string) (w : World S) :
  (exists res w' t,
     run O (HTTPGet unmarshalErrorResponse client uri) w = Some (res, w') /\
     trace w' = trace w ++ t /\
     readers w' = readers w /\
     postBodies t = []) /\
  (exists res w' t,
     run O (HTTPPost unmarshalErrorResponse client uri payload contentType) w =
       Some (res, w') /\
     trace w' = trace w ++ t /\
     length (readers w') = length (readers w) /\
     (forall i, i <> payload -> readers w' !! i = readers w !! i) /\
     length (postBodies t) = length (requestUrls t) /\
     Forall (fun b => b.1 = payload) (postBodies t) /\
     default [] (readers w !! payload) =
       concat ((postBodies t).*2) ++ default [] (readers w' !! payload)).
Proof.
  split.
  - unfold HTTPGet, applyAccessToken, returning.
    exec.
    all: eexists _, _, _; split; [done|]; split; [traced|]; done.
  - unfold HTTPPost, applyAccessToken, returning.
    exec.
    all: eexists _, _, _; split; [done|]; split; [traced|].
    all: simpl; rewrite ?length_insert; split; [done|].
    all: split; [intros i Hi; by rewrite ?list_lookup_insert_ne|].
    all: split; [done|].
    all: split; [repeat apply Forall_cons_2; try apply Forall_nil_2; done|].
    all: simpl; rewrite ?app_nil_r; try done.
    all: rewrite ?reader_after, ?reader_twice, <- ?app_assoc, ?take_drop; done.
Qed.

End Calls.

Lemma no_token_no_request_witness :
  let w := Sample.world (Sample.state ∅ [inl (Sample.ok Sample.dataBody)] [] []) [] in
  exists w',
    run Sample.oracle
      (HTTPPost Sample.unmarshalErrorResponse Sample.client "/cgi-bin/menu/create"
         0%nat "application/json") w =
      Some ([], Some (foreignError "no handler"), w') /\
    trace w' =
      trace w ++ [ETokenHandler (Ctx Sample.client)
                    (EmptyString, Some (foreignError "no handler"))] /\
    readers w' = readers w.
Proof.
  apply (no_token_no_request Sample.oracle Sample.unmarshalErrorResponse Sample.client
           "/cgi-bin/menu/create" 0%nat "application/json" _
           (Sample.world (Sample.state ∅ [inl (Sample.ok Sample.dataBody)] [] []) [])
           EmptyString (foreignError "no handler")
           (Sample.state ∅ [inl (Sample.ok Sample.dataBody)] [] [])).
  - right. reflexivity.
  - reflexivity.
Defined.

Lemma result_is_the_last_filtered_witness :
  let w := Sample.world Sample.retryState [] in
  exists res w' t,
    run Sample.oracle
      (HTTPGet Sample.unmarshalErrorResponse Sample.client "/cgi-bin/menu/get") w =
      Some (res, w') /\
    trace w' = trace w ++ t /\
    (forall response, last (received t) = Some response ->
       res = responseFilter Sample.unmarshalErrorResponse response) /\
    (received t = [] -> res.1 = [] /\ is_Some res.2).
Proof.
  apply (result_is_the_last_filtered Sample.oracle Sample.unmarshalErrorResponse
           Sample.client "/cgi-bin/menu/get" 0%nat EmptyString).
  left. reflexivity.
Defined.

Lemma transport_failure_is_returned_witness :
  let w := Sample.world (Sample.state ∅ [] [("T1", None)] []) [] in
  exists res w' t,
    run Sample.oracle
      (HTTPGet Sample.unmarshalErrorResponse Sample.client "/cgi-bin/menu/get") w =
      Some (res, w') /\
    trace w' = trace w ++ t /\
    forall msg rest,
      responsesOf t = inr msg :: rest ->
      res = ([], Some (foreignError msg)) /\
      rest = [] /\
      refreshAnswers t = [] /\
      closedOf t = [].
Proof.
  apply (transport_failure_is_returned Sample.oracle Sample.unmarshalErrorResponse
           Sample.client "/cgi-bin/menu/get" 0%nat EmptyString).
  left. reflexivity.
Defined.

Lemma no_retry_without_the_sentinel_witness :
  let w := Sample.world
             (Sample.state ∅ [inl (Sample.ok (Sample.errorBody "45009" "quota"))]
                [("T1", None)] []) [] in
  exists res w' t,
    run Sample.oracle
      (HTTPGet Sample.unmarshalErrorResponse Sample.client "/cgi-bin/menu/get") w =
      Some (res, w') /\
    trace w' = trace w ++ t /\
    forall response rest,
      responsesOf t = inl response :: rest ->
      retryable Sample.unmarshalErrorResponse response = false ->
      res = responseFilter Sample.unmarshalErrorResponse response /\
      rest = [] /\
      refreshAnswers t = [] /\
      length (tokenAnswers t) = 1%nat /\
      closedOf t = [response].
Proof.
  apply (no_retry_without_the_sentinel Sample.oracle Sample.unmarshalErrorResponse
           Sample.client "/cgi-bin/menu/get" 0%nat EmptyString).
  left. reflexivity.
Defined.

Lemma every_response_is_closed_witness :
  let w := Sample.world Sample.retryState [Sample.payload] in
  exists res w' t,
    run Sample.oracle
      (HTTPPost Sample.unmarshalErrorResponse Sample.client "/cgi-bin/menu/create"
         0%nat "application/json") w = Some (res, w') /\
    trace w' = trace w ++ t /\
    closedOf t = rev (received t) /\
    t = filter (fun f => isClose f = false) t ++ (EClose <$> closedOf t).
Proof.
  apply (every_response_is_closed Sample.oracle Sample.unmarshalErrorResponse
           Sample.client "/cgi-bin/menu/create" 0%nat "application/json").
  right. reflexivity.
Defined.

Lemma first_request_url_witness :
  let w := Sample.world Sample.retryState [] in
  exists res w' t,
    run Sample.oracle
      (HTTPGet Sample.unmarshalErrorResponse Sample.client
         "/cgi-bin/user/get?next_openid=") w = Some (res, w') /\
    trace w' = trace w ++ t /\
    forall u rest,
      requestUrls t = u :: rest ->
      exists accessToken,
        head (tokenAnswers t) = Some (accessToken, None) /\
        u = WXServerUrl +:+ "/cgi-bin/user/get?next_openid=" +:+
            (if Contains "/cgi-bin/user/get?next_openid=" "?" then "&" else "?") +:+
            "access_token=" +:+ accessToken.
Proof.
  apply (first_request_url Sample.oracle Sample.unmarshalErrorResponse
           Sample.client "/cgi-bin/user/get?next_openid=" 0%nat EmptyString).
  left. reflexivity.
Defined.

Lemma call_follows_the_protocol_witness :
  let w := Sample.world Sample.retryState [Sample.payload] in
  exists res w' t,
    run Sample.oracle
      (HTTPPost Sample.unmarshalErrorResponse Sample.client "/cgi-bin/menu/create"
         0%nat "application/json") w = Some (res, w') /\
    trace w' = trace w ++ t /\
    stepsOf t `prefix_of` [Lookup; Request; Refresh; Lookup; Request] /\
    stepsOf t <> [] /\
    cacheEvents t = [] /\
    mutexEvents t = [] /\
    locked w' = locked w.
Proof.
  apply (call_follows_the_protocol Sample.oracle Sample.unmarshalErrorResponse
           Sample.client "/cgi-bin/menu/create" 0%nat "application/json").
  right. reflexivity.
Defined.

Lemma requests_are_logged_witness :
  let w := Sample.world Sample.retryState [] in
  let client := {| Ctx := {| Config := Config Sample.ctx; Logger := true |} |} in
  exists res w' t,
    run Sample.oracle
      (HTTPGet Sample.unmarshalErrorResponse client "/cgi-bin/menu/get") w =
      Some (res, w') /\
    trace w' = trace w ++ t /\
    (Logger (Ctx client) = true ->
     requestUrls t = (fun u => WXServerUrl +:+ u) <$> loggedUris t /\
     length (logLines t) = length (requestUrls t) /\
     Forall (fun u => Contains u "access_token=" = true) (loggedUris t)) /\
    (Logger (Ctx client) = false -> logLines t = []).
Proof.
  apply (requests_are_logged Sample.oracle Sample.unmarshalErrorResponse
           {| Ctx := {| Config := Config Sample.ctx; Logger := true |} |}
           "/cgi-bin/menu/get" 0%nat EmptyString).
  left. reflexivity.
Defined.

(** ** More on the access token manager *)

Section Tokens.

Context {S : Type} (O : Oracle S).
Variable unmarshalTokenResult : list byte -> string + TokenResult.
Variable QueryEscape : string -> string.
Variable ctx : OffiAccount.

Abbreviation appid := (Appid (Config ctx)).
Abbreviation url := (tokenUrl QueryEscape (Appid (Config ctx)) (Secret (Config ctx))).

#[local] Arguments tokenOfResponse : simpl never.
#[local] Arguments tokenUrl : simpl never.
#[local] Arguments shrink : simpl never.
#[local] Arguments seconds : simpl never.
#[local] Arguments String.append : simpl never.

(** X20.  When the first fetch of [GetAccessToken] finds nothing and
    the second, made with the mutex held, finds a token, that token is
    returned with the error the cache gave beside it; the effects are the two
    fetches and the lock and unlock around the second; the issuer is not
    asked. *)
Theorem GetAccessToken_second_fetch_hit (w : World S) (err1 err2 : option error)
    (accessToken : string) (s1 s2 : S) :
  locked w = false ->
  cache_fetch O appid (ext w) = (EmptyString, err1, s1) ->
  cache_fetch O appid s1 = (accessToken, err2, s2) ->
  accessToken <> EmptyString ->
  exists w',
    run O (GetAccessToken unmarshalTokenResult QueryEscape ctx) w =
      Some (accessToken, err2, w') /\
    trace w' =
      trace w ++ [EFetch appid (EmptyString, err1); ELock;
                  EFetch appid (accessToken, err2); EUnlock] /\
    locked w' = false /\
    ext w' = s2.
Proof.
  intros Hl Hf1 Hf2 Hne.
  unfold GetAccessToken, GetAccessToken_locked, returning. simpl.
  rewrite Hf1. simpl. rewrite Hl. simpl. rewrite Hf2.
  destruct accessToken; [done|]. simpl.
  eexists. split; [done|]. split; [traced|]. done.
Qed.

(** X21.  When both fetches of [GetAccessToken] find nothing, the
    request to the token URL follows the second fetch and the results are
    the token and the error [refreshAccessTokenFromWXServer] returns for the
    transport's answer: an error the cache gave beside an empty value is
    dropped, and so is the outcome of the save. *)
Theorem cold_cache_result_is_the_issuers (w : World S) (err1 err2 : option error)
    (s1 s2 : S) :
  locked w = false ->
  cache_fetch O appid (ext w) = (EmptyString, err1, s1) ->
  cache_fetch O appid s1 = (EmptyString, err2, s2) ->
  exists res w' r rest,
    run O (GetAccessToken unmarshalTokenResult QueryEscape ctx) w = Some (res, w') /\
    trace w' =
      trace w ++ EFetch appid (EmptyString, err1) :: ELock ::
                 EFetch appid (EmptyString, err2) :: EGet url r :: rest /\
    (transport_get O url s2).1 = r /\
    res = ((issuerOutcome unmarshalTokenResult url r).1.1,
           (issuerOutcome unmarshalTokenResult url r).2).
Proof.
  intros Hl Hf1 Hf2.
  unfold GetAccessToken, GetAccessToken_locked, refreshAndSave,
    refreshAccessTokenFromWXServer, saveToken, returning. simpl.
  rewrite Hf1. simpl. rewrite Hl. simpl. rewrite Hf2. simpl.
  destruct (transport_get O url s2) as [[response|msg] s3] eqn:Hg; simpl.
  - destruct (tokenOfResponse unmarshalTokenResult url response)
      as [[accessToken expiresIn] [e|]] eqn:Hd; simpl.
    + eexists _, _, _, _. split; [done|]. split; [traced|]. simpl. by rewrite Hd.
    + destruct (cache_save O appid accessToken _ s3) as [sres s4]. unfold logPrintf.
      destruct (Logger ctx); simpl.
      all: eexists _, _, _, _; split; [done|]; split; [traced|]; simpl; by rewrite Hd.
  - eexists _, _, _, _. split; [done|]. split; [traced|]. done.
Qed.

(** X22.  Whenever [NoticeRefreshAccessToken] or [GetAccessToken]
    returns an error, nothing was saved and nothing was logged during the
    call; for [NoticeRefreshAccessToken] the token returned is then
    empty. *)
Theorem failed_refresh_saves_nothing (w : World S) :
  locked w = false ->
  (exists res w' t,
     run O (NoticeRefreshAccessToken unmarshalTokenResult QueryEscape ctx) w =
       Some (res, w') /\
     trace w' = trace w ++ t /\
     (is_Some res.2 ->
      res.1 = EmptyString /\ savedEntries t = [] /\ logLines t = [])) /\
  (exists res w' t,
     run O (GetAccessToken unmarshalTokenResult QueryEscape ctx) w = Some (res, w') /\
     trace w' = trace w ++ t /\
     (is_Some res.2 -> savedEntries t = [] /\ logLines t = [])).
Proof.
  intros Hl. split.
  - unfold NoticeRefreshAccessToken, refreshAndSave,
      refreshAccessTokenFromWXServer, saveToken, returning. simpl. rewrite Hl. simpl.
    destruct (transport_get O url (ext w)) as [[response|msg] s3] eqn:Hg; simpl.
    + pose proof (tokenOfResponse_outcome unmarshalTokenResult url response) as Ho.
      destruct (tokenOfResponse unmarshalTokenResult url response)
        as [[accessToken expiresIn] [e|]] eqn:Hd; simpl.
      * eexists _, _, _. split; [done|]. split; [traced|]. intros _.
        destruct Ho as [[? _]|(-> & _)]; done.
      * destruct (cache_save O appid accessToken _ s3) as [sres s4]. unfold logPrintf.
        destruct (Logger ctx); simpl.
        all: eexists _, _, _; split; [done|]; split; [traced|].
        all: simpl; by intros [? ?].
    + eexists _, _, _. split; [done|]. split; [traced|]. done.
  - unfold GetAccessToken, GetAccessToken_locked, refreshAndSave,
      refreshAccessTokenFromWXServer, saveToken, returning. simpl.
    destruct (cache_fetch O appid (ext w)) as [[tok1 err1] s1]. simpl.
    destruct tok1; simpl.
    2:{ eexists _, _, _. split; [done|]. split; [traced|]. done. }
    rewrite Hl. simpl.
    destruct (cache_fetch O appid s1) as [[tok2 err2] s2]. simpl.
    destruct tok2; simpl.
    2:{ eexists _, _, _. split; [done|]. split; [traced|]. done. }
    destruct (transport_get O url s2) as [[response|msg] s3] eqn:Hg; simpl.
    + destruct (tokenOfResponse unmarshalTokenResult url response)
        as [[accessToken expiresIn] [e|]] eqn:Hd; simpl.
      * eexists _, _, _. split; [done|]. split; [traced|]. done.
      * destruct (cache_save O appid accessToken _ s3) as [sres s4]. unfold logPrintf.
        destruct (Logger ctx); simpl.
        all: eexists _, _, _; split; [done|]; split; [traced|].
        all: simpl; by intros [? ?].
    + eexists _, _, _. split; [done|]. split; [traced|]. done.
Qed.

Ltac manager :=
  unfold NoticeRefreshAccessToken, GetAccessToken, GetAccessToken_locked, refreshAndSave,
    refreshAccessTokenFromWXServer, saveToken, returning.

(** X23.  Started with the mutex free, both functions return and leave
    it free; every request and every save of the call happens between its
    lock and its unlock.  [NoticeRefreshAccessToken] locks first and unlocks
    last; [GetAccessToken] either never touches the mutex or locks once and
    unlocks last. *)
Theorem requests_and_saves_under_the_mutex (w : World S) :
  locked w = false ->
  (exists res w' t,
     run O (NoticeRefreshAccessToken unmarshalTokenResult QueryEscape ctx) w =
       Some (res, w') /\
     trace w' = trace w ++ t /\
     locked w' = false /\
     unguarded false t = [] /\
     mutexEvents t = [ELock; EUnlock] /\
     head t = Some ELock /\ last t = Some EUnlock) /\
  (exists res w' t,
     run O (GetAccessToken unmarshalTokenResult QueryEscape ctx) w = Some (res, w') /\
     trace w' = trace w ++ t /\
     locked w' = false /\
     unguarded false t = [] /\
     (mutexEvents t = [] \/ (mutexEvents t = [ELock; EUnlock] /\ last t = Some EUnlock))).
Proof.
  intros Hl. split.
  - manager. simpl. rewrite Hl. exec.
    all: eexists _, _, _; split; [done|]; split; [traced|]; done.
  - manager. exec.
    all: eexists _, _, _; split; [done|]; split; [traced|]; split; [done|].
    all: split; [done|]; auto.
Qed.

(** X24.  While the mutex is held, [NoticeRefreshAccessToken] cannot
    take a step, and [GetAccessToken] on an empty cache can take one, its
    first fetch, and then waits: neither returns, and the issuer is not
    asked. *)
Theorem refresh_waits_for_the_mutex (w : World S) (err : option error) (s : S) :
  locked w = true ->
  cache_fetch O appid (ext w) = (EmptyString, err, s) ->
  run O (NoticeRefreshAccessToken unmarshalTokenResult QueryEscape ctx) w = None /\
  run O (GetAccessToken unmarshalTokenResult QueryEscape ctx) w = None /\
  Concurrent.stepThread O (NoticeRefreshAccessToken unmarshalTokenResult QueryEscape ctx) w =
    None /\
  exists p w',
    Concurrent.stepThread O (GetAccessToken unmarshalTokenResult QueryEscape ctx) w =
      Some (p, w') /\
    trace w' = trace w ++ [EFetch appid (EmptyString, err)] /\
    Concurrent.stepThread O p w' = None /\
    Concurrent.result p = None.
Proof.
  intros Hl Hf. manager. simpl. rewrite Hl, Hf. simpl. rewrite Hl.
  split; [done|]. split; [done|]. split; [done|].
  eexists _, _. split; [done|]. simpl. rewrite Hl. done.
Qed.

(** X25.  Both functions write at most one log line, and none without
    a logger.  The line is written only in a call that returns without
    error; it carries the token returned, in clear, and the lifetime kept
    in seconds, the one the call's single save was given as a duration. *)
Theorem refresh_log_line (w : World S) :
  locked w = false ->
  (exists res w' t,
     run O (NoticeRefreshAccessToken unmarshalTokenResult QueryEscape ctx) w =
       Some (res, w') /\
     trace w' = trace w ++ t /\
     (Logger ctx = false -> logLines t = []) /\
     (forall line, line ∈ logLines t ->
        exists expiresIn,
          res.2 = None /\
          line = ("%s %s %d" +:+ newline,
                  [ArgS "refreshAccessTokenFromWXServer"; ArgS res.1; ArgD expiresIn]) /\
          savedEntries t = [(appid, res.1, seconds expiresIn)] /\
          logLines t = [line])) /\
  (exists res w' t,
     run O (GetAccessToken unmarshalTokenResult QueryEscape ctx) w = Some (res, w') /\
     trace w' = trace w ++ t /\
     (Logger ctx = false -> logLines t = []) /\
     (forall line, line ∈ logLines t ->
        exists expiresIn,
          res.2 = None /\
          line = ("%s %s %d" +:+ newline,
                  [ArgS "refreshAccessTokenFromWXServer"; ArgS res.1; ArgD expiresIn]) /\
          savedEntries t = [(appid, res.1, seconds expiresIn)] /\
          logLines t = [line])).
Proof.
  intros Hl. split.
  - manager. simpl. rewrite Hl. exec.
    all: eexists _, _, _; split; [done|]; split; [traced|]; split; [done|].
    all: simpl; intros line Hin; members Hin.
    eexists. done.
  - manager. exec.
    all: eexists _, _, _; split; [done|]; split; [traced|]; split; [done|].
    all: simpl; intros line Hin; members Hin.
    eexists. done.
Qed.

(** X26.  The logger has no part in what the two functions do: with
    the logger taken out of the context the results are the same, the
    collaborators, readers and mutex end in the same state, and the effects
    are the same but for the log lines. *)
Theorem logger_changes_nothing_else (w : World S) :
  locked w = false ->
  (exists res w1 w2 t,
     run O (NoticeRefreshAccessToken unmarshalTokenResult QueryEscape ctx) w =
       Some (res, w1) /\
     run O (NoticeRefreshAccessToken unmarshalTokenResult QueryEscape (withoutLogger ctx))
       w = Some (res, w2) /\
     trace w1 = trace w ++ t /\
     trace w2 = trace w ++ filter (fun f => isPrintf f = false) t /\
     ext w2 = ext w1 /\ readers w2 = readers w1 /\ locked w2 = locked w1) /\
  (exists res w1 w2 t,
     run O (GetAccessToken unmarshalTokenResult QueryEscape ctx) w = Some (res, w1) /\
     run O (GetAccessToken unmarshalTokenResult QueryEscape (withoutLogger ctx)) w =
       Some (res, w2) /\
     trace w1 = trace w ++ t /\
     trace w2 = trace w ++ filter (fun f => isPrintf f = false) t /\
     ext w2 = ext w1 /\ readers w2 = readers w1 /\ locked w2 = locked w1).
Proof.
  intros Hl. split.
  - manager. simpl. rewrite Hl. exec.
    all: eexists _, _, _, _; split; [done|]; split; [done|]; split; [traced|].
    all: split; [traced|]; done.
  - manager. exec.
    all: eexists _, _, _, _; split; [done|]; split; [done|]; split; [traced|].
    all: split; [traced|]; done.
Qed.

(** X27.  Over a cache that gives back what was saved with a positive
    time-to-live: after a [NoticeRefreshAccessToken] that got a token with a
    positive lifetime kept, [GetAccessToken] returns that token from its
    first fetch, without error; the two calls send one request in all. *)
Theorem refreshed_token_is_served_from_the_cache (w : World S) (response : Response)
    (s : S) (accessToken : string) (expiresIn : Z) :
  (forall key value d s0,
     0 < d ->
     (cache_fetch O key (cache_save O key value d s0).2).1 = (value, None)) ->
  locked w = false ->
  transport_get O url (ext w) = (inl response, s) ->
  tokenOfResponse unmarshalTokenResult url response = (accessToken, expiresIn, None) ->
  0 < seconds (shrink expiresIn) ->
  exists w' t,
    run O (_ ← NoticeRefreshAccessToken unmarshalTokenResult QueryEscape ctx;
           GetAccessToken unmarshalTokenResult QueryEscape ctx) w =
      Some (accessToken, None, w') /\
    trace w' = trace w ++ t /\
    requestUrls t = [url] /\
    last t = Some (EFetch appid (accessToken, None)) /\
    locked w' = false.
Proof.
  intros Hcache Hl Hg Hd Hpos.
  pose proof (tokenOfResponse_outcome unmarshalTokenResult url response) as Ho.
  rewrite Hd in Ho. destruct Ho as [[_ Hne]|(_ & _ & ? & ? & _)]; [|done].
  manager. simpl. rewrite Hl. simpl. rewrite Hg. simpl. rewrite Hd. simpl.
  specialize (Hcache appid accessToken (seconds (shrink expiresIn)) s Hpos).
  destruct (cache_save O appid accessToken (seconds (shrink expiresIn)) s) as [sres s'].
  simpl in Hcache. unfold logPrintf.
  destruct (Logger ctx); simpl.
  all: destruct (cache_fetch O appid s') as [r s'']; simpl in Hcache; subst r; simpl.
  all: destruct accessToken; [done|]; simpl.
  all: eexists _, _; split; [done|]; split; [traced|]; done.
Qed.

End Tokens.

Lemma GetAccessToken_second_fetch_hit_witness :
  let w := Sample.world
             (Sample.state ∅ [] [(EmptyString, None); ("T9", None)] []) [] in
  exists w',
    run Cases.racedOracle
      (GetAccessToken Sample.unmarshalTokenResult Sample.QueryEscape Sample.ctx) w =
      Some ("T9", None, w') /\
    trace w' =
      trace w ++ [EFetch "wx1" (EmptyString, None); ELock;
                  EFetch "wx1" ("T9", None); EUnlock] /\
    locked w' = false /\
    ext w' = Sample.state ∅ [] [] [].
Proof.
  apply (GetAccessToken_second_fetch_hit Cases.racedOracle Sample.unmarshalTokenResult
           Sample.QueryEscape Sample.ctx
           (Sample.world (Sample.state ∅ [] [(EmptyString, None); ("T9", None)] []) [])
           None None "T9" (Sample.state ∅ [] [("T9", None)] [])
           (Sample.state ∅ [] [] [])).
  - reflexivity.
  - reflexivity.
  - reflexivity.
  - discriminate.
Defined.

Lemma cold_cache_result_is_the_issuers_witness :
  let s := Sample.state ∅ [inl (Sample.ok (Sample.tokenBody "T1" "7200"))] [] [] in
  let w := Sample.world s [] in
  let url := tokenUrl Sample.QueryEscape "wx1" "s3" in
  exists res w' r rest,
    run Sample.oracle
      (GetAccessToken Sample.unmarshalTokenResult Sample.QueryEscape Sample.ctx) w =
      Some (res, w') /\
    trace w' =
      trace w ++ EFetch "wx1" (EmptyString, None) :: ELock ::
                 EFetch "wx1" (EmptyString, None) :: EGet url r :: rest /\
    (transport_get Sample.oracle url s).1 = r /\
    res = ((issuerOutcome Sample.unmarshalTokenResult url r).1.1,
           (issuerOutcome Sample.unmarshalTokenResult url r).2).
Proof.
  apply (cold_cache_result_is_the_issuers Sample.oracle Sample.unmarshalTokenResult
           Sample.QueryEscape Sample.ctx
           (Sample.world
              (Sample.state ∅ [inl (Sample.ok (Sample.tokenBody "T1" "7200"))] [] []) [])
           None None
           (Sample.state ∅ [inl (Sample.ok (Sample.tokenBody "T1" "7200"))] [] [])
           (Sample.state ∅ [inl (Sample.ok (Sample.tokenBody "T1" "7200"))] [] []));
    reflexivity.
Defined.

Lemma failed_refresh_saves_nothing_witness :
  let w := Sample.world (Sample.state (Sample.cached "T1") [inl Sample.unavailable] [] [])
             [] in
  exists res w' t,
    run Sample.oracle
      (NoticeRefreshAccessToken Sample.unmarshalTokenResult Sample.QueryEscape Sample.ctx)
      w = Some (res, w') /\
    trace w' = trace w ++ t /\
    (is_Some res.2 ->
     res.1 = EmptyString /\ savedEntries t = [] /\ logLines t = []).
Proof.
  apply (failed_refresh_saves_nothing Sample.oracle Sample.unmarshalTokenResult
           Sample.QueryEscape Sample.ctx
           (Sample.world
              (Sample.state (Sample.cached "T1") [inl Sample.unavailable] [] []) [])).
  reflexivity.
Defined.

Lemma requests_and_saves_under_the_mutex_witness :
  let w := Sample.world
             (Sample.state ∅ [inl (Sample.ok (Sample.tokenBody "T1" "7200"))] [] []) [] in
  exists res w' t,
    run Sample.oracle
      (GetAccessToken Sample.unmarshalTokenResult Sample.QueryEscape Sample.ctx) w =
      Some (res, w') /\
    trace w' = trace w ++ t /\
    locked w' = false /\
    unguarded false t = [] /\
    (mutexEvents t = [] \/ (mutexEvents t = [ELock; EUnlock] /\ last t = Some EUnlock)).
Proof.
  apply (requests_and_saves_under_the_mutex Sample.oracle Sample.unmarshalTokenResult
           Sample.QueryEscape Sample.ctx
           (Sample.world
              (Sample.state ∅ [inl (Sample.ok (Sample.tokenBody "T1" "7200"))] [] []) [])).
  reflexivity.
Defined.

Lemma refresh_waits_for_the_mutex_witness :
  let s := Sample.state ∅ [inl (Sample.ok (Sample.tokenBody "T1" "7200"))] [] [] in
  let w := Build_World s [] true [] in
  run Sample.oracle
    (NoticeRefreshAccessToken Sample.unmarshalTokenResult Sample.QueryEscape Sample.ctx) w =
    None /\
  run Sample.oracle
    (GetAccessToken Sample.unmarshalTokenResult Sample.QueryEscape Sample.ctx) w = None /\
  Concurrent.stepThread Sample.oracle
    (NoticeRefreshAccessToken Sample.unmarshalTokenResult Sample.QueryEscape Sample.ctx) w =
    None /\
  exists p w',
    Concurrent.stepThread Sample.oracle
      (GetAccessToken Sample.unmarshalTokenResult Sample.QueryEscape Sample.ctx) w =
      Some (p, w') /\
    trace w' = trace w ++ [EFetch "wx1" (EmptyString, None)] /\
    Concurrent.stepThread Sample.oracle p w' = None /\
    Concurrent.result p = None.
Proof.
  apply (refresh_waits_for_the_mutex Sample.oracle Sample.unmarshalTokenResult
           Sample.QueryEscape Sample.ctx
           (Build_World
              (Sample.state ∅ [inl (Sample.ok (Sample.tokenBody "T1" "7200"))] [] [])
              [] true [])
           None
           (Sample.state ∅ [inl (Sample.ok (Sample.tokenBody "T1" "7200"))] [] []));
    reflexivity.
Defined.

Lemma refresh_log_line_witness :
  let ctx := {| Config := Config Sample.ctx; Logger := true |} in
  let w := Sample.world
             (Sample.state ∅ [inl (Sample.ok (Sample.tokenBody "T1" "7200"))] [] []) [] in
  exists res w' t,
    run Sample.oracle
      (GetAccessToken Sample.unmarshalTokenResult Sample.QueryEscape ctx) w =
      Some (res, w') /\
    trace w' = trace w ++ t /\
    (Logger ctx = false -> logLines t = []) /\
    (forall line, line ∈ logLines t ->
       exists expiresIn,
         res.2 = None /\
         line = ("%s %s %d" +:+ newline,
                 [ArgS "refreshAccessTokenFromWXServer"; ArgS res.1; ArgD expiresIn]) /\
         savedEntries t = [(Appid (Config ctx), res.1, seconds expiresIn)] /\
         logLines t = [line]).
Proof.
  apply (refresh_log_line Sample.oracle Sample.unmarshalTokenResult Sample.QueryEscape
           {| Config := Config Sample.ctx; Logger := true |}
           (Sample.world
              (Sample.state ∅ [inl (Sample.ok (Sample.tokenBody "T1" "7200"))] [] []) [])).
  reflexivity.
Defined.

Lemma logger_changes_nothing_else_witness :
  let ctx := {| Config := Config Sample.ctx; Logger := true |} in
  let w := Sample.world
             (Sample.state ∅ [inl (Sample.ok (Sample.tokenBody "T1" "7200"))] [] []) [] in
  exists res w1 w2 t,
    run Sample.oracle
      (NoticeRefreshAccessToken Sample.unmarshalTokenResult Sample.QueryEscape ctx) w =
      Some (res, w1) /\
    run Sample.oracle
      (NoticeRefreshAccessToken Sample.unmarshalTokenResult Sample.QueryEscape
         (withoutLogger ctx)) w = Some (res, w2) /\
    trace w1 = trace w ++ t /\
    trace w2 = trace w ++ filter (fun f => isPrintf f = false) t /\
    ext w2 = ext w1 /\ readers w2 = readers w1 /\ locked w2 = locked w1.
Proof.
  apply (logger_changes_nothing_else Sample.oracle Sample.unmarshalTokenResult
           Sample.QueryEscape {| Config := Config Sample.ctx; Logger := true |}
           (Sample.world
              (Sample.state ∅ [inl (Sample.ok (Sample.tokenBody "T1" "7200"))] [] []) [])).
  reflexivity.
Defined.

Lemma refreshed_token_is_served_from_the_cache_witness :
  let response := Sample.ok (Sample.tokenBody "T2" "7200") in
  let w := Sample.world (Sample.state ∅ [inl response] [] []) [] in
  exists w' t,
    run Sample.oracle
      (_ ← NoticeRefreshAccessToken Sample.unmarshalTokenResult Sample.QueryEscape
             Sample.ctx;
       GetAccessToken Sample.unmarshalTokenResult Sample.QueryEscape Sample.ctx) w =
      Some ("T2", None, w') /\
    trace w' = trace w ++ t /\
    requestUrls t = [tokenUrl Sample.QueryEscape "wx1" "s3"] /\
    last t = Some (EFetch "wx1" ("T2", None)) /\
    locked w' = false.
Proof.
  apply (refreshed_token_is_served_from_the_cache Sample.oracle
           Sample.unmarshalTokenResult Sample.QueryEscape Sample.ctx
           (Sample.world
              (Sample.state ∅ [inl (Sample.ok (Sample.tokenBody "T2" "7200"))] [] []) [])
           (Sample.ok (Sample.tokenBody "T2" "7200"))
           (Sample.state ∅ [] [] []) "T2" 7200).
  - intros key value d s0 Hd. simpl. unfold Sample.fetch. simpl.
    rewrite lookup_insert_eq. destruct (Z.ltb_spec 0 d); [reflexivity|lia].
  - reflexivity.
  - reflexivity.
  - vm_compute. reflexivity.
  - vm_compute. reflexivity.
Defined.

(** ** Concurrent callers of the manager, in any environment *)

Lemma heldAfter_snoc (held : bool) (l : list Effect) (f : Effect) :
  heldAfter held (l ++ [f]) =
  match f with
  | ELock => true
  | EUnlock => false
  | _ => heldAfter held l
  end.
Proof.
  revert held. induction l as [|x l IH]; intros held; simpl.
  - by destruct f.
  - destruct x; apply IH.
Qed.

Lemma unguarded_snoc (held : bool) (l : list Effect) (f : Effect) :
  unguarded held (l ++ [f]) =
  unguarded held l ++ (if isGuarded f && negb (heldAfter held l) then [f] else []).
Proof.
  revert held. induction l as [|x l IH]; intros held; simpl.
  - by destruct f, held.
  - destruct x; try apply IH; destruct held; simpl; by rewrite IH.
Qed.

Module Serial.
Import Concurrent Callers.

Lemma tally_insert (f : Station -> nat) (l : list Station) (i : nat) (a a' : Station) :
  l !! i = Some a ->
  (tally f (<[i := a']> l) + f a = tally f l + f a')%nat.
Proof.
  revert i. induction l as [|x l IH]; intros [|i] Hi; simplify_eq/=; [lia|].
  specialize (IH i Hi). lia.
Qed.

Lemma tally_weight_none (l : list Station) :
  tally weight l = 0%nat -> Forall (fun a => inside a = false) l.
Proof.
  induction l as [|x l IH]; [constructor|]. simpl. unfold weight at 1.
  destruct (inside x) eqn:Hx; [lia|]. intros H0. constructor; auto.
Qed.

Lemma tally_weight_some (l : list Station) :
  tally weight l <> 0%nat -> exists i a, l !! i = Some a /\ inside a = true.
Proof.
  induction l as [|x l IH]; [done|]. simpl. unfold weight at 1.
  destruct (inside x) eqn:Hx.
  - intros _. exists 0%nat, x. done.
  - intros Hn. destruct (IH Hn) as (i & a & Hi & Ha). exists (S i), a. done.
Qed.

Section Steps.

Context {S : Type} (O : Oracle S).
Variable ut : list byte -> string + TokenResult.
Variable qe : string -> string.
Variable ctx : OffiAccount.

#[local] Arguments tokenOfResponse : simpl never.
#[local] Arguments tokenUrl : simpl never.
#[local] Arguments shrink : simpl never.
#[local] Arguments seconds : simpl never.
#[local] Arguments String.append : simpl never.

(** One step of a caller: where it is afterwards, and what the step was. *)
Lemma station_step (a : Station) (w : World S) (p' : Prog (string * option error))
    (w' : World S) :
  stepThread O (program ut qe ctx a) w = Some (p', w') ->
  exists a' f,
    p' = program ut qe ctx a' /\
    trace w' = trace w ++ [f] /\
    (effort a' < effort a)%nat /\
    (length (requestUrls [f]) + unasked a' <= unasked a)%nat /\
    (inside a = false -> isGuarded f = false) /\
    match inside a, inside a' with
    | false, true => f = ELock /\ locked w = false /\ locked w' = true
    | true, false => f = EUnlock /\ locked w = true /\ locked w' = false
    | _, _ => f <> ELock /\ f <> EUnlock /\ locked w' = locked w
    end.
Proof.
  intros Hstep. destruct a as [c|]; [destruct c|]; simpl in Hstep.
  - (* Start *)
    destruct (cache_fetch O _ (ext w)) as [[tok err] s] eqn:Hf. simpl in Hstep.
    injection Hstep as <- <-. destruct tok as [|ch tok]; simpl.
    + exists (Getting Waiting). eexists. split; [done|]. split; [done|]. simpl.
      repeat split; try done; lia.
    + exists (Getting (Returned (String ch tok, err))). eexists.
      split; [done|]. split; [done|]. simpl. repeat split; try done; lia.
  - (* Waiting *)
    destruct (locked w) eqn:Hl; [done|]. injection Hstep as <- <-.
    exists (Getting Holding). eexists. split; [done|]. split; [done|]. simpl.
    repeat split; try done; lia.
  - (* Holding *)
    destruct (cache_fetch O _ (ext w)) as [[tok err] s] eqn:Hf. simpl in Hstep.
    injection Hstep as <- <-. destruct tok as [|ch tok]; simpl.
    + exists (Getting Refreshing). eexists. split; [done|]. split; [done|]. simpl.
      repeat split; try done; lia.
    + exists (Getting (Releasing (String ch tok, err))). eexists.
      split; [done|]. split; [done|]. simpl. repeat split; try done; lia.
  - (* Refreshing *)
    destruct (transport_get O _ (ext w)) as [[response|msg] s] eqn:Hg; simpl in Hstep;
      injection Hstep as <- <-.
    + exists (Getting (Closing response)). eexists. split; [done|]. split; [done|]. simpl.
      repeat split; try done; lia.
    + exists (Getting (Releasing (EmptyString, Some (foreignError msg)))). eexists.
      split; [done|]. split; [done|]. simpl. repeat split; try done; lia.
  - (* Closing *)
    injection Hstep as <- <-.
    destruct (tokenOfResponse ut (tokenUrl qe (Appid (Config ctx)) (Secret (Config ctx))) r)
      as [[tok exp] [e|]] eqn:Hd.
    + exists (Getting (Releasing (tok, Some e))). eexists.
      split; [done|]. split; [done|]. simpl. repeat split; try done; lia.
    + exists (Getting (Saving tok exp)). eexists.
      split; [done|]. split; [done|]. simpl. repeat split; try done; lia.
  - (* Saving *)
    destruct (cache_save O _ _ _ (ext w)) as [res s] eqn:Hs. simpl in Hstep.
    injection Hstep as <- <-.
    exists (Getting (Logging accessToken expiresIn)). eexists.
    split; [done|]. split; [done|]. simpl. repeat split; try done; lia.
  - (* Logging *)
    unfold logPrintf in Hstep. destruct (Logger ctx) eqn:Hlog; simpl in Hstep.
    + injection Hstep as <- <-.
      exists (Getting (Releasing (accessToken, None))). eexists.
      split; [done|]. split; [done|]. simpl. repeat split; try done; lia.
    + destruct (locked w) eqn:Hl; [|done]. injection Hstep as <- <-.
      exists (Getting (Returned (accessToken, None))). eexists.
      split; [done|]. split; [done|]. simpl. repeat split; try done; lia.
  - (* Releasing *)
    destruct (locked w) eqn:Hl; [|done]. injection Hstep as <- <-.
    exists (Getting (Returned res)). eexists.
    split; [done|]. split; [done|]. simpl. repeat split; try done; lia.
  - (* Returned *)
    done.
  - (* Noticing *)
    destruct (locked w) eqn:Hl; [done|]. injection Hstep as <- <-.
    exists (Getting Refreshing). eexists. split; [done|]. split; [done|]. simpl.
    repeat split; try done; lia.
Qed.

Lemma inside_can_step (a : Station) (w : World S) :
  inside a = true -> locked w = true ->
  is_Some (stepThread O (program ut qe ctx a) w).
Proof.
  intros Ha Hl. destruct a as [c|]; [|done].
  destruct c; try done; simpl; unfold logPrintf;
    repeat (simpl; rewrite ?Hl; case_match); simplify_eq/=; rewrite ?Hl; eauto.
Qed.

Lemma outside_can_step (a : Station) (w : World S) :
  inside a = false -> Callers.result_of a = None -> locked w = false ->
  is_Some (stepThread O (program ut qe ctx a) w).
Proof.
  intros Ha Hr Hl. destruct a as [c|]; [destruct c|]; try done; simpl; rewrite ?Hl; eauto.
  all: destruct (cache_fetch O _ (ext w)) as [[tok err] s]; eauto.
Qed.

Lemma result_program (a : Station) :
  result (program ut qe ctx a) = Callers.result_of a.
Proof.
  destruct a as [c|]; [destruct c|]; try done.
  simpl. unfold logPrintf. destruct (Logger ctx); done.
Qed.

Lemma weight_inside (l : list Station) (i : nat) (a : Station) :
  l !! i = Some a -> inside a = true -> (1 <= tally weight l)%nat.
Proof.
  intros Hi Ha. pose proof (tally_insert weight l i a Noticing Hi) as Ht.
  unfold weight at 2 4 in Ht. rewrite Ha in Ht. simpl in Ht. lia.
Qed.

Lemma requestUrls_last (l : list Effect) (f : Effect) :
  requestUrls (l ++ [f]) = requestUrls l ++ requestUrls [f].
Proof. unfold requestUrls. by rewrite omap_app. Qed.

Lemma reach_serial (stations0 : list Station) (w0 : World S) (n : nat)
    (ts : list (Prog (string * option error))) (w : World S) :
  locked w0 = false ->
  Forall (fun a => a = Getting Start \/ a = Noticing) stations0 ->
  nsteps (step O) n (program ut qe ctx <$> stations0, w0) (ts, w) ->
  exists stations t,
    ts = program ut qe ctx <$> stations /\
    length stations = length stations0 /\
    trace w = trace w0 ++ t /\
    tally weight stations = (if locked w then 1 else 0)%nat /\
    heldAfter false t = locked w /\
    unguarded false t = [] /\
    (length (requestUrls t) + tally unasked stations <= length stations0)%nat /\
    (n + tally effort stations <= 9 * length stations0)%nat.
Proof.
  intros Hl0 Hstart. revert ts w. induction n as [|n IH]; intros ts w Hn.
  - inversion Hn; subst. exists stations0, []. rewrite app_nil_r, Hl0.
    split; [done|]. split; [done|]. split; [done|].
    assert (tally weight stations0 = 0 /\ tally unasked stations0 = length stations0 /\
            tally effort stations0 <= 9 * length stations0)%nat as (Hw & Hu & He).
    { clear Hn. induction Hstart as [|a l [-> | ->] _ IHl]; simpl in *; lia. }
    repeat split; try done; simpl; lia.
  - apply nsteps_inv_r in Hn as ([ts1 w1] & Hn & Hs).
    destruct (IH _ _ Hn) as (l & t & -> & Hlen & Htr & Hw & Hheld & Hun & Hreq & Heff).
    inversion Hs as [? ? i p p' ? Hi Hstep]; subst.
    rewrite list_lookup_fmap in Hi.
    destruct (l !! i) as [a|] eqn:Ha; simplify_eq/=.
    destruct (station_step a w1 p' w Hstep)
      as (a' & f & -> & Htr' & Hrank & Hask & Hguard & Hmove).
    exists (<[i := a']> l), (t ++ [f]).
    split; [by rewrite list_fmap_insert|].
    split; [by rewrite length_insert|].
    split; [by rewrite Htr', Htr, app_assoc|].
    pose proof (tally_insert weight l i a a' Ha) as Tw.
    pose proof (tally_insert unasked l i a a' Ha) as Tu.
    pose proof (tally_insert effort l i a a' Ha) as Te.
    rewrite heldAfter_snoc, unguarded_snoc, requestUrls_last, length_app, Hun, Hheld.
    unfold weight at 2 4 in Tw.
    destruct (inside a) eqn:Hia, (inside a') eqn:Hia'.
    + destruct Hmove as (Hf1 & Hf2 & Hlk). rewrite Hlk.
      pose proof (weight_inside l i a Ha Hia) as Hone.
      assert (locked w1 = true) as Hl1 by (destruct (locked w1); [done|lia]).
      rewrite Hl1 in *. rewrite andb_false_r.
      split; [lia|]. split; [by destruct f|]. split; [done|]. lia.
    + destruct Hmove as (-> & Hl1 & Hlk). rewrite Hl1, Hlk in *. simpl.
      split; [lia|]. split; [done|]. split; [done|]. lia.
    + destruct Hmove as (-> & Hl1 & Hlk). rewrite Hl1, Hlk in *. simpl.
      split; [lia|]. split; [done|]. split; [done|]. lia.
    + destruct Hmove as (Hf1 & Hf2 & Hlk). rewrite Hlk, (Hguard eq_refl). cbn [andb app].
      split; [lia|]. split; [by destruct f|]. split; [done|]. lia.
Qed.

Lemma stations_of (ts : list (Prog (string * option error))) :
  Forall (fun p => p = GetAccessToken ut qe ctx \/
                   p = NoticeRefreshAccessToken ut qe ctx) ts ->
  exists stations,
    ts = program ut qe ctx <$> stations /\
    Forall (fun a => a = Getting Start \/ a = Noticing) stations.
Proof.
  induction 1 as [|p ts [-> | ->] _ (l & -> & Hl)].
  - exists []. done.
  - exists (Getting Start :: l). split; [done|]. constructor; auto.
  - exists (Noticing :: l). split; [done|]. constructor; auto.
Qed.

End Steps.

End Serial.

(** X30.  Any number of threads, each calling [GetAccessToken] or
    [NoticeRefreshAccessToken] for one context, started with the mutex
    free, over any cache, transport and logger, however they are
    interleaved: a run has at most nine steps for each caller; every
    request and every save happens while the mutex is held; there are no
    more requests than callers; and when no thread can take a step, every
    caller has returned and the mutex is free (no deadlock). *)
Theorem manager_calls_are_serialised {S : Type} (O : Oracle S)
    (unmarshalTokenResult : list byte -> string + TokenResult)
    (QueryEscape : string -> string) (ctx : OffiAccount)
    (callers : list (Prog (string * option error))) (w0 : World S) :
  locked w0 = false ->
  Forall (fun p => p = GetAccessToken unmarshalTokenResult QueryEscape ctx \/
                   p = NoticeRefreshAccessToken unmarshalTokenResult QueryEscape ctx)
    callers ->
  (forall n pool,
     nsteps (Concurrent.step O) n (callers, w0) pool -> (n <= 9 * length callers)%nat) /\
  (forall ts w,
     rtc (Concurrent.step O) (callers, w0) (ts, w) ->
     exists t,
       trace w = trace w0 ++ t /\
       unguarded false t = [] /\
       heldAfter false t = locked w /\
       (length (requestUrls t) <= length callers)%nat /\
       (Concurrent.stuck O (ts, w) ->
        Forall (fun p => is_Some (Concurrent.result p)) ts /\ locked w = false)).
Proof.
  intros Hl0 Hcallers.
  destruct (Serial.stations_of unmarshalTokenResult QueryEscape ctx callers Hcallers)
    as (stations0 & -> & Hstart).
  rewrite length_fmap. split.
  - intros n [ts w] Hn.
    destruct (Serial.reach_serial O unmarshalTokenResult QueryEscape ctx stations0 w0 n
                ts w Hl0 Hstart Hn) as (l & t & _ & _ & _ & _ & _ & _ & _ & He). lia.
  - intros ts w Hrtc. apply rtc_nsteps_1 in Hrtc as [n Hn].
    destruct (Serial.reach_serial O unmarshalTokenResult QueryEscape ctx stations0 w0 n
                ts w Hl0 Hstart Hn)
      as (l & t & -> & Hlen & Htr & Hw & Hheld & Hun & Hreq & He).
    exists t. split; [done|]. split; [done|]. split; [done|]. split; [lia|].
    intros Hstuck.
    assert (forall i a, l !! i = Some a ->
              ~ is_Some (Concurrent.stepThread O
                           (Callers.program unmarshalTokenResult QueryEscape ctx a) w))
      as Hnone.
    { intros i a Hi [[p' w'] Hs]. eapply Hstuck. eapply Concurrent.step_thread; [|done].
      by rewrite list_lookup_fmap, Hi. }
    assert (locked w = false) as Hl.
    { destruct (locked w) eqn:Hl; [|done].
      destruct (Serial.tally_weight_some l) as (i & a & Hi & Ha); [lia|].
      destruct (Hnone i a Hi). by apply Serial.inside_can_step. }
    split; [|done]. rewrite Hl in Hw. apply Serial.tally_weight_none in Hw.
    rewrite Forall_fmap. rewrite Forall_lookup in *. intros i a Hi. simpl.
    rewrite Serial.result_program.
    destruct (Callers.result_of a) eqn:Hr; [eauto|].
    destruct (Hnone i a Hi). apply Serial.outside_can_step; eauto.
Qed.

Lemma manager_calls_are_serialised_witness :
  let callers :=
    [GetAccessToken Sample.unmarshalTokenResult Sample.QueryEscape Sample.ctx;
     NoticeRefreshAccessToken Sample.unmarshalTokenResult Sample.QueryEscape Sample.ctx;
     GetAccessToken Sample.unmarshalTokenResult Sample.QueryEscape Sample.ctx] in
  let w0 := Sample.world
              (Sample.state ∅ [inl (Sample.ok (Sample.tokenBody "T1" "7200"))] [] []) [] in
  (forall n pool,
     nsteps (Concurrent.step Sample.oracle) n (callers, w0) pool ->
     (n <= 9 * length callers)%nat) /\
  (forall ts w,
     rtc (Concurrent.step Sample.oracle) (callers, w0) (ts, w) ->
     exists t,
       trace w = trace w0 ++ t /\
       unguarded false t = [] /\
       heldAfter false t = locked w /\
       (length (requestUrls t) <= length callers)%nat /\
       (Concurrent.stuck Sample.oracle (ts, w) ->
        Forall (fun p => is_Some (Concurrent.result p)) ts /\ locked w = false)).
Proof.
  apply (manager_calls_are_serialised Sample.oracle Sample.unmarshalTokenResult
           Sample.QueryEscape Sample.ctx).
  - reflexivity.
  - repeat (apply Forall_cons_2; [(left; reflexivity) || (right; reflexivity)|]).
    apply Forall_nil_2.
Defined.

(** ** The wrappers of apis/ai *)

Section Posts.

Context {S : Type} (O : Oracle S).
Variable unmarshalErrorResponse : list byte -> string + ErrorResponse.

#[local] Arguments responseFilter : simpl never.
#[local] Arguments Contains : simpl never.
#[local] Arguments String.append : simpl never.

(** What a call of [HTTPPost] does with the readers, and what its first
    post is. *)
Lemma HTTPPost_posts (client : Client) (uri : string) (payload : nat)
    (contentType : string) (w : World S) :
  exists res w' t,
    run O (HTTPPost unmarshalErrorResponse client uri payload contentType) w =
      Some (res, w') /\
    trace w' = trace w ++ t /\
    length (readers w') = length (readers w) /\
    (forall i, i <> payload -> readers w' !! i = readers w !! i) /\
    length (postsOf t) = length (requestUrls t) /\
    Forall (fun b => b.1.2 = payload /\ b.1.1.2 = contentType) (postsOf t) /\
    default [] (readers w !! payload) =
      concat ((postsOf t).*2) ++ default [] (readers w' !! payload) /\
    (forall accessToken,
       head (tokenAnswers t) = Some (accessToken, None) ->
       exists sent,
         head (postsOf t) =
           Some (WXServerUrl +:+ uri +:+ (if Contains uri "?" then "&" else "?") +:+
                 "access_token=" +:+ accessToken, contentType, payload, sent)).
Proof.
  unfold HTTPPost, applyAccessToken, returning.
  exec.
  all: eexists _, _, _; split; [done|]; split; [traced|].
  all: simpl; rewrite ?length_insert; split; [done|].
  all: split; [intros i Hi; by rewrite ?list_lookup_insert_ne|].
  all: split; [done|].
  all: split; [repeat apply Forall_cons_2; try apply Forall_nil_2; done|].
  all: split; [simpl; rewrite ?app_nil_r; try done;
               rewrite ?reader_after, ?reader_twice, <- ?app_assoc, ?take_drop; done|].
  all: intros accessToken Ht; simplify_eq/=; try done.
  all: eexists.
  all: repeat match goal with
         | H : Contains _ _ = _ |- _ => rewrite H; clear H
         end; done.
Qed.

End Posts.

Section AI.

Context {S : Type} (O : Oracle S).
Variable unmarshalErrorResponse : list byte -> string + ErrorResponse.
Variable Values : Type.
Variable Encode : Values -> string.

#[local] Arguments Contains : simpl never.
#[local] Arguments String.append : simpl never.

(** A post of a new buffer: the buffer is the one reader added to the
    store, the bytes of the payload are those sent and those left in it. *)
Lemma post_of_new_buffer (client : Client) (uri : string) (payload : list byte)
    (contentType : string) (w : World S) :
  exists res w' t unread,
    (let '(buffer, w1) := NewBuffer payload w in
     run O (HTTPPost unmarshalErrorResponse client uri buffer contentType) w1) =
      Some (res, w') /\
    trace w' = trace w ++ t /\
    readers w' = readers w ++ [unread] /\
    payload = concat ((postsOf t).*2) ++ unread /\
    (forall accessToken,
       head (tokenAnswers t) = Some (accessToken, None) ->
       exists sent,
         head (postsOf t) =
           Some (WXServerUrl +:+ uri +:+ (if Contains uri "?" then "&" else "?") +:+
                 "access_token=" +:+ accessToken, contentType, length (readers w), sent)).
Proof.
  unfold NewBuffer.
  set (w1 := Build_World (ext w) (readers w ++ [payload]) (locked w) (trace w)).
  destruct (HTTPPost_posts O unmarshalErrorResponse client uri (length (readers w))
              contentType w1)
    as (res & w' & t & Hrun & Htr & Hlen & Hother & _ & _ & Hbytes & Hfirst).
  simpl in Hlen, Hother, Hbytes. rewrite length_app in Hlen. simpl in Hlen.
  rewrite list_lookup_middle in Hbytes by done. simpl in Hbytes.
  exists res, w', t, (default [] (readers w' !! length (readers w))).
  split; [done|]. split; [done|]. split; [|done].
  apply list_eq. intros i.
  destruct (decide (i = length (readers w))) as [->|Hi].
  - rewrite list_lookup_middle by done.
    destruct (lookup_lt_is_Some_2 (readers w') (length (readers w))) as [x Hx]; [lia|].
    by rewrite Hx.
  - rewrite (Hother i Hi).
    destruct (decide (i < length (readers w))%nat).
    + by rewrite !lookup_app_l.
    + rewrite !lookup_ge_None_2; [done|rewrite length_app; simpl; lia..].
Qed.

(** X28.  Each wrapper of apis/ai that takes no parameters posts a new
    buffer over its payload: the buffer is added to the readers, which are
    otherwise left as they were; the bytes of the payload are the bytes
    sent by the call's posts, in order, followed by those left in the
    buffer; and the first post goes to the wrapper's path with the token
    after a question mark, as JSON in UTF-8. *)
Theorem plain_wrappers_post_to_their_path (path : string)
    (f : Client -> list byte -> ai.Call) (client : Client) (payload : list byte)
    (w : World S) :
  (path, f) ∈ ai.plain O unmarshalErrorResponse ->
  exists res w' t unread,
    f client payload w = Some (res, w') /\
    trace w' = trace w ++ t /\
    readers w' = readers w ++ [unread] /\
    payload = concat ((postsOf t).*2) ++ unread /\
    (forall accessToken,
       head (tokenAnswers t) = Some (accessToken, None) ->
       exists sent,
         head (postsOf t) =
           Some (WXServerUrl +:+ path +:+ "?access_token=" +:+ accessToken,
                 "application/json;charset=utf-8", length (readers w), sent)).
Proof.
  intros Hin. unfold ai.plain in Hin.
  repeat (apply elem_of_cons in Hin as [Hin|Hin];
          [injection Hin as -> ->;
           exact (post_of_new_buffer client _ payload "application/json;charset=utf-8" w)|]).
  by apply elem_of_nil in Hin.
Qed.

(** X29.  Each wrapper of apis/ai that takes parameters posts a new
    buffer in the same way, to its path, a question mark and the encoded
    parameters; the token always follows an ampersand, also when the
    encoded parameters are empty. *)
Theorem parametrised_wrappers_append_the_token (path : string)
    (f : Client -> list byte -> Values -> ai.Call) (client : Client)
    (payload : list byte) (params : Values) (w : World S) :
  (path, f) ∈ ai.parametrised O unmarshalErrorResponse Values Encode ->
  exists res w' t unread,
    f client payload params w = Some (res, w') /\
    trace w' = trace w ++ t /\
    readers w' = readers w ++ [unread] /\
    payload = concat ((postsOf t).*2) ++ unread /\
    (forall accessToken,
       head (tokenAnswers t) = Some (accessToken, None) ->
       exists sent,
         head (postsOf t) =
           Some (WXServerUrl +:+ (path +:+ "?" +:+ Encode params) +:+
                 "&access_token=" +:+ accessToken,
                 "application/json;charset=utf-8", length (readers w), sent)).
Proof.
  intros Hin. unfold ai.parametrised in Hin.
  assert (forall a, Contains (a +:+ "?" +:+ Encode params) "?" = true) as Hq.
  { intros a. apply Contains_append_r, Contains_self_append. }
  destruct (post_of_new_buffer client (path +:+ "?" +:+ Encode params) payload
              "application/json;charset=utf-8" w)
    as (res & w' & t & unread & Hrun & Htr & Hrs & Hp & Hfirst).
  rewrite Hq in Hfirst. exists res, w', t, unread.
  repeat (apply elem_of_cons in Hin as [Hin|Hin];
          [injection Hin as -> ->;
           split; [exact Hrun|]; split; [exact Htr|]; split; [exact Hrs|];
           split; [exact Hp|exact Hfirst]|]).
  by apply elem_of_nil in Hin.
Qed.

End AI.

Lemma plain_wrappers_post_to_their_path_witness :
  let w := Sample.world (Sample.state ∅ [inl (Sample.ok Sample.dataBody)]
                           [("T1", None)] []) [list_byte_of_string "left over"] in
  exists res w' t unread,
    ai.Semantic Sample.oracle Sample.unmarshalErrorResponse Sample.client
      Sample.payload w = Some (res, w') /\
    trace w' = trace w ++ t /\
    readers w' = readers w ++ [unread] /\
    Sample.payload = concat ((postsOf t).*2) ++ unread /\
    (forall accessToken,
       head (tokenAnswers t) = Some (accessToken, None) ->
       exists sent,
         head (postsOf t) =
           Some (WXServerUrl +:+ ai.apiSemantic +:+ "?access_token=" +:+ accessToken,
                 "application/json;charset=utf-8", length (readers w), sent)).
Proof.
  apply (plain_wrappers_post_to_their_path Sample.oracle Sample.unmarshalErrorResponse
           ai.apiSemantic (ai.Semantic Sample.oracle Sample.unmarshalErrorResponse)
           Sample.client Sample.payload).
  unfold ai.plain. apply elem_of_cons. left. reflexivity.
Defined.

Lemma parametrised_wrappers_append_the_token_witness :
  let w := Sample.world (Sample.state ∅ [inl (Sample.ok Sample.dataBody)]
                           [("T1", None)] []) [] in
  let Encode := fun params : list (string * string) =>
                  match params with
                  | [] => EmptyString
                  | (key, value) :: _ => key +:+ "=" +:+ value
                  end in
  exists res w' t unread,
    ai.AddVoiceToRecoForText Sample.oracle Sample.unmarshalErrorResponse
      (list (string * string)) Encode Sample.client Sample.payload [] w =
      Some (res, w') /\
    trace w' = trace w ++ t /\
    readers w' = readers w ++ [unread] /\
    Sample.payload = concat ((postsOf t).*2) ++ unread /\
    (forall accessToken,
       head (tokenAnswers t) = Some (accessToken, None) ->
       exists sent,
         head (postsOf t) =
           Some (WXServerUrl +:+ (ai.apiAddVoiceToRecoForText +:+ "?" +:+ Encode []) +:+
                 "&access_token=" +:+ accessToken,
                 "application/json;charset=utf-8", length (readers w), sent)).
Proof.
  intros w Encode.
  apply (parametrised_wrappers_append_the_token Sample.oracle
           Sample.unmarshalErrorResponse (list (string * string)) Encode
           ai.apiAddVoiceToRecoForText
           (ai.AddVoiceToRecoForText Sample.oracle Sample.unmarshalErrorResponse
              (list (string * string)) Encode)
           Sample.client Sample.payload [] w).
  unfold ai.parametrised. apply elem_of_cons. left. reflexivity.
Defined.
